(** * Verification of [scripts/run_queries.py]

    A shallow embedding of the query-profiling harness: the lexical
    statement splitter, the plan distiller, and the explain runner with its
    summary writer, followed by the properties proved about them. *)

From Stdlib Require Import NArith ZArith QArith List String Ascii Bool Lia.
From Stdlib Require Import DecimalString DecimalNat.
From stdpp Require Import gmap strings list.

Set Warnings "-register-all".

Local Open Scope N_scope.
Local Open Scope list_scope.

(** ** Text

    A Python [str] is a sequence of Unicode code points.  A character is its
    code point, a string the list of its characters. *)

Abbreviation char := N.
Abbreviation str := (list N).

Definition chr (a : ascii) : char := N_of_ascii a.
Definition text_of (s : string) : str := map chr (list_ascii_of_string s).

Abbreviation NL := 10 (only parsing).
Abbreviation SPACE := 32 (only parsing).
Abbreviation DQUOTE := 34 (only parsing).
Abbreviation DOLLAR := 36 (only parsing).
Abbreviation SQUOTE := 39 (only parsing).
Abbreviation STAR := 42 (only parsing).
Abbreviation DASH := 45 (only parsing).
Abbreviation SLASH := 47 (only parsing).
Abbreviation SEMI := 59 (only parsing).

(** [c.isspace()] for one character: the code points CPython lists as
    whitespace. *)
Definition isspace (c : char) : bool :=
  ((9 <=? c) && (c <=? 13)) || ((28 <=? c) && (c <=? 32))
  || (c =? 133) || (c =? 160) || (c =? 5760)
  || ((8192 <=? c) && (c <=? 8202))
  || (c =? 8232) || (c =? 8233) || (c =? 8239) || (c =? 8287) || (c =? 12288).

(** [s.isspace()]: every character is whitespace and there is at least one. *)
Definition str_isspace (s : str) : bool :=
  match s with
  | [] => false
  | _ => forallb isspace s
  end.

Fixpoint lstrip (s : str) : str :=
  match s with
  | [] => []
  | c :: s' => if isspace c then lstrip s' else s
  end.

Definition rstrip (s : str) : str := rev (lstrip (rev s)).

(** [s.strip()] *)
Definition strip (s : str) : str := rstrip (lstrip s).

(** ["".join(buf)] *)
Definition join (buf : list str) : str := concat buf.

(** [text.startswith(prefix, i)], on the suffix [text[i:]]. *)
Fixpoint startswith (prefix text : str) : bool :=
  match prefix, text with
  | [], _ => true
  | _ :: _, [] => false
  | p :: prefix', c :: text' => (p =? c) && startswith prefix' text'
  end.

(** ** The statement splitter *)

(** The character class [[A-Za-z0-9_]] of [dollar_re]. *)
Definition is_tag_char (c : char) : bool :=
  ((65 <=? c) && (c <=? 90)) || ((97 <=? c) && (c <=? 122))
  || ((48 <=? c) && (c <=? 57)) || (c =? 95).

(** The longest prefix of tag characters, and what follows it. *)
Fixpoint span_tag (s : str) : str * str :=
  match s with
  | [] => ([], [])
  | c :: s' =>
      if is_tag_char c then let (run, rest) := span_tag s' in (c :: run, rest)
      else ([], s)
  end.

(** [dollar_re.match(s)] for [dollar_re = \$[A-Za-z0-9_]*\$]: the matched
    text, if any.  The star is greedy, and since [$] is not in the class
    the only possible match takes the whole run of tag characters. *)
Definition dollar_match (s : str) : option str :=
  match s with
  | DOLLAR :: s' =>
      let (run, rest) := span_tag s' in
      match rest with
      | DOLLAR :: _ => Some (DOLLAR :: run ++ [DOLLAR])
      | _ => None
      end
  | _ => None
  end.

(** The local variables of [_split_sql_statements], the index [i] apart:
    the scanner below carries the unread text [text[i:]] in its place. *)
Record lexer := Lexer {
  statements : list str;
  buf : list str;
  in_single : bool;
  in_double : bool;
  in_line_comment : bool;
  in_block_comment : bool;
  in_dollar : option str
}.

Definition init : lexer := Lexer [] [] false false false false None.

Definition append (x : str) (st : lexer) : lexer :=
  Lexer (statements st) (buf st ++ [x]) (in_single st) (in_double st)
        (in_line_comment st) (in_block_comment st) (in_dollar st).

Definition set_single (b : bool) (st : lexer) : lexer :=
  Lexer (statements st) (buf st) b (in_double st)
        (in_line_comment st) (in_block_comment st) (in_dollar st).

Definition set_double (b : bool) (st : lexer) : lexer :=
  Lexer (statements st) (buf st) (in_single st) b
        (in_line_comment st) (in_block_comment st) (in_dollar st).

Definition set_line_comment (b : bool) (st : lexer) : lexer :=
  Lexer (statements st) (buf st) (in_single st) (in_double st)
        b (in_block_comment st) (in_dollar st).

Definition set_block_comment (b : bool) (st : lexer) : lexer :=
  Lexer (statements st) (buf st) (in_single st) (in_double st)
        (in_line_comment st) b (in_dollar st).

Definition set_dollar (d : option str) (st : lexer) : lexer :=
  Lexer (statements st) (buf st) (in_single st) (in_double st)
        (in_line_comment st) (in_block_comment st) d.

(** [if buf and not buf[-1].isspace(): buf.append(" ")] *)
Definition pad_before_comment (st : lexer) : lexer :=
  match last (buf st) with
  | Some x => if str_isspace x then st else append [SPACE] st
  | None => st
  end.

(** [statement = "".join(buf).strip(); if statement: statements.append(statement)] *)
Definition emit (stmts : list str) (b : list str) : list str :=
  match strip (join b) with
  | [] => stmts
  | statement => stmts ++ [statement]
  end.

(** Lines 125-131: a statement boundary. *)
Definition flush (st : lexer) : lexer :=
  Lexer (emit (statements st) (buf st)) [] (in_single st) (in_double st)
        (in_line_comment st) (in_block_comment st) (in_dollar st).

Definition is_char (c : char) (o : option char) : bool :=
  match o with
  | Some c' => c' =? c
  | None => false
  end.

(** Lines 68-87, tried when no quote is open: a comment opener or a dollar
    tag.  [None] when control falls through to the code below. *)
Definition openers (st : lexer) (ch : char) (tl : str) : option (lexer * str) :=
  let nxt := head tl in
  if (ch =? DASH) && is_char DASH nxt then
    Some (set_line_comment true (pad_before_comment st), drop 1 tl)
  else if (ch =? SLASH) && is_char STAR nxt then
    Some (set_block_comment true (pad_before_comment st), drop 1 tl)
  else if ch =? DOLLAR then
    match dollar_match (ch :: tl) with
    | Some tag => Some (set_dollar (Some tag) (append tag st), drop (length tag) (ch :: tl))
    | None => None
    end
  else None.

(** Lines 89-134: quotes, the statement terminator, ordinary characters. *)
Definition quotes_and_text (st : lexer) (ch : char) (tl : str) : lexer * str :=
  let nxt := head tl in
  if in_single st then
    if (ch =? SQUOTE) && is_char SQUOTE nxt then
      (append [SQUOTE] (append [ch] st), drop 1 tl)
    else if ch =? SQUOTE then (append [ch] (set_single false st), tl)
    else (append [ch] st, tl)
  else if in_double st then
    if (ch =? DQUOTE) && is_char DQUOTE nxt then
      (append [DQUOTE] (append [ch] st), drop 1 tl)
    else if ch =? DQUOTE then (append [ch] (set_double false st), tl)
    else (append [ch] st, tl)
  else if ch =? SQUOTE then (append [ch] (set_single true st), tl)
  else if ch =? DQUOTE then (append [ch] (set_double true st), tl)
  else if ch =? SEMI then (flush st, tl)
  else (append [ch] st, tl).

(** One iteration of the [while] loop at [ch = text[i]], [tl = text[i+1:]];
    the result carries the new [text[i:]]. *)
Definition step (st : lexer) (ch : char) (tl : str) : lexer * str :=
  let nxt := head tl in
  if in_line_comment st then
    ((if ch =? NL then set_line_comment false st else st), tl)
  else if in_block_comment st then
    if (ch =? STAR) && is_char SLASH nxt then (set_block_comment false st, drop 1 tl)
    else (st, tl)
  else
    match in_dollar st with
    | Some tag =>
        if startswith tag (ch :: tl)
        then (set_dollar None (append tag st), drop (length tag) (ch :: tl))
        else (append [ch] st, tl)
    | None =>
        match (if negb (in_single st) && negb (in_double st)
               then openers st ch tl else None) with
        | Some r => r
        | None => quotes_and_text st ch tl
        end
    end.

(** The loop [while i < n], with the iteration count bounded by [fuel]. *)
Fixpoint scan (fuel : nat) (st : lexer) (rest : str) : lexer :=
  match fuel, rest with
  | S fuel', ch :: tl => let (st', rest') := step st ch tl in scan fuel' st' rest'
  | _, _ => st
  end.

(** The loop run on the whole of [rest]: every iteration consumes at least
    one character, so [length rest] iterations suffice. *)
Definition run (st : lexer) (rest : str) : lexer := scan (length rest) st rest.

Definition _split_sql_statements (text : str) : list str :=
  let st := run init text in
  emit (statements st) (buf st).

(** ** JSON values and Python dictionaries *)

(** What [json.loads] builds and the distiller handles.  A [dict] keeps its
    keys in insertion order; [None] is [JNull]. *)
Inductive json :=
| JNull
| JBool (b : bool)
| JInt (z : Z)
| JFloat (q : Q)
| JStr (s : str)
| JList (l : list json)
| JDict (kvs : list (string * json)).

Definition dict := list (string * json).

Fixpoint dict_lookup (key : string) (d : dict) : option json :=
  match d with
  | [] => None
  | (k, v) :: d' => if String.eqb k key then Some v else dict_lookup key d'
  end.

(** [d.get(key, default)] *)
Definition dict_get_default (key : string) (default : json) (d : dict) : json :=
  match dict_lookup key d with
  | Some v => v
  | None => default
  end.

(** [d.get(key)] *)
Definition dict_get (key : string) (d : dict) : json := dict_get_default key JNull d.

(** [d[key] = value]: an existing key keeps its place, a new one goes last. *)
Fixpoint dict_set (key : string) (value : json) (d : dict) : dict :=
  match d with
  | [] => [(key, value)]
  | (k, v) :: d' =>
      if String.eqb k key then (k, value) :: d' else (k, v) :: dict_set key value d'
  end.

Definition dict_keys (d : dict) : list string := map fst d.

(** Python truth value of a JSON value, as [x or []] tests it. *)
Definition truthy (v : json) : bool :=
  match v with
  | JNull => false
  | JBool b => b
  | JInt z => negb (z =? 0)%Z
  | JFloat q => negb (Qeq_bool q 0)
  | JStr s => negb (bool_decide (s = []))
  | JList l => negb (bool_decide (l = []))
  | JDict kvs => negb (bool_decide (kvs = []))
  end.

Inductive exn :=
| DatabaseError
| RuntimeError
| TypeError
| AttributeError
| RecursionError
| OSError.

Inductive outcome (A : Type) :=
| Ok (a : A)
| Raise (e : exn).
Arguments Ok {A} a.
Arguments Raise {A} e.

(** What [for child in v] iterates over: the items of a list, the keys of a
    dict, the characters of a string; a number, a boolean or [None] is not
    iterable. *)
Definition elements (v : json) : outcome (list json) :=
  match v with
  | JList l => Ok l
  | JDict kvs => Ok (map (fun kv => JStr (text_of (fst kv))) kvs)
  | JStr s => Ok (map (fun c => JStr [c]) s)
  | _ => Raise TypeError
  end.

(** Nesting depth of a value, the recursion budget of the tree walk. *)
Fixpoint height (v : json) : nat :=
  match v with
  | JList l => S (list_max (map height l))
  | JDict kvs => S (list_max (map (fun kv => height (snd kv)) kvs))
  | _ => O
  end.

(** ** The plan distiller *)

Definition _summarize_plan (plan : dict) : json * json * json :=
  let planning_time := dict_get "Planning Time" plan in
  let execution_time := dict_get "Execution Time" plan in
  let top_rows :=
    match dict_get "Plan" plan with
    | JDict top_plan => dict_get "Actual Rows" top_plan
    | _ => JNull
    end in
  (planning_time, execution_time, top_rows).

Definition _add_if_present (payload node : dict) (key out_key : string) : dict :=
  match dict_get key node with
  | JNull => payload
  | value => dict_set out_key value payload
  end.

(** Lines 181-203 of [_extract_plan_nodes]: the record of one node. *)
Definition plan_item (node : dict) (depth : nat) : dict :=
  let item := [("node_type", dict_get "Node Type" node); ("depth", JInt (Z.of_nat depth))] in
  let item := _add_if_present item node "Relation Name" "relation" in
  let item := _add_if_present item node "Index Name" "index" in
  let item := _add_if_present item node "Actual Rows" "actual_rows" in
  let item := _add_if_present item node "Actual Loops" "actual_loops" in
  let item := _add_if_present item node "Actual Total Time" "actual_total_time_ms" in
  let item := _add_if_present item node "Plan Rows" "plan_rows" in
  let item := _add_if_present item node "Plan Width" "plan_width" in
  let item := _add_if_present item node "Total Cost" "plan_total_cost" in
  let item := _add_if_present item node "Filter" "filter" in
  let item := _add_if_present item node "Index Cond" "index_cond" in
  let item := _add_if_present item node "Recheck Cond" "recheck_cond" in
  let item := _add_if_present item node "Hash Cond" "hash_cond" in
  let item := _add_if_present item node "Merge Cond" "merge_cond" in
  let item := _add_if_present item node "Join Filter" "join_filter" in
  let item := _add_if_present item node "Sort Key" "sort_key" in
  let item := _add_if_present item node "Group Key" "group_key" in
  let item := _add_if_present item node "Shared Hit Blocks" "shared_hit_blocks" in
  let item := _add_if_present item node "Shared Read Blocks" "shared_read_blocks" in
  let item := _add_if_present item node "Shared Dirtied Blocks" "shared_dirtied_blocks" in
  let item := _add_if_present item node "Shared Written Blocks" "shared_written_blocks" in
  let item := _add_if_present item node "Temp Read Blocks" "temp_read_blocks" in
  let item := _add_if_present item node "Temp Written Blocks" "temp_written_blocks" in
  item.

(** [node.get("Plans", []) or []] *)
Definition plans_of (node : dict) : json :=
  let v := dict_get_default "Plans" (JList []) node in
  if truthy v then v else JList [].

(** [_extract_plan_nodes(node, depth, out)]: the list [out] is passed in and
    handed back extended.  [limit] bounds the depth of the recursion; a walk
    that exceeds it ends in [RecursionError]. *)
Fixpoint _extract_plan_nodes (limit : nat) (node : dict) (depth : nat)
    (out : list dict) : outcome (list dict) :=
  match limit with
  | O => Raise RecursionError
  | S limit' =>
      let out := out ++ [plan_item node depth] in
      match elements (plans_of node) with
      | Raise e => Raise e
      | Ok children =>
          fold_left
            (fun acc child =>
               match acc, child with
               | Ok out, JDict c => _extract_plan_nodes limit' c (depth + 1) out
               | _, _ => acc
               end)
            children (Ok out)
      end
  end.

(** [_distill_plan(plan)].  The walk is given the nesting depth of the plan
    as its budget, which it cannot exceed. *)
Definition _distill_plan (plan : dict) : outcome dict :=
  let '(planning_time, execution_time, top_rows) := _summarize_plan plan in
  let nodes :=
    match dict_get "Plan" plan with
    | JDict top_plan => _extract_plan_nodes (height (JDict plan)) top_plan 0 []
    | _ => Ok []
    end in
  match nodes with
  | Raise e => Raise e
  | Ok nodes =>
      Ok [("planning_time_ms", planning_time);
          ("execution_time_ms", execution_time);
          ("top_actual_rows", top_rows);
          ("plan_nodes", JList (map JDict nodes))]
  end.

(** ** The explain runner and the summary writer *)

(** [str(n)] for a natural number. *)
Definition decimal (n : nat) : string := NilEmpty.string_of_uint (Nat.to_uint n).

(** [s.zfill(width)], the padding of the format [0<width>d]. *)
Definition zfill (width : nat) (s : string) : string :=
  string_of_list_ascii (replicate (width - String.length s) "0"%char) +:+ s.

(** [f"{idx:03d}"] *)
Definition format_03d (idx : nat) : string := zfill 3 (decimal idx).

(** [f"query_{idx:03d}_plan.json"] *)
Definition plan_filename (idx : nat) : string :=
  "query_" +:+ format_03d idx +:+ "_plan.json".

Definition ends_with_sep (a : string) : bool :=
  match last (list_ascii_of_string a) with
  | Some c => Ascii.eqb c "/"
  | None => false
  end.

(** [os.path.join(a, b)] on a POSIX system. *)
Definition path_join (a b : string) : string :=
  if String.prefix "/" b then b
  else if String.eqb a "" || ends_with_sep a then a +:+ b
  else a +:+ "/" +:+ b.

Record QueryResult := {
  query_index : nat;
  query : str;
  plan_file : string;
  planning_time_ms : json;
  execution_time_ms : json;
  client_time_ms : Q;
  top_actual_rows : json
}.

(** What a file holds.  [json.dump] and [json.dumps] are not rendered to
    text: a written artifact is the value that was serialised. *)
Inductive file :=
| TextFile (contents : str)
| JsonFile (payload : json)
| JsonLines (rows : list json).

(** The database behind [psycopg].  [execute] submits one statement and
    fetches the first row of its result: the time the round trip took, and
    either an error or the plan document [row[0][0]] ([None] when there is
    no row). *)
Class Database := {
  server : Type;
  connect : server -> string -> server * option exn;
  execute : server -> str -> server * Q * outcome (option json)
}.

(** The operating system behind [os.makedirs], [open] and [print].  Whether
    a call is refused (a path component that is a regular file, a missing
    or unwritable directory, a closed stream) is for it to say, and a
    refused call may leave something behind. *)
Class Filesystem := {
  (** [os.makedirs(path, exist_ok=True)] with these directories and files
      in place: [None] when it succeeds, else the error and the directories
      made before it. *)
  makedirs_error : gset string -> gmap string file -> string -> option (exn * gset string);
  (** [open(path, "w")] and the writes that follow: [None] when all of them
      succeed, else the error and what is then found at [path], nothing new
      ([None]) or a truncated or partial file. *)
  write_error : gset string -> gmap string file -> string -> file -> option (exn * option file);
  (** [print(line)] after these lines: [None] when it succeeds, else the
      error and what got out before it. *)
  print_error : list string -> string -> option (exn * list string)
}.

Section Runner.
Context {DB : Database} {FS : Filesystem}.

(** Everything outside the process that a run reads or changes.
    [submitted] logs the statements handed to the database, in order. *)
Record world := World {
  srv : server;
  fs : gmap string file;
  dirs : gset string;
  clock : Q;
  utc_now : string;
  submitted : list str;
  stdout : list string
}.

(** Computations that change the world and may raise. *)
Definition M (A : Type) : Type := world -> world * outcome A.

Definition ret {A} (a : A) : M A := fun w => (w, Ok a).

Definition raise {A} (e : exn) : M A := fun w => (w, Raise e).

Definition bind {A B} (m : M A) (f : A -> M B) : M B :=
  fun w =>
    match m w with
    | (w', Ok a) => f a w'
    | (w', Raise e) => (w', Raise e)
    end.

Notation "x <- m ;; k" := (bind m (fun x => k))
  (at level 100, m at next level, right associativity).
Notation "m ;;; k" := (bind m (fun _ => k))
  (at level 100, right associativity).

(** [time.perf_counter()] *)
Definition perf_counter : M Q := fun w => (w, Ok (clock w)).

(** [psycopg.connect(dsn, autocommit=True)] *)
Definition db_connect (dsn : string) : M unit :=
  fun w =>
    let (s, r) := connect (srv w) dsn in
    let w' := World s (fs w) (dirs w) (clock w) (utc_now w) (submitted w) (stdout w) in
    match r with
    | None => (w', Ok tt)
    | Some e => (w', Raise e)
    end.

(** [cursor.execute(sql)] followed by [cursor.fetchone()]. *)
Definition cursor_execute (sql : str) : M (option json) :=
  fun w =>
    let '(s, dt, r) := execute (srv w) sql in
    (World s (fs w) (dirs w) (clock w + dt)%Q (utc_now w) (submitted w ++ [sql]) (stdout w), r).

Definition _ensure_dir (path : string) : M unit :=
  fun w =>
    match makedirs_error (dirs w) (fs w) path with
    | Some (e, made) =>
        (World (srv w) (fs w) (made ∪ dirs w) (clock w) (utc_now w) (submitted w) (stdout w),
         Raise e)
    | None =>
        (World (srv w) (fs w) ({[path]} ∪ dirs w) (clock w) (utc_now w) (submitted w)
               (stdout w),
         Ok tt)
    end.

(** [with open(path, "w") as handle: ...], the whole of [f] written. *)
Definition write_file (path : string) (f : file) : M unit :=
  fun w =>
    match write_error (dirs w) (fs w) path f with
    | Some (e, residue) =>
        (World (srv w)
               (match residue with Some partial => <[path := partial]> (fs w) | None => fs w end)
               (dirs w) (clock w) (utc_now w) (submitted w) (stdout w),
         Raise e)
    | None =>
        (World (srv w) (<[path := f]> (fs w)) (dirs w) (clock w) (utc_now w) (submitted w)
               (stdout w),
         Ok tt)
    end.

Definition _write_json (path : string) (payload : json) : M unit :=
  write_file path (JsonFile payload).

Definition print (line : string) : M unit :=
  fun w =>
    match print_error (stdout w) line with
    | Some (e, out) =>
        (World (srv w) (fs w) (dirs w) (clock w) (utc_now w) (submitted w) (stdout w ++ out),
         Raise e)
    | None =>
        (World (srv w) (fs w) (dirs w) (clock w) (utc_now w) (submitted w)
               (stdout w ++ [line]),
         Ok tt)
    end.

Definition explain_prefix : str :=
  text_of "EXPLAIN (ANALYZE, BUFFERS, VERBOSE, FORMAT JSON) ".

Definition _run_explain (query : str) : M json :=
  row <- cursor_execute (explain_prefix ++ query) ;;
  match row with
  | None => raise RuntimeError
  | Some plan => ret plan
  end.

(** [_iter_queries(path)]: the statements of the file, those that are
    blank after trimming left out. *)
Definition _iter_queries (path : string) : M (list str) :=
  fun w =>
    match fs w !! path with
    | Some (TextFile contents) =>
        (w, Ok (filter (fun statement => strip statement <> []) (_split_sql_statements contents)))
    | _ => (w, Raise OSError)
    end.

(** The body of the [for] loop of [_run_queries] for one statement. *)
Definition run_query (out_dir : string) (idx : nat) (query : str) : M QueryResult :=
  start <- perf_counter ;;
  raw_plan <- _run_explain query ;;
  stop <- perf_counter ;;
  let elapsed_ms := ((stop - start) * 1000)%Q in
  let plan_filename := plan_filename idx in
  let plan_path := path_join out_dir plan_filename in
  match raw_plan with
  | JDict plan =>
      match _distill_plan plan with
      | Raise e => raise e
      | Ok distilled_plan =>
          _write_json plan_path (JDict distilled_plan) ;;;
          ret {| query_index := idx;
                 query := query;
                 plan_file := plan_filename;
                 planning_time_ms := dict_get "planning_time_ms" distilled_plan;
                 execution_time_ms := dict_get "execution_time_ms" distilled_plan;
                 client_time_ms := elapsed_ms;
                 top_actual_rows := dict_get "top_actual_rows" distilled_plan |}
      end
  | _ => raise AttributeError
  end.

(** [for idx, query in enumerate(queries, start=idx): ... results.append(...)] *)
Fixpoint run_loop (out_dir : string) (idx : nat) (queries : list str)
    (results : list QueryResult) : M (list QueryResult) :=
  match queries with
  | [] => ret results
  | query :: queries' =>
      result <- run_query out_dir idx query ;;
      run_loop out_dir (S idx) queries' (results ++ [result])
  end.

Definition set_timeout_sql (ms : Z) : str :=
  text_of ("SET statement_timeout TO " +:+ NilZero.string_of_int (Z.to_int ms)).

Definition _run_queries (dsn sql_file out_dir : string) (statement_timeout_ms : option Z)
    : M (list QueryResult) :=
  _ensure_dir out_dir ;;;
  db_connect dsn ;;;
  match statement_timeout_ms with
  | Some ms => cursor_execute (set_timeout_sql ms) ;;; ret tt
  | None => ret tt
  end ;;;
  queries <- _iter_queries sql_file ;;
  run_loop out_dir 1 queries [].

Definition summary_payload (result : QueryResult) : json :=
  JDict [("query_index", JInt (Z.of_nat (query_index result)));
         ("query", JStr (query result));
         ("plan_file", JStr (text_of (plan_file result)));
         ("planning_time_ms", planning_time_ms result);
         ("execution_time_ms", execution_time_ms result);
         ("client_time_ms", JFloat (client_time_ms result));
         ("top_actual_rows", top_actual_rows result)].

Definition summary_path (out_dir run_id : string) : string :=
  path_join out_dir (run_id +:+ "_summary.jsonl").

Definition _write_summary (out_dir run_id : string) (results : list QueryResult) : M string :=
  write_file (summary_path out_dir run_id) (JsonLines (map summary_payload results)) ;;;
  ret (summary_path out_dir run_id).

(** The parsed command line. *)
Record arguments := {
  arg_dsn : string;
  arg_sql_file : string;
  arg_out_dir : string;
  arg_statement_timeout_ms : option Z;
  arg_run_id : option string
}.

(** [args.run_id or datetime.now(timezone.utc).strftime(...)] *)
Definition choose_run_id (a : arguments) (w : world) : string :=
  match arg_run_id a with
  | Some r => if String.eqb r "" then utc_now w else r
  | None => utc_now w
  end.

Definition main (a : arguments) : M Z :=
  fun w =>
    let run_id := choose_run_id a w in
    let out_dir := path_join (arg_out_dir a) run_id in
    (_ensure_dir out_dir ;;;
     results <- _run_queries (arg_dsn a) (arg_sql_file a) out_dir (arg_statement_timeout_ms a) ;;
     summary <- _write_summary out_dir run_id results ;;
     print ("Wrote " +:+ decimal (length results) +:+ " query plans to " +:+ out_dir) ;;;
     print ("Summary: " +:+ summary) ;;;
     ret 0%Z) w.

End Runner.

(** * Vocabulary of the properties *)

(** ** The statement splitter *)

(** A statement as the splitter emits it. *)
Definition trimmed (s : str) : Prop :=
  s <> [] /\ strip s = s.

(** A dollar tag: [$], tag characters, [$]. *)
Definition is_tag (t : str) : Prop :=
  exists body, t = DOLLAR :: body ++ [DOLLAR] /\ forallb is_tag_char body = true.

(** What [buf.append] is given: one character or a whole tag. *)
Definition chunk_ok (x : str) : Prop := (exists c, x = [c]) \/ is_tag x.

(** How many of the five modes are on. *)
Definition mode_count (st : lexer) : nat :=
  (Nat.b2n (in_single st) + Nat.b2n (in_double st) + Nat.b2n (in_line_comment st)
   + Nat.b2n (in_block_comment st) + match in_dollar st with Some _ => 1 | None => 0 end)%nat.

(** The invariant of the loop: the open tag is a tag, the buffer holds
    characters and tags, and at most one mode is on. *)
Record wf (st : lexer) : Prop := {
  wf_tag : forall t, in_dollar st = Some t -> is_tag t;
  wf_buf : Forall chunk_ok (buf st);
  wf_mode : (mode_count st <= 1)%nat
}.

(** Normal mode: no quote, comment or dollar region is open. *)
Definition normal (st : lexer) : bool :=
  negb (in_single st) && negb (in_double st) && negb (in_line_comment st)
  && negb (in_block_comment st) && bool_decide (in_dollar st = None).

(** The loop body as a relation, one rule per path through it. *)
Inductive Step (st : lexer) (ch : char) (tl : str) : lexer -> str -> Prop :=
| Step_line_end :
    in_line_comment st = true -> ch = NL ->
    Step st ch tl (set_line_comment false st) tl
| Step_line_skip :
    in_line_comment st = true -> ch <> NL ->
    Step st ch tl st tl
| Step_block_end tl' :
    in_line_comment st = false -> in_block_comment st = true ->
    ch = STAR -> tl = SLASH :: tl' ->
    Step st ch tl (set_block_comment false st) tl'
| Step_block_skip :
    in_line_comment st = false -> in_block_comment st = true ->
    ~ (ch = STAR /\ head tl = Some SLASH) ->
    Step st ch tl st tl
| Step_dollar_end tag :
    in_line_comment st = false -> in_block_comment st = false ->
    in_dollar st = Some tag -> startswith tag (ch :: tl) = true ->
    Step st ch tl (set_dollar None (append tag st)) (drop (length tag) (ch :: tl))
| Step_dollar_body tag :
    in_line_comment st = false -> in_block_comment st = false ->
    in_dollar st = Some tag -> startswith tag (ch :: tl) = false ->
    Step st ch tl (append [ch] st) tl
| Step_line_open tl' :
    normal st = true -> ch = DASH -> tl = DASH :: tl' ->
    Step st ch tl (set_line_comment true (pad_before_comment st)) tl'
| Step_block_open tl' :
    normal st = true -> ch = SLASH -> tl = STAR :: tl' ->
    Step st ch tl (set_block_comment true (pad_before_comment st)) tl'
| Step_dollar_open tag :
    normal st = true -> ch = DOLLAR -> dollar_match (ch :: tl) = Some tag ->
    Step st ch tl (set_dollar (Some tag) (append tag st)) (drop (length tag) (ch :: tl))
| Step_single_escape tl' :
    in_line_comment st = false -> in_block_comment st = false -> in_dollar st = None ->
    in_single st = true -> ch = SQUOTE -> tl = SQUOTE :: tl' ->
    Step st ch tl (append [SQUOTE] (append [ch] st)) tl'
| Step_single_end :
    in_line_comment st = false -> in_block_comment st = false -> in_dollar st = None ->
    in_single st = true -> ch = SQUOTE -> head tl <> Some SQUOTE ->
    Step st ch tl (append [ch] (set_single false st)) tl
| Step_single_body :
    in_line_comment st = false -> in_block_comment st = false -> in_dollar st = None ->
    in_single st = true -> ch <> SQUOTE ->
    Step st ch tl (append [ch] st) tl
| Step_double_escape tl' :
    in_line_comment st = false -> in_block_comment st = false -> in_dollar st = None ->
    in_single st = false -> in_double st = true -> ch = DQUOTE -> tl = DQUOTE :: tl' ->
    Step st ch tl (append [DQUOTE] (append [ch] st)) tl'
| Step_double_end :
    in_line_comment st = false -> in_block_comment st = false -> in_dollar st = None ->
    in_single st = false -> in_double st = true -> ch = DQUOTE -> head tl <> Some DQUOTE ->
    Step st ch tl (append [ch] (set_double false st)) tl
| Step_double_body :
    in_line_comment st = false -> in_block_comment st = false -> in_dollar st = None ->
    in_single st = false -> in_double st = true -> ch <> DQUOTE ->
    Step st ch tl (append [ch] st) tl
| Step_single_open :
    normal st = true -> ch = SQUOTE ->
    Step st ch tl (append [ch] (set_single true st)) tl
| Step_double_open :
    normal st = true -> ch = DQUOTE ->
    Step st ch tl (append [ch] (set_double true st)) tl
| Step_boundary :
    normal st = true -> ch = SEMI ->
    Step st ch tl (flush st) tl
| Step_text :
    normal st = true ->
    ~ (ch = DASH /\ head tl = Some DASH) -> ~ (ch = SLASH /\ head tl = Some STAR) ->
    (ch = DOLLAR -> dollar_match (ch :: tl) = None) ->
    ch <> SQUOTE -> ch <> DQUOTE -> ch <> SEMI ->
    Step st ch tl (append [ch] st) tl.

(** The configurations [(state, text[i:])] at which the loop body is entered. *)
Fixpoint trace (fuel : nat) (st : lexer) (rest : str) : list (lexer * str) :=
  match fuel, rest with
  | S fuel', ch :: tl =>
      (st, rest) :: (let (st', rest') := step st ch tl in trace fuel' st' rest')
  | _, _ => []
  end.

(** [trace] with the budget that [run] uses. *)
Definition configurations (st : lexer) (rest : str) : list (lexer * str) :=
  trace (length rest) st rest.

(** The loop stands at a [;] in Normal mode. *)
Definition at_boundary (c : lexer * str) : bool :=
  normal c.1 && is_char SEMI (head c.2).

(** The number of Normal-mode semicolons met when scanning [text]. *)
Definition boundaries (text : str) : nat :=
  length (List.filter at_boundary (configurations init text)).

(** Several [buf.append] in a row. *)
Definition append_all (xs : list str) (st : lexer) : lexer :=
  Lexer (statements st) (buf st ++ xs) (in_single st) (in_double st)
        (in_line_comment st) (in_block_comment st) (in_dollar st).

(** A text as the chunks it is buffered in, one per character. *)
Definition chars (s : str) : list str := map (fun c => [c]) s.

(** The text contains the block-comment terminator. *)
Fixpoint has_block_end (s : str) : bool :=
  match s with
  | [] => false
  | c :: s' => ((c =? STAR) && is_char SLASH (head s')) || has_block_end s'
  end.

(** What [pad_before_comment] adds to the buffered text. *)
Definition comment_padding (buffered : str) : str :=
  match last buffered with
  | Some c => if isspace c then [] else [SPACE]
  | None => []
  end.

(** A character no lookahead of the scanner reacts to: it neither completes
    a two-character token nor belongs to a dollar tag. *)
Definition stop (c : char) : bool :=
  negb ((c =? DASH) || (c =? STAR) || (c =? SLASH) || (c =? SQUOTE) || (c =? DQUOTE)
        || (c =? DOLLAR) || is_tag_char c).

(** The same scanner state with statements [L] already emitted before. *)
Definition prepend (L : list str) (st : lexer) : lexer :=
  Lexer (L ++ statements st) (buf st) (in_single st) (in_double st)
        (in_line_comment st) (in_block_comment st) (in_dollar st).

(** A line or block comment is open. *)
Definition in_comment (st : lexer) : bool := in_line_comment st || in_block_comment st.

(** The loop body is entered neither inside a comment nor at a boundary. *)
Definition quiet (c : lexer * str) : bool := negb (in_comment c.1) && negb (at_boundary c).

(** Scanning [text] never enters a comment. *)
Definition comment_free (text : str) : bool :=
  forallb (fun c => negb (in_comment c.1)) (configurations init text)
  && negb (in_comment (run init text)).

(** A text made of whitespace and comments only; the last comment may be
    left open. *)
Inductive only_comments : str -> Prop :=
| only_comments_nil : only_comments []
| only_comments_space c rest :
    isspace c = true -> only_comments rest -> only_comments (c :: rest)
| only_comments_line body rest :
    Forall (fun c => c <> NL) body -> only_comments rest ->
    only_comments ([DASH; DASH] ++ body ++ NL :: rest)
| only_comments_line_open body :
    Forall (fun c => c <> NL) body -> only_comments ([DASH; DASH] ++ body)
| only_comments_block body rest :
    has_block_end body = false -> only_comments rest ->
    only_comments ([SLASH; STAR] ++ body ++ STAR :: SLASH :: rest)
| only_comments_block_open body :
    has_block_end body = false -> only_comments ([SLASH; STAR] ++ body).

(** [";".join(statements)] *)
Fixpoint join_semi (l : list str) : str :=
  match l with
  | [] => []
  | [s] => s
  | s :: l' => s ++ SEMI :: join_semi l'
  end.

(** The text an iteration added to the buffer. *)
Definition added (st st' : lexer) : str :=
  drop (length (join (buf st))) (join (buf st')).

(** One segment of the scan: from [st] on [rest] up to the next statement
    boundary or the end of the text, with the text [B] buffered on the way. *)
Inductive Seg : lexer -> str -> str -> lexer -> str -> Prop :=
| Seg_eof st : Seg st [] [] st []
| Seg_boundary st rem : normal st = true -> Seg st (SEMI :: rem) [] st (SEMI :: rem)
| Seg_step st ch tl st1 r1 B s2 k :
    ~ (normal st = true /\ ch = SEMI) ->
    Step st ch tl st1 r1 ->
    Seg st1 r1 B s2 k ->
    Seg st (ch :: tl) (added st st1 ++ B) s2 k.

(** The state of a second scan over the buffered text: in the same quote
    or dollar region as the first, and never in a comment. *)
Definition mirrors (st s' : lexer) : Prop :=
  in_single s' = in_single st /\ in_double s' = in_double st /\
  in_dollar s' = in_dollar st /\
  in_line_comment s' = false /\ in_block_comment s' = false.

(** The buffer ends in a chunk that is not whitespace: a comment opened now
    is padded. *)
Definition padded (st : lexer) : Prop :=
  exists x, last (buf st) = Some x /\ str_isspace x = false.

(** A statement that splits into itself and leaves the scanner in Normal mode. *)
Definition stable (s : str) : Prop :=
  _split_sql_statements s = [s] /\ normal (run init s) = true.

(** The text continues with tag characters and then a [$]. *)
Definition tag_follows (s : str) : bool := is_char DOLLAR (head (span_tag s).2).

(** Scanning the buffered text [B] from [s'] buffers it unchanged, emits
    nothing, and ends in a state that mirrors [s2]. *)
Definition rescanned (s2 s' : lexer) (B : str) : Prop :=
  mirrors s2 (run s' B) /\ join (buf (run s' B)) = join (buf s') ++ B /\
  statements (run s' B) = statements s'.

(** No quote and no dollar region is open. *)
Definition closed (st : lexer) : Prop :=
  in_single st = false /\ in_double st = false /\ in_dollar st = None.

(** The scan of [text] ends outside every quote and dollar region. *)
Definition balanced (text : str) : Prop := closed (run init text).

(** Whitespace or the statement terminator. *)
Definition blank (c : char) : bool := isspace c || (c =? SEMI).

(** How often [c] occurs in [s]. *)
Definition occurrences (c : char) (s : str) : nat :=
  length (List.filter (fun a => a =? c) s).

(** A literal body in which every quote character [q] is written twice. *)
Definition doubled (q : char) (body : str) : str :=
  flat_map (fun c => if c =? q then [q; q] else [c]) body.

(** [s.split(sep)] for a separator of one character. *)
Fixpoint split_on (sep : char) (s : str) : list str :=
  match s with
  | [] => [[]]
  | c :: s' =>
      if c =? sep then [] :: split_on sep s'
      else match split_on sep s' with
           | piece :: pieces => (c :: piece) :: pieces
           | [] => [[c]]
           end
  end.

(** [[p.strip() for p in text.split(";") if p.strip()]]: splitting with no
    regard to quotes and comments. *)
Definition naive_split (text : str) : list str :=
  filter (fun s => s <> []) (map strip (split_on SEMI text)).

(** A character that opens no quote, comment or dollar tag. *)
Definition plain (c : char) : bool :=
  negb ((c =? SQUOTE) || (c =? DQUOTE) || (c =? DOLLAR) || (c =? DASH) || (c =? SLASH)).

(** The pieces [l] with [acc] put in front of the first. *)
Definition continue_piece (acc : str) (l : list str) : list str :=
  match l with
  | piece :: pieces => (acc ++ piece) :: pieces
  | [] => [acc]
  end.

Local Close Scope N_scope.

(** ** The plan distiller and the runner *)

(** The dicts among the items of a list. *)
Definition dicts_of (l : list json) : list dict :=
  omap (fun v => match v with JDict d => Some d | _ => None end) l.

(** The child nodes of a plan node, in source order. *)
Definition children (node : dict) : list dict :=
  match elements (plans_of node) with
  | Ok l => dicts_of l
  | Raise _ => []
  end.

(** A plan tree: at every node the [Plans] field can be iterated over. *)
Inductive well_formed : dict -> Prop :=
| well_formed_node node l :
    elements (plans_of node) = Ok l ->
    Forall well_formed (children node) ->
    well_formed node.

(** Preorder: a node, then the subtrees of its children from first to last,
    one level deeper.  [fuel] bounds the depth walked. *)
Fixpoint preorder (fuel : nat) (node : dict) (depth : nat) : list dict :=
  match fuel with
  | O => []
  | S fuel' =>
      plan_item node depth :: flat_map (fun c => preorder fuel' c (S depth)) (children node)
  end.

(** The number of nodes of a tree, walked to depth [fuel]. *)
Fixpoint count_nodes (fuel : nat) (node : dict) : nat :=
  match fuel with
  | O => O
  | S fuel' => S (list_sum (map (count_nodes fuel') (children node)))
  end.

(** The preorder of the whole tree below [node]. *)
Definition flatten (node : dict) (depth : nat) : list dict :=
  preorder (height (JDict node)) node depth.

(** The total number of nodes of the tree below [node]. *)
Definition size (node : dict) : nat := count_nodes (height (JDict node)) node.

(** The node reached from [node] by following child indices. *)
Fixpoint at_path (node : dict) (path : list nat) : option dict :=
  match path with
  | [] => Some node
  | j :: path' =>
      match children node !! j with
      | Some c => at_path c path'
      | None => None
      end
  end.

(** The loop over the children, as [_extract_plan_nodes] runs it. *)
Definition visit (limit depth : nat) (acc : outcome (list dict)) (child : json)
    : outcome (list dict) :=
  match acc, child with
  | Ok out, JDict c => _extract_plan_nodes limit c (depth + 1) out
  | _, _ => acc
  end.

(** The optional fields of a plan node and their names in the distilled record. *)
Definition optional_fields : list (string * string) :=
  [("Relation Name", "relation"); ("Index Name", "index");
   ("Actual Rows", "actual_rows"); ("Actual Loops", "actual_loops");
   ("Actual Total Time", "actual_total_time_ms"); ("Plan Rows", "plan_rows");
   ("Plan Width", "plan_width"); ("Total Cost", "plan_total_cost");
   ("Filter", "filter"); ("Index Cond", "index_cond"); ("Recheck Cond", "recheck_cond");
   ("Hash Cond", "hash_cond"); ("Merge Cond", "merge_cond"); ("Join Filter", "join_filter");
   ("Sort Key", "sort_key"); ("Group Key", "group_key");
   ("Shared Hit Blocks", "shared_hit_blocks"); ("Shared Read Blocks", "shared_read_blocks");
   ("Shared Dirtied Blocks", "shared_dirtied_blocks");
   ("Shared Written Blocks", "shared_written_blocks");
   ("Temp Read Blocks", "temp_read_blocks"); ("Temp Written Blocks", "temp_written_blocks")].

(** A field of the source node that is there and is not [None]. *)
Definition present (key : string) (node : dict) : option json :=
  match dict_lookup key node with
  | Some JNull => None
  | other => other
  end.

(** The effect of one [_add_if_present] on the lookup of the key [k]. *)
Definition override (node : dict) (k : string) (acc : option json) (f : string * string)
    : option json :=
  if String.eqb (snd f) k
  then match present (fst f) node with Some v => Some v | None => acc end
  else acc.

(** Sample plan nodes: a leaf with a null [Filter], a join whose [Plans]
    holds a stray number between two leaves, and a sort above them. *)
Definition scan_node (name : string) : dict :=
  [("Node Type", JStr (text_of name)); ("Actual Rows", JInt 3); ("Filter", JNull)].

Definition join_node : dict :=
  [("Node Type", JStr (text_of "Hash Join")); ("Hash Cond", JStr (text_of "a = b"));
   ("Plans", JList [JDict (scan_node "Seq Scan"); JInt 4; JDict (scan_node "Hash")])].

Definition sort_node : dict :=
  [("Node Type", JStr (text_of "Sort"));
   ("Plans", JList [JDict join_node; JDict (scan_node "Index Scan")])].

(** A plan of depth 3 with five nodes. *)
Definition sample_plan : dict :=
  [("Plan", JDict sort_node); ("Planning Time", JFloat (1 # 2))].

(** A plan object: its [Plan] child, if a dict, is a plan tree. *)
Definition well_formed_plan (plan : dict) : Prop :=
  forall top, dict_get "Plan" plan = JDict top -> well_formed top.

(** [top_rows] of [_summarize_plan]. *)
Definition top_rows (plan : dict) : json :=
  match dict_get "Plan" plan with
  | JDict top_plan => dict_get "Actual Rows" top_plan
  | _ => JNull
  end.

(** Reading a number back from its decimal digits, leading zeros allowed. *)
Definition parse_decimal (s : string) : option nat :=
  option_map Nat.of_uint (NilEmpty.uint_of_string s).

(** The character of a decimal digit. *)
Definition digit (d : nat) : ascii := ascii_of_nat (48 + d).

(** The three digits of a number below 1000. *)
Definition three_digits (n : nat) : string :=
  String (digit (n / 100)) (String (digit (n / 10 mod 10)) (String (digit (n mod 10)) "")).

(** The padding that [zfill] puts in front. *)
Definition zeros (k : nat) : string := string_of_list_ascii (replicate k "0"%char).

(** What [path_join a] puts in front of a relative name. *)
Definition dir_prefix (a : string) : string :=
  if String.eqb a "" || ends_with_sep a then a else a +:+ "/".

(** The last character of a path. *)
Definition last_char (s : string) : option ascii := last (list_ascii_of_string s).

(** The entry that one row of the table adds to the record of [node]. *)
Definition copied (node : dict) (f : string * string) : option (string * json) :=
  match present (fst f) node with
  | Some v => Some (snd f, v)
  | None => None
  end.

(** A value that [for child in v] can walk. *)
Definition iterable (v : json) : bool :=
  match v with
  | JList _ | JDict _ | JStr _ => true
  | _ => false
  end.

Section RunnerVocabulary.
Context {DB : Database} {FS : Filesystem}.

(** The world after [run_query] has stored the artifact [d] for statement
    [idx], the server having moved to [s] in time [dt]. *)
Definition after_query (out_dir : string) (idx : nat) (query : str) (s : server) (dt : Q)
    (d : dict) (w : world) : world :=
  World s (<[path_join out_dir (plan_filename idx) := JsonFile (JDict d)]> (fs w))
        (dirs w) (clock w + dt)%Q (utc_now w) (submitted w ++ [explain_prefix ++ query])
        (stdout w).

(** The [QueryResult] built for statement [idx] from its distilled plan. *)
Definition result_of (idx : nat) (query : str) (dt : Q) (d : dict) (w : world)
    : QueryResult :=
  {| query_index := idx; query := query; plan_file := plan_filename idx;
     planning_time_ms := dict_get "planning_time_ms" d;
     execution_time_ms := dict_get "execution_time_ms" d;
     client_time_ms := ((clock w + dt - clock w) * 1000)%Q;
     top_actual_rows := dict_get "top_actual_rows" d |}.

(** What one successfully processed statement leaves behind. *)
Definition processed (out_dir : string) (fs' : gmap string file) (idx : nat) (q : str)
    (r : QueryResult) : Prop :=
  query_index r = idx /\ query r = q /\ plan_file r = plan_filename idx /\
  exists plan d,
    _distill_plan plan = Ok d /\
    fs' !! path_join out_dir (plan_filename idx) = Some (JsonFile (JDict d)) /\
    planning_time_ms r = dict_get "planning_time_ms" d /\
    execution_time_ms r = dict_get "execution_time_ms" d /\
    top_actual_rows r = dict_get "top_actual_rows" d.

(** [_run_queries] up to the loop: the directory, the connection, the timeout. *)
Definition entering (dsn out_dir : string) (statement_timeout_ms : option Z) : M unit :=
  bind (_ensure_dir out_dir) (fun _ =>
  bind (db_connect dsn) (fun _ =>
  match statement_timeout_ms with
  | Some ms => bind (cursor_execute (set_timeout_sql ms)) (fun _ => ret tt)
  | None => ret tt
  end)).

(** The two lines that [main] prints. *)
Definition closing_lines (out_dir run_id : string) (results : list QueryResult)
    : string * string :=
  ("Wrote " +:+ decimal (length results) +:+ " query plans to " +:+ out_dir,
   "Summary: " +:+ summary_path out_dir run_id).

(** The world in which [main] returns: the summary written, two lines printed. *)
Definition finished (out_dir run_id : string) (results : list QueryResult) (w : world)
    : world :=
  World (srv w)
        (<[summary_path out_dir run_id := JsonLines (map summary_payload results)]> (fs w))
        (dirs w) (clock w) (utc_now w) (submitted w)
        (stdout w ++ ["Wrote " +:+ decimal (length results) +:+ " query plans to " +:+ out_dir;
                      "Summary: " +:+ summary_path out_dir run_id]).

(** The world in which [main] calls [_run_queries]. *)
Definition prepared (a : arguments) (w : world) : world :=
  (_ensure_dir (path_join (arg_out_dir a) (choose_run_id a w)) w).1.

(** Lines 326-330 of [main]: the summary, the two lines, the exit status. *)
Definition closing (out_dir run_id : string) (results : list QueryResult) : M Z :=
  bind (_write_summary out_dir run_id results) (fun summary =>
  bind (print ("Wrote " +:+ decimal (length results) +:+ " query plans to " +:+ out_dir))
    (fun _ =>
  bind (print ("Summary: " +:+ summary)) (fun _ => ret 0%Z))).

(** Nothing refuses the summary or the two lines, in the world [w] that
    [_run_queries] leaves. *)
Definition closing_succeeds (out_dir run_id : string) (results : list QueryResult)
    (w : world) : Prop :=
  write_error (dirs w) (fs w) (summary_path out_dir run_id)
    (JsonLines (map summary_payload results)) = None /\
  print_error (stdout w) (closing_lines out_dir run_id results).1 = None /\
  print_error (stdout w ++ [(closing_lines out_dir run_id results).1])
    (closing_lines out_dir run_id results).2 = None.

(** Both calls of [_ensure_dir], the one in [main] and the one in
    [_run_queries], succeed. *)
Definition directories_made (a : arguments) (w : world) : Prop :=
  let out_dir := path_join (arg_out_dir a) (choose_run_id a w) in
  makedirs_error (dirs w) (fs w) out_dir = None /\
  makedirs_error ({[out_dir]} ∪ dirs w) (fs w) out_dir = None.

End RunnerVocabulary.

(** What [main] does before the first statement: both directories, the
    connection, the timeout. *)
Definition setup `{DB : Database} `{FS : Filesystem} (a : arguments) : M unit :=
  fun w =>
    let out_dir := path_join (arg_out_dir a) (choose_run_id a w) in
    bind (_ensure_dir out_dir)
      (fun _ => entering (arg_dsn a) out_dir (arg_statement_timeout_ms a)) w.

(** A database that answers every statement with the same plan, except
    the statement [BAD], which it rejects. *)
Definition toy_db : Database := {|
  server := nat;
  connect := fun s _ => (s, None);
  execute := fun s sql =>
    (S s, 1 # 1000,
     if bool_decide (sql = explain_prefix ++ text_of "BAD") then Raise DatabaseError
     else Ok (Some (JDict sample_plan)))
|}.

(** A world whose only file is [q.sql], holding [sql]. *)
Definition toy_world (sql : string) : @world toy_db :=
  World (DB := toy_db) 0%nat {["q.sql" := TextFile (text_of sql)]} ∅ 0 "20260101T000000Z" [] [].

(** A filesystem that refuses nothing. *)
Definition toy_fs : Filesystem := {|
  makedirs_error := fun _ _ _ => None;
  write_error := fun _ _ _ _ => None;
  print_error := fun _ _ => None
|}.

(** A command line for it. *)
Definition toy_args : arguments :=
  {| arg_dsn := "dbname=test"; arg_sql_file := "q.sql"; arg_out_dir := "out";
     arg_statement_timeout_ms := Some 5000%Z; arg_run_id := Some "r1" |}.

(** What is submitted before the first statement of the file. *)
Definition timeout_statements (statement_timeout_ms : option Z) : list str :=
  match statement_timeout_ms with
  | Some ms => [set_timeout_sql ms]
  | None => []
  end.

(** Every string of the list is below, in dictionary order, all that follow it. *)
Fixpoint increasing (l : list string) : bool :=
  match l with
  | [] => true
  | x :: r => forallb (String.ltb x) r && increasing r
  end.

(** A database that cannot be reached. *)
Definition down_db : Database := {|
  server := unit;
  connect := fun s _ => (s, Some DatabaseError);
  execute := fun s _ => (s, 0%Q, Raise DatabaseError)
|}.

(** * Properties *)

Local Close Scope list_scope.
Local Open Scope N_scope.
Local Open Scope list_scope.

(** ** The statement splitter *)

(** ** Trimming *)

Lemma lstrip_head (s : str) (c : char) (s' : str) :
  lstrip s = c :: s' -> isspace c = false.
Proof.
  induction s as [|a s IH]; simpl; [discriminate|].
  destruct (isspace a) eqn:Ha; [exact IH|].
  intros [= <- _]. exact Ha.
Qed.

Lemma lstrip_fixed (c : char) (s : str) :
  isspace c = false -> lstrip (c :: s) = c :: s.
Proof. intros H. simpl. by rewrite H. Qed.

Lemma lstrip_idem (s : str) : lstrip (lstrip s) = lstrip s.
Proof.
  destruct (lstrip s) as [|c s'] eqn:E; [done|].
  apply lstrip_fixed. eapply lstrip_head, E.
Qed.

Lemma lstrip_snoc (s : str) (c : char) :
  isspace c = false -> lstrip (s ++ [c]) = lstrip s ++ [c].
Proof.
  intros Hc. induction s as [|a s IH]; simpl; [by rewrite Hc|].
  destruct (isspace a); [exact IH|done].
Qed.

Lemma rstrip_cons (c : char) (s : str) :
  isspace c = false -> rstrip (c :: s) = c :: rstrip s.
Proof.
  intros Hc. unfold rstrip. simpl. rewrite lstrip_snoc by done.
  by rewrite rev_app_distr.
Qed.

Lemma rstrip_idem (s : str) : rstrip (rstrip s) = rstrip s.
Proof. unfold rstrip. by rewrite rev_involutive, lstrip_idem. Qed.

Lemma rstrip_last (s : str) (c : char) :
  last (rstrip s) = Some c -> isspace c = false.
Proof.
  unfold rstrip. destruct (lstrip (rev s)) as [|a l] eqn:E; [done|].
  simpl. rewrite last_snoc. intros [= <-]. eapply lstrip_head, E.
Qed.

Lemma strip_idem (s : str) : strip (strip s) = strip s.
Proof.
  unfold strip. destruct (lstrip s) as [|c s'] eqn:E; [done|].
  assert (isspace c = false) as Hc by (eapply lstrip_head, E).
  rewrite rstrip_cons by done. rewrite lstrip_fixed by done.
  rewrite <- rstrip_cons by done. apply rstrip_idem.
Qed.

Lemma strip_head (s : str) (c : char) : head (strip s) = Some c -> isspace c = false.
Proof.
  unfold strip. destruct (lstrip s) as [|a s'] eqn:E; [done|].
  assert (isspace a = false) as Ha by (eapply lstrip_head, E).
  rewrite rstrip_cons by done. simpl. by intros [= <-].
Qed.

Lemma strip_last (s : str) (c : char) : last (strip s) = Some c -> isspace c = false.
Proof. apply rstrip_last. Qed.

Lemma rstrip_fixed (s : str) (c : char) :
  isspace c = false -> rstrip (s ++ [c]) = s ++ [c].
Proof.
  intros Hc. unfold rstrip. rewrite rev_app_distr. simpl. rewrite Hc.
  simpl. by rewrite rev_involutive.
Qed.

(** A string that neither starts nor ends with whitespace is its own trim. *)
Lemma strip_fixed (s : str) (a b : char) :
  head s = Some a -> isspace a = false ->
  last s = Some b -> isspace b = false -> strip s = s.
Proof.
  intros Ha Hsa Hb Hsb. unfold strip.
  destruct s as [|a' s]; [done|]. injection Ha as ->.
  rewrite lstrip_fixed by done.
  destruct (last_Some (a :: s) b) as [[l' Hl] _]; [done|].
  rewrite Hl. by apply rstrip_fixed.
Qed.

Lemma emit_trimmed (stmts : list str) (b : list str) :
  Forall trimmed stmts -> Forall trimmed (emit stmts b).
Proof.
  intros H. unfold emit. destruct (strip (join b)) as [|c s] eqn:E; [done|].
  apply Forall_app. split; [done|]. constructor; [|done].
  split; [done|]. rewrite <- E. apply strip_idem.
Qed.

Lemma span_tag_spec (s run rest : str) :
  span_tag s = (run, rest) ->
  s = run ++ rest /\ forallb is_tag_char run = true /\
  (forall c, head rest = Some c -> is_tag_char c = false).
Proof.
  revert run rest. induction s as [|c s IH]; simpl; intros run rest.
  - intros [= <- <-]. done.
  - destruct (is_tag_char c) eqn:Hc.
    + destruct (span_tag s) as [run' rest'] eqn:E. intros [= <- <-].
      destruct (IH _ _ eq_refl) as (-> & Hrun & Hrest).
      simpl. rewrite Hc. done.
    + intros [= <- <-]. simpl. split; [done|]. split; [done|].
      by intros ? [= <-].
Qed.

Lemma dollar_match_spec (s t : str) :
  dollar_match s = Some t -> is_tag t /\ exists rest, s = t ++ rest.
Proof.
  unfold dollar_match. destruct s as [|c s]; [done|].
  destruct (N.eq_dec c DOLLAR) as [->|Hne].
  2:{ repeat case_match; try done; exfalso; lia. }
  destruct (span_tag s) as [run rest] eqn:E.
  destruct (span_tag_spec _ _ _ E) as (-> & Hrun & _).
  destruct rest as [|d rest]; [done|].
  destruct (N.eq_dec d DOLLAR) as [->|Hne].
  2:{ repeat case_match; try done; exfalso; lia. }
  intros [= <-]. split; [by exists run|].
  exists rest. simpl. by rewrite <- app_assoc.
Qed.

Lemma is_tag_nonempty (t : str) : is_tag t -> t <> [].
Proof. by intros (body & -> & _). Qed.

Lemma wf_init : wf init.
Proof. split; simpl; [done|by apply List.Forall_nil|unfold mode_count; simpl; lia]. Qed.

Arguments dollar_match : simpl never.

Arguments startswith : simpl never.

Lemma is_char_true (c : char) (l : str) :
  is_char c (head l) = true -> exists l', l = c :: l'.
Proof.
  destruct l as [|a l]; [done|]. simpl. intros ->%N.eqb_eq. by exists l.
Qed.

Lemma is_char_false (c : char) (l : str) :
  is_char c (head l) = false -> head l <> Some c.
Proof.
  destruct l as [|a l]; [done|]. simpl. intros H%N.eqb_neq. congruence.
Qed.

Lemma step_Step (st : lexer) (ch : char) (tl : str) :
  Step st ch tl (step st ch tl).1 (step st ch tl).2.
Proof.
  unfold step.
  destruct (in_line_comment st) eqn:Hl.
  { destruct (ch =? NL) eqn:E; simpl.
    - apply N.eqb_eq in E. by apply Step_line_end.
    - apply N.eqb_neq in E. by apply Step_line_skip. }
  destruct (in_block_comment st) eqn:Hb.
  { destruct (ch =? STAR) eqn:E; simpl.
    - apply N.eqb_eq in E. destruct (is_char SLASH (head tl)) eqn:E2; simpl.
      + apply is_char_true in E2 as [tl' ->]. by eapply Step_block_end.
      + apply is_char_false in E2. apply Step_block_skip; [done..|]. tauto.
    - apply N.eqb_neq in E. apply Step_block_skip; [done..|]. tauto. }
  destruct (in_dollar st) as [tag|] eqn:Hd.
  { destruct (startswith tag (ch :: tl)) eqn:E; simpl.
    - by eapply Step_dollar_end.
    - by eapply Step_dollar_body. }
  destruct (in_single st) eqn:Hs; simpl.
  { unfold quotes_and_text. rewrite Hs.
    destruct (ch =? SQUOTE) eqn:E; simpl.
    - apply N.eqb_eq in E. destruct (is_char SQUOTE (head tl)) eqn:E2; simpl.
      + apply is_char_true in E2 as [tl' ->]. by eapply Step_single_escape.
      + apply is_char_false in E2. by apply Step_single_end.
    - apply N.eqb_neq in E. by apply Step_single_body. }
  destruct (in_double st) eqn:Hdb; simpl.
  { unfold quotes_and_text. rewrite Hs, Hdb.
    destruct (ch =? DQUOTE) eqn:E; simpl.
    - apply N.eqb_eq in E. destruct (is_char DQUOTE (head tl)) eqn:E2; simpl.
      + apply is_char_true in E2 as [tl' ->]. by eapply Step_double_escape.
      + apply is_char_false in E2. by apply Step_double_end.
    - apply N.eqb_neq in E. by apply Step_double_body. }
  assert (normal st = true) as Hn.
  { unfold normal. rewrite Hl, Hb, Hd, Hs, Hdb. done. }
  unfold openers.
  destruct (ch =? DASH) eqn:E1; simpl.
  { apply N.eqb_eq in E1. destruct (is_char DASH (head tl)) eqn:E2; simpl.
    - apply is_char_true in E2 as [tl' ->]. by eapply Step_line_open.
    - apply is_char_false in E2. subst ch. simpl.
      unfold quotes_and_text. rewrite Hs, Hdb. simpl.
      apply Step_text; try done; try (intuition congruence). }
  destruct (ch =? SLASH) eqn:E3; simpl.
  { apply N.eqb_eq in E3. destruct (is_char STAR (head tl)) eqn:E2; simpl.
    - apply is_char_true in E2 as [tl' ->]. by eapply Step_block_open.
    - apply is_char_false in E2. subst ch. simpl.
      unfold quotes_and_text. rewrite Hs, Hdb. simpl.
      apply Step_text; try done; try (intuition congruence). }
  apply N.eqb_neq in E1, E3.
  destruct (ch =? DOLLAR) eqn:E4.
  { apply N.eqb_eq in E4. destruct (dollar_match (ch :: tl)) as [tag|] eqn:E5; simpl.
    - by eapply Step_dollar_open.
    - subst ch. unfold quotes_and_text. rewrite Hs, Hdb. simpl.
      apply Step_text; try done; intuition congruence. }
  apply N.eqb_neq in E4. simpl.
  unfold quotes_and_text. rewrite Hs, Hdb.
  destruct (ch =? SQUOTE) eqn:E5; simpl.
  { apply N.eqb_eq in E5. by apply Step_single_open. }
  destruct (ch =? DQUOTE) eqn:E6; simpl.
  { apply N.eqb_eq in E6. by apply Step_double_open. }
  destruct (ch =? SEMI) eqn:E7; simpl.
  { apply N.eqb_eq in E7. by apply Step_boundary. }
  apply N.eqb_neq in E5, E6, E7.
  apply Step_text; try done; intuition congruence.
Qed.

Lemma startswith_true (p t : str) :
  startswith p t = true <-> exists r, t = p ++ r.
Proof.
  revert t. induction p as [|a p IH]; intros t.
  - split; [by exists t|done].
  - destruct t as [|c t]; [split; [done|by intros [? ?]]|].
    change (startswith (a :: p) (c :: t)) with ((a =? c) && startswith p t).
    rewrite andb_true_iff, N.eqb_eq, IH. split.
    + intros [-> [r ->]]. by exists r.
    + intros [r [= -> ->]]. eauto.
Qed.

Lemma drop_app_length' (p r : str) : drop (length p) (p ++ r) = r.
Proof. by rewrite drop_app_length. Qed.

Lemma mode_count_normal (st : lexer) : normal st = true <-> mode_count st = 0%nat.
Proof.
  unfold normal, mode_count.
  destruct (in_single st), (in_double st), (in_line_comment st), (in_block_comment st),
    (in_dollar st); simpl; split; (done || lia).
Qed.

Lemma normal_flags (st : lexer) :
  normal st = true ->
  in_single st = false /\ in_double st = false /\ in_line_comment st = false /\
  in_block_comment st = false /\ in_dollar st = None.
Proof.
  unfold normal.
  destruct (in_single st), (in_double st), (in_line_comment st), (in_block_comment st),
    (in_dollar st); simpl; try done. 
Qed.

Lemma wf_pad (st : lexer) : wf st -> wf (pad_before_comment st).
Proof.
  intros [Htag Hbuf Hmode]. unfold pad_before_comment.
  destruct (last (buf st)) as [x|]; [|done].
  destruct (str_isspace x); [done|].
  split; simpl; [done| |done].
  apply Forall_app. split; [done|]. constructor; [|done]. left. by eexists.
Qed.

Lemma pad_flags (st : lexer) :
  statements (pad_before_comment st) = statements st /\
  in_single (pad_before_comment st) = in_single st /\
  in_double (pad_before_comment st) = in_double st /\
  in_line_comment (pad_before_comment st) = in_line_comment st /\
  in_block_comment (pad_before_comment st) = in_block_comment st /\
  in_dollar (pad_before_comment st) = in_dollar st.
Proof.
  unfold pad_before_comment. destruct (last (buf st)) as [x|]; [|done].
  by destruct (str_isspace x).
Qed.

Lemma Step_wf (st : lexer) (ch : char) (tl : str) (st' : lexer) (rest' : str) :
  wf st -> Step st ch tl st' rest' -> wf st'.
Proof.
  intros Hwf HS.
  assert (forall c, chunk_ok [c]) as Hc by (intros c; left; by eexists).
  pose proof (wf_pad _ Hwf) as [Htag' Hbuf' _].
  pose proof (pad_flags st) as (_ & Hp1 & Hp2 & Hp3 & Hp4 & Hp5).
  destruct Hwf as [Htag Hbuf Hmode].
  destruct HS;
    repeat match goal with
           | H : normal _ = true |- _ => apply normal_flags in H as (? & ? & ? & ? & ?)
           end;
    (split;
     [ simpl; try done; try (intros ? [= <-]; eapply dollar_match_spec; eassumption)
     | simpl; repeat (apply Forall_app; split); try done;
       repeat first [apply List.Forall_cons | apply List.Forall_nil]; try apply Hc;
       try (right; eapply dollar_match_spec; eassumption); try (right; by apply Htag)
     | unfold mode_count in *; simpl; rewrite ?Hp1, ?Hp2, ?Hp3, ?Hp4, ?Hp5;
       repeat match goal with H : _ = _ |- _ => rewrite H in * end; simpl in *;
       try lia;
       try (destruct (in_single st), (in_double st), (in_line_comment st),
              (in_block_comment st), (in_dollar st); simpl in *; try done; lia) ]).
Qed.

Lemma Step_suffix (st : lexer) (ch : char) (tl : str) (st' : lexer) (rest' : str) :
  wf st -> Step st ch tl st' rest' -> exists c2, tl = c2 ++ rest'.
Proof.
  intros [Htag _ _] HS.
  assert (forall tag, is_tag tag -> startswith tag (ch :: tl) = true ->
            exists c2, tl = c2 ++ drop (length tag) (ch :: tl)) as Hd.
  { intros tag (body & -> & _) [r Hr]%startswith_true.
    rewrite Hr, drop_app_length'. injection Hr as -> ->.
    by eexists. }
  destruct HS; subst; try (by exists []); try (by eexists [_]).
  - apply Hd; auto.
  - apply Hd; [eapply dollar_match_spec; eassumption|].
    apply startswith_true. eapply dollar_match_spec. eassumption.
Qed.

Lemma step_length (st : lexer) (ch : char) (tl : str) :
  wf st -> (length (step st ch tl).2 <= length tl)%nat.
Proof.
  intros Hwf. destruct (Step_suffix _ _ _ _ _ Hwf (step_Step st ch tl)) as [c2 H].
  rewrite H at 2. rewrite length_app. lia.
Qed.

Lemma step_wf (st : lexer) (ch : char) (tl : str) : wf st -> wf (step st ch tl).1.
Proof. intros Hwf. eapply Step_wf, step_Step. done. Qed.

(** More fuel than the text is long changes nothing: the loop has ended. *)
Lemma scan_fuel (fuel : nat) (st : lexer) (rest : str) :
  wf st -> (length rest <= fuel)%nat -> scan fuel st rest = scan (length rest) st rest.
Proof.
  revert st rest. induction (lt_wf fuel) as [fuel _ IH]. intros st rest Hwf Hlen.
  destruct rest as [|ch tl]; [by destruct fuel|].
  destruct fuel as [|fuel]; [simpl in Hlen; lia|]. simpl.
  pose proof (step_length st ch tl Hwf) as Hl.
  pose proof (step_wf st ch tl Hwf) as Hw.
  destruct (step st ch tl) as [st' rest']. simpl in *.
  rewrite (IH fuel) by (done || lia).
  symmetry. apply (IH (length tl)); (done || lia).
Qed.

Lemma run_nil (st : lexer) : run st [] = st.
Proof. done. Qed.

(** The loop unfolds one iteration at a time until the text is used up. *)
Lemma run_cons (st : lexer) (ch : char) (tl : str) :
  wf st -> run st (ch :: tl) = run (step st ch tl).1 (step st ch tl).2.
Proof.
  intros Hwf. unfold run. simpl.
  pose proof (step_length st ch tl Hwf) as Hl.
  pose proof (step_wf st ch tl Hwf) as Hw.
  destruct (step st ch tl) as [st' rest']. simpl in *.
  by apply scan_fuel.
Qed.

Lemma is_char_cons (c : char) (l : str) : is_char c (head (c :: l)) = true.
Proof. simpl. apply N.eqb_refl. Qed.

Lemma is_char_ne (c : char) (l : str) : head l <> Some c -> is_char c (head l) = false.
Proof.
  destruct l as [|a l]; [done|]. simpl. intros H. apply N.eqb_neq. congruence.
Qed.

Lemma pair_test_false (c d ch : char) (tl : str) :
  ~ (ch = c /\ head tl = Some d) -> (ch =? c) && is_char d (head tl) = false.
Proof.
  intros H. destruct (ch =? c) eqn:E; [|done]. apply N.eqb_eq in E. simpl.
  apply is_char_ne. tauto.
Qed.

(** The rules are exactly the paths of the loop body. *)
Lemma Step_step (st : lexer) (ch : char) (tl : str) (st' : lexer) (rest' : str) :
  Step st ch tl st' rest' -> step st ch tl = (st', rest').
Proof.
  intros HS. unfold step, openers, quotes_and_text.
  destruct HS; subst;
    repeat match goal with
           | H : normal _ = true |- _ => apply normal_flags in H as (? & ? & ? & ? & ?)
           end;
    repeat match goal with
           | H : in_line_comment _ = _ |- _ => rewrite H; clear H
           | H : in_block_comment _ = _ |- _ => rewrite H; clear H
           | H : in_dollar _ = _ |- _ => rewrite H; clear H
           | H : in_single _ = _ |- _ => rewrite H; clear H
           | H : in_double _ = _ |- _ => rewrite H; clear H
           | H : startswith _ _ = _ |- _ => rewrite H; clear H
           | H : dollar_match _ = _ |- _ => rewrite H; clear H
           end;
    rewrite ?is_char_cons;
    repeat match goal with
           | H : head _ <> Some _ |- _ => rewrite (is_char_ne _ _ H); clear H
           | H : ?a <> ?b |- _ => apply N.eqb_neq in H; rewrite ?H
           end;
    simpl; try done.
  - by rewrite pair_test_false.
  - rewrite !pair_test_false by done.
    destruct (ch =? DOLLAR) eqn:E; [|done]. apply N.eqb_eq in E. by rewrite H2.
Qed.

(** Every iteration either is a statement boundary, taken in Normal mode at
    a [;], or leaves the statements alone and only adds to the buffer. *)
Lemma Step_dichotomy (st : lexer) (ch : char) (tl : str) (st' : lexer) (rest' : str) :
  Step st ch tl st' rest' ->
  (normal st = true /\ ch = SEMI /\ st' = flush st /\ rest' = tl) \/
  (~ (normal st = true /\ ch = SEMI) /\ statements st' = statements st /\
   exists x, buf st' = buf st ++ x).
Proof.
  pose proof (pad_flags st) as (Hp & _).
  assert (exists x, buf (pad_before_comment st) = buf st ++ x) as Hb.
  { unfold pad_before_comment. destruct (last (buf st)) as [y|]; [|by exists []; rewrite app_nil_r].
    destruct (str_isspace y); [by exists []; rewrite app_nil_r|]. by eexists. }
  intros HS. destruct HS; subst; try (left; done); right;
    (split; [intros [Hn ?]; try apply normal_flags in Hn as (? & ? & ? & ? & ?); congruence|]);
    simpl; (split; [done|]); try done;
    try (by exists []; rewrite app_nil_r); try (by eexists); 
    try (rewrite <- app_assoc; by eexists).
Qed.

Lemma run_ind (P : lexer -> Prop) :
  (forall st ch tl, wf st -> P st -> P (step st ch tl).1) ->
  forall rest st, wf st -> P st -> P (run st rest).
Proof.
  intros Hstep rest. remember (length rest) as n eqn:Hn. revert rest Hn.
  induction (lt_wf n) as [n _ IH]. intros rest Hn st Hwf HP.
  destruct rest as [|ch tl]; [done|].
  rewrite run_cons by done.
  eapply (IH (length (step st ch tl).2)); [ | reflexivity | by apply step_wf | by apply Hstep].
  subst n. simpl. pose proof (step_length st ch tl Hwf). lia.
Qed.

Lemma run_wf (st : lexer) (rest : str) : wf st -> wf (run st rest).
Proof. intros H. apply run_ind; auto using step_wf. Qed.

Lemma step_trimmed (st : lexer) (ch : char) (tl : str) :
  Forall trimmed (statements st) -> Forall trimmed (statements (step st ch tl).1).
Proof.
  intros H. destruct (Step_dichotomy _ _ _ _ _ (step_Step st ch tl)) as
    [(_ & _ & -> & _)|(_ & -> & _)]; [|done].
  simpl. by apply emit_trimmed.
Qed.

Lemma split_trimmed (text : str) : Forall trimmed (_split_sql_statements text).
Proof.
  unfold _split_sql_statements. apply emit_trimmed.
  apply (run_ind (fun st => Forall trimmed (statements st))); 
    auto using step_trimmed, wf_init.
Qed.

(** C7: every statement the splitter produces is non-empty and equal to its
    own trim: it neither starts nor ends with whitespace.  A fragment that
    is blank after trimming is therefore never among the statements. *)
Theorem statements_nonempty_and_trimmed (text s : str) :
  In s (_split_sql_statements text) ->
  s <> [] /\ strip s = s /\
  (forall c, head s = Some c -> isspace c = false) /\
  (forall c, last s = Some c -> isspace c = false).
Proof.
  intros Hin. pose proof (split_trimmed text) as H.
  rewrite List.Forall_forall in H. destruct (H s Hin) as [Hne Hs].
  repeat split; [done|done| |]; intros c; rewrite <- Hs.
  - apply strip_head.
  - apply strip_last.
Qed.

Lemma statements_nonempty_and_trimmed_witness :
  let s := text_of "SELECT 1" in
  In s (_split_sql_statements (text_of "  SELECT 1 ;  ; ")) /\
  s <> [] /\ strip s = s.
Proof.
  split; [vm_compute; auto|].
  pose proof (statements_nonempty_and_trimmed (text_of "  SELECT 1 ;  ; ") (text_of "SELECT 1")) as H.
  destruct H as (H1 & H2 & _); [vm_compute; auto|]. done.
Defined.

Arguments run : simpl never.

Lemma trace_fuel (fuel : nat) (st : lexer) (rest : str) :
  wf st -> (length rest <= fuel)%nat -> trace fuel st rest = trace (length rest) st rest.
Proof.
  revert st rest. induction (lt_wf fuel) as [fuel _ IH]. intros st rest Hwf Hlen.
  destruct rest as [|ch tl]; [by destruct fuel|].
  destruct fuel as [|fuel]; [simpl in Hlen; lia|]. simpl.
  pose proof (step_length st ch tl Hwf) as Hl.
  pose proof (step_wf st ch tl Hwf) as Hw.
  destruct (step st ch tl) as [st' rest']. simpl in *. f_equal.
  rewrite (IH fuel) by (done || lia).
  symmetry. apply (IH (length tl)); (done || lia).
Qed.

Lemma configurations_cons (st : lexer) (ch : char) (tl : str) :
  wf st ->
  configurations st (ch :: tl) =
  (st, ch :: tl) :: configurations (step st ch tl).1 (step st ch tl).2.
Proof.
  intros Hwf. unfold configurations. simpl.
  pose proof (step_length st ch tl Hwf) as Hl.
  pose proof (step_wf st ch tl Hwf) as Hw.
  destruct (step st ch tl) as [st' rest']. simpl in *. f_equal.
  by apply trace_fuel.
Qed.

Lemma emit_length (stmts : list str) (b : list str) :
  (length (emit stmts b) <= S (length stmts))%nat.
Proof.
  unfold emit. destruct (strip (join b)); [lia|]. rewrite length_app. simpl. lia.
Qed.

Lemma statements_bound (rest : str) (st : lexer) :
  wf st ->
  (length (statements (run st rest)) <=
   length (statements st) + length (List.filter at_boundary (configurations st rest)))%nat.
Proof.
  remember (length rest) as n eqn:Hn. revert rest Hn st.
  induction (lt_wf n) as [n _ IH]. intros rest Hn st Hwf.
  destruct rest as [|ch tl]; [rewrite run_nil; simpl; lia|].
  rewrite run_cons, configurations_cons by done.
  pose proof (step_length st ch tl Hwf) as Hl.
  pose proof (step_wf st ch tl Hwf) as Hw.
  pose proof (Step_dichotomy _ _ _ _ _ (step_Step st ch tl)) as Hd.
  specialize (IH (length (step st ch tl).2)).
  specialize (IH ltac:(subst n; simpl; lia) _ eq_refl _ Hw).
  simpl. unfold at_boundary at 1. simpl.
  destruct Hd as [(Hn' & -> & Hst & _)|(Hnot & Hst & _)].
  - rewrite Hn'. simpl. rewrite Hst in IH at 2. simpl in IH.
    pose proof (emit_length (statements st) (buf st)). lia.
  - rewrite Hst in IH.
    destruct (normal st && (ch =? SEMI)); simpl; lia.
Qed.

Lemma append_all_append (x : str) (xs : list str) (st : lexer) :
  append_all xs (append x st) = append_all (x :: xs) st.
Proof. unfold append_all, append. simpl. by rewrite <- app_assoc. Qed.

Lemma append_all_nil (st : lexer) : append_all [] st = st.
Proof. destruct st. unfold append_all. simpl. by rewrite app_nil_r. Qed.

Lemma single_only (st : lexer) :
  wf st -> in_single st = true ->
  in_double st = false /\ in_line_comment st = false /\ in_block_comment st = false /\
  in_dollar st = None.
Proof.
  intros [_ _ H] Hs. unfold mode_count in H. rewrite Hs in H.
  destruct (in_double st), (in_line_comment st), (in_block_comment st), (in_dollar st);
    simpl in H; try lia; done.
Qed.

Lemma double_only (st : lexer) :
  wf st -> in_double st = true ->
  in_single st = false /\ in_line_comment st = false /\ in_block_comment st = false /\
  in_dollar st = None.
Proof.
  intros [_ _ H] Hs. unfold mode_count in H. rewrite Hs in H.
  destruct (in_single st), (in_line_comment st), (in_block_comment st), (in_dollar st);
    simpl in H; try lia; done.
Qed.

Lemma dollar_only (st : lexer) (tag : str) :
  wf st -> in_dollar st = Some tag ->
  in_single st = false /\ in_double st = false /\ in_line_comment st = false /\
  in_block_comment st = false /\ is_tag tag.
Proof.
  intros [Ht _ H] Hs. unfold mode_count in H. rewrite Hs in H.
  destruct (in_single st), (in_double st), (in_line_comment st), (in_block_comment st);
    simpl in H; try lia; auto 6.
Qed.

(** Inside a single-quoted literal every character but the quote is text. *)
Lemma run_single_body (body rest : str) (st : lexer) :
  wf st -> in_single st = true -> Forall (fun c => c <> SQUOTE) body ->
  run st (body ++ rest) = run (append_all (chars body) st) rest.
Proof.
  revert st. induction body as [|c body IH]; intros st Hwf Hs Hb.
  { by rewrite append_all_nil. }
  apply Forall_cons in Hb as [Hc Hb]. simpl.
  destruct (single_only st Hwf Hs) as (? & ? & ? & ?).
  assert (Step st c (body ++ rest) (append [c] st) (body ++ rest)) as HS
    by (by apply Step_single_body).
  rewrite run_cons, (Step_step _ _ _ _ _ HS) by done. simpl.
  rewrite IH; [by rewrite append_all_append|by eapply Step_wf|done|done].
Qed.

Lemma run_double_body (body rest : str) (st : lexer) :
  wf st -> in_double st = true -> Forall (fun c => c <> DQUOTE) body ->
  run st (body ++ rest) = run (append_all (chars body) st) rest.
Proof.
  revert st. induction body as [|c body IH]; intros st Hwf Hs Hb.
  { by rewrite append_all_nil. }
  apply Forall_cons in Hb as [Hc Hb]. simpl.
  destruct (double_only st Hwf Hs) as (? & ? & ? & ?).
  assert (Step st c (body ++ rest) (append [c] st) (body ++ rest)) as HS
    by (by apply Step_double_body).
  rewrite run_cons, (Step_step _ _ _ _ _ HS) by done. simpl.
  rewrite IH; [by rewrite append_all_append|by eapply Step_wf|done|done].
Qed.

Lemma startswith_head (tag : str) (c : char) (s : str) :
  is_tag tag -> c <> DOLLAR -> startswith tag (c :: s) = false.
Proof.
  intros (body & -> & _) Hc.
  change (startswith (DOLLAR :: body ++ [DOLLAR]) (c :: s))
    with ((DOLLAR =? c) && startswith (body ++ [DOLLAR]) s).
  apply andb_false_iff. left. apply N.eqb_neq. congruence.
Qed.

(** Inside a dollar-quoted region every character but [$] is text. *)
Lemma run_dollar_body (body rest : str) (st : lexer) (tag : str) :
  wf st -> in_dollar st = Some tag -> Forall (fun c => c <> DOLLAR) body ->
  run st (body ++ rest) = run (append_all (chars body) st) rest.
Proof.
  revert st. induction body as [|c body IH]; intros st Hwf Hs Hb.
  { by rewrite append_all_nil. }
  apply Forall_cons in Hb as [Hc Hb]. simpl.
  destruct (dollar_only st tag Hwf Hs) as (? & ? & ? & ? & Htag).
  assert (Step st c (body ++ rest) (append [c] st) (body ++ rest)) as HS.
  { eapply Step_dollar_body; try done. by apply startswith_head. }
  rewrite run_cons, (Step_step _ _ _ _ _ HS) by done. simpl.
  rewrite IH; [by rewrite append_all_append|by eapply Step_wf|done|done].
Qed.

Lemma join_chars (s : str) : join (chars s) = s.
Proof. unfold join, chars. induction s as [|c s IH]; simpl; by f_equal. Qed.

Lemma join_app (a b : list str) : join (a ++ b) = join a ++ join b.
Proof. apply concat_app. Qed.

Lemma join_cons (x : str) (l : list str) : join (x :: l) = x ++ join l.
Proof. done. Qed.

Lemma wf_append_chars (body : str) (st : lexer) :
  wf st -> wf (append_all (chars body) st).
Proof.
  intros [? Hbuf ?]. split; [done| |done]. simpl.
  apply Forall_app. split; [done|]. unfold chars. apply Forall_map.
  apply Forall_true. intros c. left. by eexists.
Qed.

(** Advance the loop by one iteration on a concrete character. *)
Ltac run_step Hwf :=
  rewrite run_cons by exact Hwf;
  match goal with
  | |- context [run (step ?st ?ch ?tl).1 _] => apply (step_wf st ch tl) in Hwf
  end;
  cbn in Hwf |- *.

Lemma split_single_quoted (body : str) :
  Forall (fun c => c <> SQUOTE) body ->
  _split_sql_statements (text_of "SELECT '" ++ body ++ text_of "';") =
  [text_of "SELECT '" ++ body ++ text_of "'"].
Proof.
  intros Hb. unfold _split_sql_statements.
  change (text_of "SELECT '") with [83; 69; 76; 69; 67; 84; 32; 39].
  change (text_of "';") with [39; 59]. change (text_of "'") with [39].
  pose proof wf_init as Hwf. simpl.
  do 8 run_step Hwf.
  rewrite run_single_body by done.
  apply (wf_append_chars body) in Hwf.
  do 2 run_step Hwf. rewrite run_nil.
  cbn. unfold emit. rewrite !join_cons, join_app, join_chars. cbn [app join concat].
  rewrite (strip_fixed _ 83 39); [done|done|done| |done].
  by rewrite !app_comm_cons, last_snoc.
Qed.

Lemma split_double_quoted (body : str) :
  Forall (fun c => c <> DQUOTE) body ->
  _split_sql_statements (text_of "SELECT " ++ [DQUOTE] ++ body ++ [DQUOTE; SEMI]) =
  [text_of "SELECT " ++ [DQUOTE] ++ body ++ [DQUOTE]].
Proof.
  intros Hb. unfold _split_sql_statements.
  change (text_of "SELECT ") with [83; 69; 76; 69; 67; 84; 32].
  pose proof wf_init as Hwf. simpl.
  do 8 run_step Hwf.
  rewrite run_double_body by done.
  apply (wf_append_chars body) in Hwf.
  do 2 run_step Hwf. rewrite run_nil.
  cbn. unfold emit. rewrite !join_cons, join_app, join_chars. cbn [app join concat].
  rewrite (strip_fixed _ 83 34); [done|done|done| |done].
  by rewrite !app_comm_cons, last_snoc.
Qed.

Lemma split_dollar_quoted (body : str) :
  Forall (fun c => c <> DOLLAR) body ->
  _split_sql_statements (text_of "SELECT $$" ++ body ++ text_of "$$;") =
  [text_of "SELECT $$" ++ body ++ text_of "$$"].
Proof.
  intros Hb. unfold _split_sql_statements.
  change (text_of "SELECT $$") with [83; 69; 76; 69; 67; 84; 32; 36; 36].
  change (text_of "$$;") with [36; 36; 59]. change (text_of "$$") with [36; 36].
  pose proof wf_init as Hwf. simpl.
  do 7 run_step Hwf.
  rewrite run_cons by exact Hwf.
  match goal with
  | |- context [run (step ?st ?ch ?tl).1 _] => apply (step_wf st ch tl) in Hwf
  end.
  cbn in Hwf |- *.
  match goal with
  | |- context [dollar_match ?x] =>
      assert (dollar_match x = Some [36; 36]) as Hdm by done
  end.
  rewrite Hdm in Hwf |- *. cbn in Hwf |- *. rewrite drop_0.
  rewrite (run_dollar_body _ _ _ [36; 36]) by done.
  apply (wf_append_chars body) in Hwf.
  rewrite run_cons by exact Hwf.
  match goal with
  | |- context [run (step ?st ?ch ?tl).1 _] => apply (step_wf st ch tl) in Hwf
  end.
  cbn in Hwf |- *.
  match goal with
  | |- context [startswith ?x ?y] => assert (startswith x y = true) as Hsw by done
  end.
  rewrite Hsw in Hwf |- *. cbn in Hwf |- *.
  run_step Hwf. rewrite run_nil.
  cbn. unfold emit. rewrite !join_cons, join_app, join_chars. cbn [app join concat].
  rewrite (strip_fixed _ 83 36); [done|done|done| |done].
  change [36; 36] with ([36] ++ [36]).
  by rewrite !app_comm_cons, !app_assoc, last_snoc.
Qed.

(** C1: statement boundaries arise only at semicolons met in Normal mode.
    One iteration of the scan either meets [;] in Normal mode and flushes
    the buffer into the statements, or leaves the statements as they are and
    only extends the buffer; hence a text gives at most one statement more
    than it has Normal-mode semicolons.  A semicolon inside a single-quoted
    literal, a double-quoted identifier or a dollar-quoted region stays in
    its statement, and [SELECT 'semi;colon';] and [SELECT $$a;b$$;] each
    split into their one statement, quotes and [$$] delimiters kept
    verbatim. *)
Theorem only_normal_semicolons_split :
  (forall st ch tl,
     let (st', rest') := step st ch tl in
     (normal st = true /\ ch = SEMI /\ st' = flush st /\ rest' = tl) \/
     (~ (normal st = true /\ ch = SEMI) /\ statements st' = statements st /\
      exists x, buf st' = buf st ++ x)) /\
  (forall text, (length (_split_sql_statements text) <= S (boundaries text))%nat) /\
  (forall body, Forall (fun c => c <> SQUOTE) body ->
     _split_sql_statements (text_of "SELECT '" ++ body ++ text_of "';") =
     [text_of "SELECT '" ++ body ++ text_of "'"]) /\
  (forall body, Forall (fun c => c <> DQUOTE) body ->
     _split_sql_statements (text_of "SELECT " ++ [DQUOTE] ++ body ++ [DQUOTE; SEMI]) =
     [text_of "SELECT " ++ [DQUOTE] ++ body ++ [DQUOTE]]) /\
  (forall body, Forall (fun c => c <> DOLLAR) body ->
     _split_sql_statements (text_of "SELECT $$" ++ body ++ text_of "$$;") =
     [text_of "SELECT $$" ++ body ++ text_of "$$"]) /\
  _split_sql_statements (text_of "SELECT 'semi;colon';") = [text_of "SELECT 'semi;colon'"] /\
  _split_sql_statements (text_of "SELECT $$a;b$$;") = [text_of "SELECT $$a;b$$"].
Proof.
  split; [|split; [|split; [|split; [|split; [|split]]]]].
  - intros st ch tl. pose proof (Step_dichotomy _ _ _ _ _ (step_Step st ch tl)) as H.
    by destruct (step st ch tl).
  - intros text. unfold _split_sql_statements, boundaries.
    pose proof (statements_bound text init wf_init) as H.
    pose proof (emit_length (statements (run init text)) (buf (run init text))).
    simpl in *. lia.
  - apply split_single_quoted.
  - apply split_double_quoted.
  - apply split_dollar_quoted.
  - by vm_compute.
  - by vm_compute.
Qed.

Lemma only_normal_semicolons_split_witness :
  Forall (fun c => c <> SQUOTE) (text_of "semi;colon") /\
  _split_sql_statements (text_of "SELECT '" ++ text_of "semi;colon" ++ text_of "';") =
  [text_of "SELECT '" ++ text_of "semi;colon" ++ text_of "'"].
Proof.
  assert (Forall (fun c => c <> SQUOTE) (text_of "semi;colon")) as H.
  { apply Forall_forall. intros c Hc. vm_compute in Hc.
    repeat (apply elem_of_cons in Hc as [->|Hc]; [done|]). by apply elem_of_nil in Hc. }
  split; [exact H|].
  destruct only_normal_semicolons_split as (_ & _ & Hs & _). by apply Hs.
Defined.

Lemma Step_in_comment (st : lexer) (ch : char) (tl : str) (st' : lexer) (rest' : str) :
  in_line_comment st = true \/ in_block_comment st = true ->
  Step st ch tl st' rest' ->
  buf st' = buf st /\ statements st' = statements st.
Proof.
  intros Hc HS.
  destruct HS; try done;
    repeat match goal with
           | H : normal _ = true |- _ => apply normal_flags in H as (? & ? & ? & ? & ?)
           end;
    destruct Hc; congruence.
Qed.

Lemma run_line_comment (body rest : str) (st : lexer) :
  wf st -> in_line_comment st = true -> Forall (fun c => c <> NL) body ->
  run st (body ++ NL :: rest) = run (set_line_comment false st) rest.
Proof.
  intros Hwf Hl Hb. induction body as [|c body IH]; simpl.
  - rewrite run_cons by done.
    by rewrite (Step_step _ _ _ _ _ (Step_line_end st NL rest Hl eq_refl)).
  - apply Forall_cons in Hb as [Hc Hb].
    rewrite run_cons by done.
    rewrite (Step_step _ _ _ _ _ (Step_line_skip st c _ Hl Hc)). simpl. by apply IH.
Qed.

Lemma run_line_comment_eof (body : str) (st : lexer) :
  wf st -> in_line_comment st = true -> Forall (fun c => c <> NL) body ->
  run st body = st.
Proof.
  intros Hwf Hl Hb. induction body as [|c body IH]; [done|].
  apply Forall_cons in Hb as [Hc Hb].
  rewrite run_cons by done.
  rewrite (Step_step _ _ _ _ _ (Step_line_skip st c _ Hl Hc)). simpl. by apply IH.
Qed.

Lemma block_only (st : lexer) :
  wf st -> in_block_comment st = true -> in_line_comment st = false.
Proof.
  intros [_ _ H] Hs. unfold mode_count in H. rewrite Hs in H.
  destruct (in_single st), (in_double st), (in_line_comment st), (in_dollar st);
    simpl in H; try lia; done.
Qed.

Lemma run_block_comment (body rest : str) (st : lexer) :
  wf st -> in_block_comment st = true -> has_block_end body = false ->
  run st (body ++ STAR :: SLASH :: rest) = run (set_block_comment false st) rest.
Proof.
  intros Hwf Hl Hb. pose proof (block_only st Hwf Hl) as Hnl.
  induction body as [|c body IH]; simpl.
  - rewrite run_cons by done.
    by rewrite (Step_step _ _ _ _ _ (Step_block_end st STAR _ rest Hnl Hl eq_refl eq_refl)).
  - simpl in Hb. apply orb_false_iff in Hb as [Hc Hb].
    rewrite run_cons by done.
    assert (~ (c = STAR /\ head (body ++ STAR :: SLASH :: rest) = Some SLASH)) as Hno.
    { intros [-> Hh]. simpl in Hc. destruct body as [|d body]; [done|].
      simpl in *. injection Hh as ->. done. }
    rewrite (Step_step _ _ _ _ _ (Step_block_skip st c _ Hnl Hl Hno)). simpl. by apply IH.
Qed.

Lemma set_line_comment_pad (st : lexer) :
  normal st = true ->
  set_line_comment false (set_line_comment true (pad_before_comment st)) =
  pad_before_comment st.
Proof.
  intros (_ & _ & Hl & _)%normal_flags.
  pose proof (pad_flags st) as (_ & _ & _ & Hp & _). rewrite Hl in Hp.
  destruct (pad_before_comment st). simpl in *. by subst.
Qed.

Lemma set_block_comment_pad (st : lexer) :
  normal st = true ->
  set_block_comment false (set_block_comment true (pad_before_comment st)) =
  pad_before_comment st.
Proof.
  intros (_ & _ & _ & Hl & _)%normal_flags.
  pose proof (pad_flags st) as (_ & _ & _ & _ & Hp & _). rewrite Hl in Hp.
  destruct (pad_before_comment st). simpl in *. by subst.
Qed.

(** A whole line comment is skipped: only the padding reaches the buffer. *)
Lemma run_skip_line_comment (body rest : str) (st : lexer) :
  wf st -> normal st = true -> Forall (fun c => c <> NL) body ->
  run st ([DASH; DASH] ++ body ++ NL :: rest) = run (pad_before_comment st) rest.
Proof.
  intros Hwf Hn Hb. simpl.
  pose proof (Step_line_open st DASH _ (body ++ NL :: rest) Hn eq_refl eq_refl) as HS.
  rewrite run_cons, (Step_step _ _ _ _ _ HS) by done. simpl.
  rewrite run_line_comment; [|by eapply Step_wf|done|done].
  by rewrite set_line_comment_pad.
Qed.

Lemma run_skip_line_comment_eof (body : str) (st : lexer) :
  wf st -> normal st = true -> Forall (fun c => c <> NL) body ->
  run st ([DASH; DASH] ++ body) = set_line_comment true (pad_before_comment st).
Proof.
  intros Hwf Hn Hb. simpl.
  pose proof (Step_line_open st DASH _ body Hn eq_refl eq_refl) as HS.
  rewrite run_cons, (Step_step _ _ _ _ _ HS) by done. simpl.
  rewrite run_line_comment_eof; [done|by eapply Step_wf|done|done].
Qed.

(** A whole block comment is skipped likewise. *)
Lemma run_skip_block_comment (body rest : str) (st : lexer) :
  wf st -> normal st = true -> has_block_end body = false ->
  run st ([SLASH; STAR] ++ body ++ STAR :: SLASH :: rest) = run (pad_before_comment st) rest.
Proof.
  intros Hwf Hn Hb. simpl.
  pose proof (Step_block_open st SLASH _ (body ++ STAR :: SLASH :: rest) Hn eq_refl eq_refl)
    as HS.
  rewrite run_cons, (Step_step _ _ _ _ _ HS) by done. simpl.
  rewrite run_block_comment; [|by eapply Step_wf|done|done].
  by rewrite set_block_comment_pad.
Qed.

Lemma chunk_last (x : str) :
  chunk_ok x -> exists c, last x = Some c /\ str_isspace x = isspace c.
Proof.
  intros [[c ->]|(body & -> & _)].
  - exists c. simpl. by rewrite andb_true_r.
  - exists DOLLAR. split; [|reflexivity].
    change (DOLLAR :: body ++ [DOLLAR]) with ((DOLLAR :: body) ++ [DOLLAR]).
    apply last_snoc.
Qed.

Lemma last_join (b : list str) (x : str) (c : char) :
  last x = Some c -> last (join (b ++ [x])) = Some c.
Proof.
  intros Hx. rewrite join_app. simpl. rewrite app_nil_r.
  destruct (last_Some x c) as [[l' ->] _]; [done|].
  by rewrite app_assoc, last_snoc.
Qed.

Lemma Forall_chunk_join_nil (b : list str) :
  Forall chunk_ok b -> last b = None -> join b = [].
Proof. intros _ H. apply last_None in H. by subst. Qed.

(** The padding in terms of the buffered characters: one space, and only
    after a buffered character that is not whitespace. *)
Lemma pad_buffered (st : lexer) :
  wf st ->
  join (buf (pad_before_comment st)) =
  join (buf st) ++ comment_padding (join (buf st)).
Proof.
  intros [_ Hbuf _]. unfold pad_before_comment, comment_padding.
  destruct (last (buf st)) as [x|] eqn:Hlast.
  - destruct (last_Some (buf st) x) as [[b' Hb'] _]; [done|].
    rewrite Hb' in Hbuf. apply Forall_app in Hbuf as [_ Hx].
    apply Forall_cons in Hx as [Hx _].
    destruct (chunk_last x Hx) as (c & Hc & Hsp).
    assert (last (join (buf st)) = Some c) as -> by (rewrite Hb'; by apply last_join).
    rewrite Hsp. destruct (isspace c); [by rewrite app_nil_r|].
    simpl. by rewrite join_app.
  - apply last_None in Hlast. rewrite Hlast. done.
Qed.

Lemma run_block_comment_eof (body : str) (st : lexer) :
  wf st -> in_block_comment st = true -> has_block_end body = false ->
  run st body = st.
Proof.
  intros Hwf Hl Hb. pose proof (block_only st Hwf Hl) as Hnl.
  induction body as [|c body IH]; [done|].
  simpl in Hb. apply orb_false_iff in Hb as [Hc Hb].
  rewrite run_cons by done.
  assert (~ (c = STAR /\ head body = Some SLASH)) as Hno.
  { intros [-> Hh]. simpl in Hc. destruct body as [|d body]; [done|].
    simpl in *. injection Hh as ->. done. }
  rewrite (Step_step _ _ _ _ _ (Step_block_skip st c _ Hnl Hl Hno)). simpl. by apply IH.
Qed.

Lemma normal_init : normal init = true.
Proof. done. Qed.

(** C9: comments leave nothing in the statements.  Inside a line or block
    comment an iteration changes neither the buffer nor the statements; on
    entering a comment the buffer gains one space when it is non-empty and
    does not end in whitespace, and nothing otherwise; the scan of a whole
    comment, opener, body and the closing newline or [*/], continues from
    the padded state as if the comment were not there, and an unclosed
    comment runs to the end of the text.  So [SELECT 1; -- a;b], a newline
    and [SELECT 2;] split into [SELECT 1] and [SELECT 2]. *)
Theorem comments_are_dropped :
  (forall st ch tl,
     in_line_comment st = true \/ in_block_comment st = true ->
     buf (step st ch tl).1 = buf st /\ statements (step st ch tl).1 = statements st) /\
  (forall st, wf st ->
     join (buf (pad_before_comment st)) = join (buf st) ++ comment_padding (join (buf st)) /\
     statements (pad_before_comment st) = statements st) /\
  (forall st body rest,
     wf st -> normal st = true -> Forall (fun c => c <> NL) body ->
     run st ([DASH; DASH] ++ body ++ NL :: rest) = run (pad_before_comment st) rest) /\
  (forall st body,
     wf st -> normal st = true -> Forall (fun c => c <> NL) body ->
     run st ([DASH; DASH] ++ body) = set_line_comment true (pad_before_comment st)) /\
  (forall st body rest,
     wf st -> normal st = true -> has_block_end body = false ->
     run st ([SLASH; STAR] ++ body ++ STAR :: SLASH :: rest) =
     run (pad_before_comment st) rest) /\
  (forall st body,
     wf st -> normal st = true -> has_block_end body = false ->
     run st ([SLASH; STAR] ++ body) = set_block_comment true (pad_before_comment st)) /\
  (forall body rest,
     Forall (fun c => c <> NL) body ->
     _split_sql_statements ([DASH; DASH] ++ body ++ NL :: rest) = _split_sql_statements rest) /\
  (forall body rest,
     has_block_end body = false ->
     _split_sql_statements ([SLASH; STAR] ++ body ++ STAR :: SLASH :: rest) =
     _split_sql_statements rest) /\
  _split_sql_statements (text_of "SELECT 1; -- a;b" ++ NL :: text_of "SELECT 2;") =
  [text_of "SELECT 1"; text_of "SELECT 2"].
Proof.
  split; [|split; [|split; [|split; [|split; [|split; [|split; [|split]]]]]]].
  - intros st ch tl Hc. eapply Step_in_comment; [done|apply step_Step].
  - intros st Hwf. split; [by apply pad_buffered|apply pad_flags].
  - intros. by apply run_skip_line_comment.
  - intros. by apply run_skip_line_comment_eof.
  - intros. by apply run_skip_block_comment.
  - intros st body Hwf Hn Hb. simpl.
    pose proof (Step_block_open st SLASH _ body Hn eq_refl eq_refl) as HS.
    rewrite run_cons, (Step_step _ _ _ _ _ HS) by done. simpl.
    rewrite run_block_comment_eof; [done|by eapply Step_wf|done|done].
  - intros body rest Hb. unfold _split_sql_statements.
    by rewrite run_skip_line_comment by auto using wf_init.
  - intros body rest Hb. unfold _split_sql_statements.
    by rewrite run_skip_block_comment by auto using wf_init.
  - by vm_compute.
Qed.

Lemma comments_are_dropped_witness :
  Forall (fun c => c <> NL) (text_of " a;b") /\
  _split_sql_statements ([DASH; DASH] ++ text_of " a;b" ++ NL :: text_of "SELECT 2;") =
  _split_sql_statements (text_of "SELECT 2;").
Proof.
  assert (Forall (fun c => c <> NL) (text_of " a;b")) as H.
  { apply Forall_forall. intros c Hc. vm_compute in Hc.
    repeat (apply elem_of_cons in Hc as [->|Hc]; [done|]). by apply elem_of_nil in Hc. }
  split; [exact H|].
  destruct comments_are_dropped as (_ & _ & _ & _ & _ & _ & Hs & _). by apply Hs.
Defined.

Lemma stop_spec (c : char) :
  stop c = true ->
  c <> DASH /\ c <> STAR /\ c <> SLASH /\ c <> SQUOTE /\ c <> DQUOTE /\ c <> DOLLAR /\
  is_tag_char c = false.
Proof.
  unfold stop. rewrite negb_true_iff, !orb_false_iff, !N.eqb_neq. tauto.
Qed.

Lemma stop_semi : stop SEMI = true.
Proof. done. Qed.

Lemma isspace_stop (c : char) : isspace c = true -> stop c = true.
Proof.
  unfold isspace, stop, is_tag_char. 
  rewrite !orb_true_iff, !andb_true_iff, !N.leb_le, !N.eqb_eq. intros H.
  rewrite negb_true_iff, !orb_false_iff, !andb_false_iff, !N.leb_gt, !N.eqb_neq. lia.
Qed.

Lemma head_app_stop (tl : str) (c d : char) (Y : str) :
  c <> d -> head tl <> Some d -> head (tl ++ c :: Y) <> Some d.
Proof. destruct tl; simpl; congruence. Qed.

Lemma span_tag_app (run rest : str) :
  forallb is_tag_char run = true ->
  (forall c, head rest = Some c -> is_tag_char c = false) ->
  span_tag (run ++ rest) = (run, rest).
Proof.
  intros Hrun Hrest. induction run as [|a run IH]; simpl.
  - destruct rest as [|c rest]; [done|]. simpl. by rewrite (Hrest c).
  - simpl in Hrun. apply andb_true_iff in Hrun as [Ha Hrun].
    by rewrite Ha, IH.
Qed.

Lemma dollar_match_tag (tag X : str) : is_tag tag -> dollar_match (tag ++ X) = Some tag.
Proof.
  intros (body & -> & Hbody). unfold dollar_match. simpl.
  rewrite <- app_assoc. simpl.
  rewrite span_tag_app; [done|done|]. by intros c [= <-].
Qed.

Lemma dollar_match_stop (tl : str) (c : char) (Y : str) :
  stop c = true ->
  dollar_match (DOLLAR :: tl) = None -> dollar_match (DOLLAR :: tl ++ c :: Y) = None.
Proof.
  intros (_ & _ & _ & _ & _ & Hd & Ht)%stop_spec. unfold dollar_match.
  destruct (span_tag tl) as [run rest] eqn:E.
  destruct (span_tag_spec _ _ _ E) as (-> & Hrun & Hrest).
  rewrite <- app_assoc. intros H.
  rewrite span_tag_app; [|done|].
  - destruct rest as [|d rest]; simpl.
    + destruct c as [|p]; [done|]. repeat (destruct p as [p|p|]; try done).
    + destruct d as [|p]; [done|]. repeat (destruct p as [p|p|]; try done).
  - intros d. destruct rest as [|e rest]; simpl; [by intros [= <-]|].
    intros [= <-]. by apply Hrest.
Qed.

Lemma startswith_app (p t X : str) :
  startswith p t = true -> startswith p (t ++ X) = true.
Proof.
  rewrite !startswith_true. intros [r ->]. exists (r ++ X). by rewrite app_assoc.
Qed.

Lemma startswith_stop (p t : str) (c : char) (Y : str) :
  Forall (fun a => a <> c) p ->
  startswith p (t ++ c :: Y) = true -> startswith p t = true.
Proof.
  revert t. induction p as [|a p IH]; intros t Hp; [done|].
  apply Forall_cons in Hp as [Ha Hp].
  destruct t as [|b t]; simpl.
  - change (startswith (a :: p) (c :: Y)) with ((a =? c) && startswith p Y).
    intros [->%N.eqb_eq _]%andb_true_iff. done.
  - change (startswith (a :: p) (b :: t ++ c :: Y))
      with ((a =? b) && startswith p (t ++ c :: Y)).
    change (startswith (a :: p) (b :: t)) with ((a =? b) && startswith p t).
    rewrite !andb_true_iff. intros [? ?]. split; [done|]. by apply IH.
Qed.

Lemma tag_chars (tag : str) (c : char) :
  is_tag tag -> stop c = true -> Forall (fun a => a <> c) tag.
Proof.
  intros (body & -> & Hbody) (_ & _ & _ & _ & _ & Hd & Ht)%stop_spec.
  apply Forall_cons. split; [congruence|]. apply Forall_app. split.
  - apply Forall_forall. intros a Ha.
    rewrite forallb_forall in Hbody. apply list_elem_of_In in Ha.
    specialize (Hbody a Ha). congruence.
  - apply Forall_cons. split; [congruence|done].
Qed.

Lemma drop_app_le' (n : nat) (l X : str) :
  (n <= length l)%nat -> drop n (l ++ X) = drop n l ++ X.
Proof. intros H. by rewrite drop_app_le. Qed.

Lemma startswith_length (p t : str) :
  startswith p t = true -> (length p <= length t)%nat.
Proof. intros [r ->]%startswith_true. rewrite length_app. lia. Qed.

(** An iteration does not see a stop character behind the text it reads. *)
Lemma Step_stop (st : lexer) (ch : char) (tl : str) (st' : lexer) (rest' : str)
    (c : char) (Y : str) :
  wf st -> stop c = true -> Step st ch tl st' rest' ->
  Step st ch (tl ++ c :: Y) st' (rest' ++ c :: Y).
Proof.
  intros Hwf Hc HS. pose proof (stop_spec c Hc) as (? & ? & ? & ? & ? & ? & ?).
  assert (forall a d, ~ (ch = a /\ head tl = Some d) -> c <> d ->
            ~ (ch = a /\ head (tl ++ c :: Y) = Some d)) as Hpair.
  { intros a d Hno Hcd [-> Hh]. apply Hno. split; [done|].
    destruct tl; simpl in *; congruence. }
  destruct HS; subst.
  - by apply Step_line_end.
  - by apply Step_line_skip.
  - by eapply Step_block_end.
  - apply Step_block_skip; auto.
  - rewrite <- (drop_app_le' (length tag) (ch :: tl) (c :: Y))
      by by apply startswith_length.
    eapply Step_dollar_end; try done.
    by apply (startswith_app tag (ch :: tl) (c :: Y)).
  - eapply Step_dollar_body; try done.
    destruct (startswith tag (ch :: tl ++ c :: Y)) eqn:E; [|done].
    change (ch :: tl ++ c :: Y) with ((ch :: tl) ++ c :: Y) in E.
    apply startswith_stop in E; [congruence|].
    apply tag_chars; [|done]. by apply (wf_tag st Hwf).
  - by eapply Step_line_open.
  - by eapply Step_block_open.
  - match goal with
    | H : dollar_match _ = Some _ |- _ =>
        destruct (dollar_match_spec _ _ H) as [Htag [r Hr]]
    end.
    assert (length tag <= length (DOLLAR :: tl))%nat.
    { pose proof (f_equal length Hr) as Hlen. rewrite length_app in Hlen.
      simpl in *. lia. }
    rewrite <- (drop_app_le' (length tag) (DOLLAR :: tl) (c :: Y)) by done.
    eapply Step_dollar_open; try done.
    transitivity (dollar_match (tag ++ (r ++ c :: Y))); [|by apply dollar_match_tag].
    f_equal. rewrite app_assoc. by apply (f_equal (fun l => l ++ c :: Y)) in Hr.
  - by eapply Step_single_escape.
  - apply Step_single_end; try done. by apply head_app_stop.
  - by apply Step_single_body.
  - by eapply Step_double_escape.
  - apply Step_double_end; try done. by apply head_app_stop.
  - by apply Step_double_body.
  - by apply Step_single_open.
  - by apply Step_double_open.
  - by apply Step_boundary.
  - apply Step_text; auto.
    intros ->. apply dollar_match_stop; auto.
Qed.

(** Scanning up to a stop character does not depend on what follows it. *)
Lemma run_stop_split (X : str) (c : char) (Y : str) (st : lexer) :
  wf st -> stop c = true -> run st (X ++ c :: Y) = run (run st X) (c :: Y).
Proof.
  intros Hwf Hc. remember (length X) as n eqn:Hn. revert X Hn st Hwf.
  induction (lt_wf n) as [n _ IH]. intros X Hn st Hwf.
  destruct X as [|ch tl]; [done|].
  simpl. rewrite (run_cons st ch (tl ++ c :: Y)), (run_cons st ch tl) by done.
  pose proof (Step_stop _ _ _ _ _ c Y Hwf Hc (step_Step st ch tl)) as HS.
  rewrite (Step_step _ _ _ _ _ HS). simpl.
  apply (IH (length (step st ch tl).2)); [|reflexivity|by apply step_wf].
  subst n. simpl. pose proof (step_length st ch tl Hwf). lia.
Qed.

Lemma emit_prepend (L stmts : list str) (b : list str) :
  emit (L ++ stmts) b = L ++ emit stmts b.
Proof. unfold emit. destruct (strip (join b)); [done|]. by rewrite app_assoc. Qed.

Lemma prepend_normal (L : list str) (st : lexer) : normal (prepend L st) = normal st.
Proof. done. Qed.

Lemma prepend_pad (L : list str) (st : lexer) :
  pad_before_comment (prepend L st) = prepend L (pad_before_comment st).
Proof.
  unfold pad_before_comment. simpl. destruct (last (buf st)) as [x|]; [|done].
  by destruct (str_isspace x).
Qed.

Lemma wf_prepend (L : list str) (st : lexer) : wf st -> wf (prepend L st).
Proof. intros [? ? ?]. by split. Qed.

(** The scanner never reads the statements it has emitted. *)
Lemma Step_prepend (L : list str) (st : lexer) (ch : char) (tl : str) (st' : lexer)
    (rest' : str) :
  Step st ch tl st' rest' -> Step (prepend L st) ch tl (prepend L st') rest'.
Proof.
  intros HS. destruct HS; subst.
  - by apply Step_line_end.
  - by apply Step_line_skip.
  - by eapply Step_block_end.
  - by apply Step_block_skip.
  - by eapply (Step_dollar_end (prepend L st)).
  - by eapply (Step_dollar_body (prepend L st)).
  - replace (prepend L (set_line_comment true (pad_before_comment st)))
      with (set_line_comment true (pad_before_comment (prepend L st)))
      by (by rewrite prepend_pad).
    by eapply Step_line_open.
  - replace (prepend L (set_block_comment true (pad_before_comment st)))
      with (set_block_comment true (pad_before_comment (prepend L st)))
      by (by rewrite prepend_pad).
    by eapply Step_block_open.
  - by eapply (Step_dollar_open (prepend L st)).
  - by eapply (Step_single_escape (prepend L st)).
  - by eapply (Step_single_end (prepend L st)).
  - by eapply (Step_single_body (prepend L st)).
  - by eapply (Step_double_escape (prepend L st)).
  - by eapply (Step_double_end (prepend L st)).
  - by eapply (Step_double_body (prepend L st)).
  - by eapply (Step_single_open (prepend L st)).
  - by eapply (Step_double_open (prepend L st)).
  - replace (prepend L (flush st)) with (flush (prepend L st))
      by (unfold flush, prepend; simpl; by rewrite emit_prepend).
    by apply Step_boundary.
  - by apply (Step_text (prepend L st)).
Qed.

Lemma run_prepend (L : list str) (rest : str) (st : lexer) :
  wf st -> run (prepend L st) rest = prepend L (run st rest).
Proof.
  remember (length rest) as n eqn:Hn. revert rest Hn st.
  induction (lt_wf n) as [n _ IH]. intros rest Hn st Hwf.
  destruct rest as [|ch tl]; [done|].
  rewrite (run_cons (prepend L st)), (run_cons st) by auto using wf_prepend.
  rewrite (Step_step _ _ _ _ _ (Step_prepend L _ _ _ _ _ (step_Step st ch tl))). simpl.
  apply (IH (length (step st ch tl).2)); [|reflexivity|by apply step_wf].
  subst n. simpl. pose proof (step_length st ch tl Hwf). lia.
Qed.

Lemma flush_normal (st : lexer) :
  normal st = true -> flush st = prepend (emit (statements st) (buf st)) init.
Proof.
  intros (H1 & H2 & H3 & H4 & H5)%normal_flags. unfold flush, prepend. simpl.
  by rewrite H1, H2, H3, H4, H5, app_nil_r.
Qed.

(** Splitting distributes over a semicolon met in Normal mode. *)
Lemma split_at_boundary (pre rem : str) :
  normal (run init pre) = true ->
  _split_sql_statements (pre ++ SEMI :: rem) =
  _split_sql_statements pre ++ _split_sql_statements rem.
Proof.
  intros Hn. unfold _split_sql_statements.
  rewrite run_stop_split by auto using wf_init.
  rewrite run_cons by auto using run_wf, wf_init.
  rewrite (Step_step _ _ _ _ _ (Step_boundary (run init pre) SEMI rem Hn eq_refl)). simpl.
  rewrite flush_normal by done.
  rewrite run_prepend by apply wf_init. simpl.
  by rewrite emit_prepend.
Qed.

Lemma join_append (x : str) (st : lexer) : join (buf (append x st)) = join (buf st) ++ x.
Proof. simpl. rewrite join_app. simpl. by rewrite app_nil_r. Qed.

(** Outside comments and boundaries an iteration buffers exactly the text
    it consumes. *)
Lemma Step_verbatim (st : lexer) (ch : char) (tl : str) (st' : lexer) (rest' : str) :
  wf st -> Step st ch tl st' rest' ->
  in_comment st = false -> in_comment st' = false -> ~ (normal st = true /\ ch = SEMI) ->
  join (buf st') ++ rest' = join (buf st) ++ ch :: tl /\ statements st' = statements st.
Proof.
  intros Hwf HS Hc Hc' Hb. unfold in_comment in *.
  assert (forall tag, startswith tag (ch :: tl) = true ->
            (join (buf st) ++ tag) ++ drop (length tag) (ch :: tl) = join (buf st) ++ ch :: tl)
    as Htag.
  { intros tag [r Hr]%startswith_true. rewrite Hr, drop_app_length', <- app_assoc. done. }
  destruct HS; subst;
    repeat match goal with
           | H : in_line_comment _ = true |- _ => rewrite H in Hc; discriminate Hc
           | H : in_block_comment _ = true |- _ => rewrite H, orb_true_r in Hc; discriminate Hc
           end;
    try (simpl in Hc'; rewrite ?orb_true_r in Hc'; discriminate Hc');
    try (exfalso; by apply Hb);
    (split; [|done]);
    rewrite ?join_append; simpl; rewrite <- ?app_assoc; try done.
  - rewrite join_app. simpl. rewrite app_nil_r. by apply Htag.
  - rewrite join_app. simpl. rewrite app_nil_r. apply Htag. apply startswith_true.
    eapply dollar_match_spec. eassumption.
Qed.

Lemma run_verbatim (rest : str) (st : lexer) :
  wf st -> forallb quiet (configurations st rest) = true -> in_comment (run st rest) = false ->
  join (buf (run st rest)) = join (buf st) ++ rest /\ statements (run st rest) = statements st.
Proof.
  remember (length rest) as n eqn:Hn. revert rest Hn st.
  induction (lt_wf n) as [n _ IH]. intros rest Hn st Hwf Hq Hfin.
  destruct rest as [|ch tl]; [by rewrite run_nil, app_nil_r|].
  rewrite configurations_cons in Hq by done. simpl in Hq.
  apply andb_true_iff in Hq as [Hq0 Hq].
  unfold quiet, at_boundary in Hq0. simpl in Hq0.
  apply andb_true_iff in Hq0 as [Hc Hb]. apply negb_true_iff in Hc, Hb.
  rewrite run_cons in Hfin |- * by done.
  pose proof (step_Step st ch tl) as HS.
  pose proof (step_wf st ch tl Hwf) as Hwf'.
  pose proof (step_length st ch tl Hwf) as Hlen.
  destruct (step st ch tl) as [st' rest']. simpl in *.
  assert (in_comment st' = false) as Hc'.
  { destruct rest' as [|c' rest'']; [by rewrite run_nil in Hfin|].
    rewrite configurations_cons in Hq by done. simpl in Hq.
    apply andb_true_iff in Hq as [Hq1 _]. unfold quiet in Hq1.
    apply andb_true_iff in Hq1 as [Hq1 _]. by apply negb_true_iff in Hq1. }
  assert (~ (normal st = true /\ ch = SEMI)) as Hnb.
  { intros [Hn' ->]. by rewrite Hn' in Hb. }
  destruct (Step_verbatim _ _ _ _ _ Hwf HS Hc Hc' Hnb) as [Hj Hs].
  destruct (IH (length rest') ltac:(subst n; simpl; lia) rest' eq_refl st' Hwf' Hq Hfin)
    as [IH1 IH2].
  rewrite IH1, IH2, Hj. done.
Qed.

Lemma no_boundary_statements (rem : str) :
  boundaries rem = 0%nat -> statements (run init rem) = [].
Proof.
  intros H. pose proof (statements_bound rem init wf_init) as Hb.
  unfold boundaries in H. rewrite H in Hb. simpl in Hb.
  destruct (statements (run init rem)); [done|simpl in Hb; lia].
Qed.

Lemma filter_nil_forallb {A} (f : A -> bool) (l : list A) :
  length (List.filter f l) = 0%nat -> forallb (fun x => negb (f x)) l = true.
Proof.
  induction l as [|a l IH]; [done|]. simpl. destruct (f a); [done|]. simpl. exact IH.
Qed.

Lemma comment_free_verbatim (rem : str) :
  boundaries rem = 0%nat -> comment_free rem = true ->
  join (buf (run init rem)) = rem.
Proof.
  intros Hb Hc. unfold comment_free in Hc. apply andb_true_iff in Hc as [Hc Hfin].
  apply negb_true_iff in Hfin.
  apply (run_verbatim rem init wf_init); [|done].
  apply filter_nil_forallb in Hb. unfold quiet.
  rewrite forallb_forall in Hb, Hc |- *. intros x Hx.
  by rewrite (Hc x Hx), (Hb x Hx).
Qed.

Lemma lstrip_blank (s : str) : forallb isspace s = true -> lstrip s = [].
Proof.
  induction s as [|c s IH]; [done|]. simpl.
  intros [Hc Hs]%andb_true_iff. rewrite Hc. by apply IH.
Qed.

Lemma strip_blank (s : str) : forallb isspace s = true -> strip s = [].
Proof. intros H. unfold strip. by rewrite lstrip_blank. Qed.

Lemma forallb_snoc {A} (f : A -> bool) (l : list A) (a : A) :
  forallb f (l ++ [a]) = forallb f l && f a.
Proof. rewrite forallb_app. simpl. by rewrite andb_true_r. Qed.

Lemma comment_padding_blank (buffered : str) :
  forallb isspace (comment_padding buffered) = true.
Proof.
  unfold comment_padding. destruct (last buffered) as [c|]; [|done].
  by destruct (isspace c).
Qed.

Lemma pad_blank (st : lexer) :
  wf st -> forallb isspace (join (buf st)) = true ->
  forallb isspace (join (buf (pad_before_comment st))) = true.
Proof.
  intros Hwf H. rewrite pad_buffered by done.
  by rewrite forallb_app, H, comment_padding_blank.
Qed.

Lemma pad_normal (st : lexer) : normal (pad_before_comment st) = normal st.
Proof.
  destruct (pad_flags st) as (_ & H1 & H2 & H3 & H4 & H5).
  unfold normal. by rewrite H1, H2, H3, H4, H5.
Qed.

(** Scanning whitespace and comments from Normal mode emits nothing and
    buffers only whitespace. *)
Lemma run_only_comments (rem : str) :
  only_comments rem ->
  forall st, wf st -> normal st = true -> forallb isspace (join (buf st)) = true ->
  statements (run st rem) = statements st /\
  forallb isspace (join (buf (run st rem))) = true.
Proof.
  induction 1 as [|c rest Hc _ IH|body rest Hb _ IH|body Hb|body rest Hb _ IH|body Hb];
    intros st Hwf Hn Hblank.
  - by rewrite run_nil.
  - destruct (stop_spec c (isspace_stop c Hc)) as (Hd & Hs & Hsl & Hq & Hdq & Hdl & _).
    assert (c <> SEMI) as Hsemi by (intros ->; by vm_compute in Hc).
    assert (Step st c rest (append [c] st) rest) as HS.
    { apply Step_text; try done; by intros []. }
    rewrite run_cons, (Step_step _ _ _ _ _ HS) by done. cbn [fst snd].
    destruct (IH (append [c] st)) as [IH1 IH2]; try done.
    + by eapply Step_wf.
    + rewrite join_append, forallb_app, Hblank. simpl. by rewrite Hc.
  - rewrite run_skip_line_comment by done.
    destruct (IH (pad_before_comment st)) as [IH1 IH2];
      [by apply wf_pad|by rewrite pad_normal|by apply pad_blank|].
    split; [|done]. rewrite IH1. apply pad_flags.
  - rewrite run_skip_line_comment_eof by done. cbn [statements buf set_line_comment].
    split; [apply pad_flags|by apply pad_blank].
  - rewrite run_skip_block_comment by done.
    destruct (IH (pad_before_comment st)) as [IH1 IH2];
      [by apply wf_pad|by rewrite pad_normal|by apply pad_blank|].
    split; [|done]. rewrite IH1. apply pad_flags.
  - assert (run st ([SLASH; STAR] ++ body) = set_block_comment true (pad_before_comment st))
      as ->.
    { cbn [app].
      pose proof (Step_block_open st SLASH _ body Hn eq_refl eq_refl) as HS.
      rewrite run_cons, (Step_step _ _ _ _ _ HS) by done. cbn [fst snd].
      rewrite run_block_comment_eof; [done|by eapply Step_wf|done|done]. }
    cbn [statements buf set_block_comment].
    split; [apply pad_flags|by apply pad_blank].
Qed.

Lemma only_comments_split (rem : str) : only_comments rem -> _split_sql_statements rem = [].
Proof.
  intros H. unfold _split_sql_statements.
  destruct (run_only_comments rem H init wf_init normal_init eq_refl) as [Hs Hb].
  rewrite Hs. unfold emit. by rewrite strip_blank.
Qed.

(** What one iteration that is not a statement boundary puts into the
    buffer: nothing inside a comment, the padding on entering one, and
    otherwise the very text it consumes. *)
Lemma Step_buffered (st : lexer) (ch : char) (tl : str) (st' : lexer) (rest' : str) :
  wf st -> Step st ch tl st' rest' -> ~ (normal st = true /\ ch = SEMI) ->
  statements st' = statements st /\
  (in_comment st = true -> join (buf st') = join (buf st)) /\
  (in_comment st = false -> in_comment st' = true ->
   join (buf st') = join (buf st) ++ comment_padding (join (buf st))) /\
  (in_comment st = false -> in_comment st' = false ->
   join (buf st') ++ rest' = join (buf st) ++ ch :: tl).
Proof.
  intros Hwf HS Hb.
  assert (statements st' = statements st) as Hst.
  { destruct (Step_dichotomy _ _ _ _ _ HS) as [(Hn & Hc & _)|(_ & H & _)]; [|done].
    exfalso. by apply Hb. }
  split; [done|]. split; [|split].
  - intros Hc. unfold in_comment in Hc. apply orb_true_iff in Hc.
    destruct (Step_in_comment _ _ _ _ _ Hc HS) as [-> _]. done.
  - intros Hc Hc'. unfold in_comment in *. apply orb_false_iff in Hc as [Hl Hk].
    assert (buf st' = buf (pad_before_comment st)) as ->; [|by apply pad_buffered].
    destruct (pad_flags st) as (_ & _ & _ & Hpl & Hpk & _).
    destruct HS; subst; try done;
      try (exfalso; cbn [in_line_comment in_block_comment append set_single set_double
                        set_dollar flush] in Hc';
           rewrite ?Hl, ?Hk in Hc'; discriminate Hc');
      try congruence.
  - intros Hc Hc'. by eapply Step_verbatim.
Qed.

(** C8, amended: after the last Normal-mode semicolon (or from the start of
    a text with none), the text that the scan has buffered at the end of
    the remainder is emitted trimmed as the final statement when it is not
    blank, and nothing is emitted for the remainder when it is blank.  The
    buffered text grows iteration by iteration: inside a comment by
    nothing, on entering a comment by the padding (one space after text
    that does not end in whitespace), and otherwise by the very text the
    iteration consumes; so for a remainder read without entering a comment
    it is the remainder itself, and a remainder of whitespace and comments
    only gives no further statement. *)
Theorem trailing_remainder_is_emitted :
  (forall pre rem,
     normal (run init pre) = true -> boundaries rem = 0%nat ->
     let buffered := join (buf (run init rem)) in
     (strip buffered <> [] ->
      _split_sql_statements (pre ++ SEMI :: rem) =
      _split_sql_statements pre ++ [strip buffered]) /\
     (strip buffered = [] ->
      _split_sql_statements (pre ++ SEMI :: rem) = _split_sql_statements pre) /\
     (comment_free rem = true -> buffered = rem)) /\
  (forall text,
     boundaries text = 0%nat ->
     let buffered := join (buf (run init text)) in
     (strip buffered <> [] -> _split_sql_statements text = [strip buffered]) /\
     (strip buffered = [] -> _split_sql_statements text = []) /\
     (comment_free text = true -> buffered = text)) /\
  (forall st ch tl,
     wf st -> ~ (normal st = true /\ ch = SEMI) ->
     let st' := (step st ch tl).1 in
     let rest' := (step st ch tl).2 in
     statements st' = statements st /\
     (in_comment st = true -> join (buf st') = join (buf st)) /\
     (in_comment st = false -> in_comment st' = true ->
      join (buf st') = join (buf st) ++ comment_padding (join (buf st))) /\
     (in_comment st = false -> in_comment st' = false ->
      join (buf st') ++ rest' = join (buf st) ++ ch :: tl)) /\
  (forall pre rem,
     normal (run init pre) = true -> only_comments rem ->
     strip (join (buf (run init rem))) = [] /\
     _split_sql_statements (pre ++ SEMI :: rem) = _split_sql_statements pre) /\
  (forall text,
     only_comments text ->
     strip (join (buf (run init text))) = [] /\ _split_sql_statements text = []).
Proof.
  assert (forall text, boundaries text = 0%nat ->
            _split_sql_statements text =
            match strip (join (buf (run init text))) with
            | [] => []
            | s => [s]
            end) as Hone.
  { intros text Hb. unfold _split_sql_statements.
    rewrite (no_boundary_statements text Hb). unfold emit.
    by destruct (strip (join (buf (run init text)))). }
  assert (forall text, only_comments text -> strip (join (buf (run init text))) = [])
    as Hblank.
  { intros text H. apply strip_blank.
    by destruct (run_only_comments text H init wf_init normal_init eq_refl). }
  split; [|split; [|split; [|split]]].
  - intros pre rem Hn Hb buffered. split; [|split].
    + intros Hne. rewrite split_at_boundary, (Hone rem Hb) by done. fold buffered.
      by destruct (strip buffered).
    + intros He. rewrite split_at_boundary, (Hone rem Hb) by done. fold buffered.
      by rewrite He, app_nil_r.
    + by apply comment_free_verbatim.
  - intros text Hb buffered. split; [|split].
    + intros Hne. rewrite (Hone text Hb). fold buffered. by destruct (strip buffered).
    + intros He. rewrite (Hone text Hb). fold buffered. by rewrite He.
    + by apply comment_free_verbatim.
  - intros st ch tl Hwf Hb st' rest'. by apply Step_buffered; [|apply step_Step|].
  - intros pre rem Hn Hc. split; [by apply Hblank|].
    by rewrite split_at_boundary, (only_comments_split rem Hc), app_nil_r.
  - intros text Hc. split; [by apply Hblank|by apply only_comments_split].
Qed.

Lemma trailing_remainder_is_emitted_witness :
  let pre := text_of "SELECT 1" in
  let rem := text_of " SELECT 'a;b'  " in
  normal (run init pre) = true /\ boundaries rem = 0%nat /\
  strip (join (buf (run init rem))) <> [] /\ comment_free rem = true /\
  _split_sql_statements (pre ++ SEMI :: rem) = [text_of "SELECT 1"; text_of "SELECT 'a;b'"].
Proof.
  intros pre rem.
  assert (normal (run init pre) = true) as H1 by by vm_compute.
  assert (boundaries rem = 0%nat) as H2 by by vm_compute.
  assert (strip (join (buf (run init rem))) <> []) as H3 by by vm_compute.
  assert (comment_free rem = true) as H4 by by vm_compute.
  destruct trailing_remainder_is_emitted as [H _].
  destruct (H pre rem H1 H2) as (Ha & _ & Hb).
  split; [exact H1|]. split; [exact H2|]. split; [exact H3|]. split; [exact H4|].
  rewrite (Ha H3), (Hb H4). by vm_compute.
Defined.

(** C8 as stated fails: after the last Normal-mode semicolon comes a
    comment, which is not whitespace and yet is not emitted. *)
Lemma trailing_comment_not_emitted :
  let pre := text_of "SELECT 1" in
  let rem := text_of " -- x" in
  normal (run init pre) = true /\ boundaries rem = 0%nat /\
  strip rem = text_of "-- x" /\
  _split_sql_statements (pre ++ SEMI :: rem) = [text_of "SELECT 1"] /\
  last (_split_sql_statements (pre ++ SEMI :: rem)) <> Some (strip rem).
Proof. by vm_compute. Qed.

Lemma added_ext (st st' : lexer) (xs : list str) :
  buf st' = buf st ++ xs -> added st st' = join xs.
Proof. intros H. unfold added. by rewrite H, join_app, drop_app_length'. Qed.

Lemma added_join (st st' : lexer) :
  (exists x, buf st' = buf st ++ x) -> join (buf st') = join (buf st) ++ added st st'.
Proof. intros [x Hx]. by rewrite (added_ext _ _ _ Hx), Hx, join_app. Qed.

Lemma pad_padded (st : lexer) :
  padded st -> pad_before_comment st = append [SPACE] st.
Proof. intros (x & Hx & Hs). unfold pad_before_comment. by rewrite Hx, Hs. Qed.

Lemma pad_buf_ext (st : lexer) :
  exists xs, buf (pad_before_comment st) = buf st ++ xs /\ (xs = [] \/ xs = [[SPACE]]).
Proof.
  unfold pad_before_comment. destruct (last (buf st)) as [x|].
  - destruct (str_isspace x); [exists []|exists [[SPACE]]]; simpl; rewrite ?app_nil_r; auto.
  - exists []. rewrite app_nil_r. auto.
Qed.

Lemma Seg_total (rest : str) (st : lexer) :
  wf st -> exists B s2 k, Seg st rest B s2 k.
Proof.
  remember (length rest) as n eqn:Hn. revert rest Hn st.
  induction (lt_wf n) as [n _ IH]. intros rest Hn st Hwf.
  destruct rest as [|ch tl]; [by exists [], st, []; constructor|].
  destruct (bool_decide (normal st = true /\ ch = SEMI)) eqn:Hb.
  - apply bool_decide_eq_true in Hb as [Hb ->].
    exists [], st, (SEMI :: tl). by constructor.
  - apply bool_decide_eq_false in Hb.
    pose proof (step_Step st ch tl) as HS.
    pose proof (step_length st ch tl Hwf) as Hl.
    destruct (IH (length (step st ch tl).2) ltac:(subst n; simpl; lia) _ eq_refl
                (step st ch tl).1 (step_wf st ch tl Hwf)) as (B & s2 & k & HSeg).
    exists (added st (step st ch tl).1 ++ B), s2, k. by econstructor.
Qed.

Lemma Seg_run (st : lexer) (rest B : str) (s2 : lexer) (k : str) :
  Seg st rest B s2 k -> wf st ->
  run st rest = run s2 k /\ wf s2 /\ statements s2 = statements st /\
  join (buf s2) = join (buf st) ++ B /\
  (k = [] \/ exists rem, k = SEMI :: rem /\ normal s2 = true).
Proof.
  induction 1 as [st|st rem Hn|st ch tl st1 r1 B s2 k Hnb HS HSeg IH]; intros Hwf.
  - rewrite app_nil_r. split_and!; auto.
  - rewrite app_nil_r. split_and!; eauto.
  - destruct (IH (Step_wf _ _ _ _ _ Hwf HS)) as (Hrun & Hwf2 & Hst & Hj & Hk).
    destruct (Step_dichotomy _ _ _ _ _ HS) as [(? & ? & _)|(_ & Hs1 & Hb1)]; [tauto|].
    rewrite run_cons, (Step_step _ _ _ _ _ HS) by done. simpl.
    split_and!; try done; try congruence.
    by rewrite Hj, (added_join _ _ Hb1), app_assoc.
Qed.

Lemma added_same (st st' : lexer) : buf st' = buf st -> added st st' = [].
Proof. intros H. apply (added_ext _ _ []). by rewrite app_nil_r. Qed.

Lemma added_append1 (st st' : lexer) (x : str) :
  buf st' = buf st ++ [x] -> added st st' = x.
Proof. intros H. rewrite (added_ext _ _ _ H). simpl. by rewrite app_nil_r. Qed.

Lemma added_append2 (st st' : lexer) (x y : str) :
  buf st' = (buf st ++ [x]) ++ [y] -> added st st' = x ++ y.
Proof.
  intros H. rewrite (added_ext _ _ [x; y]); [simpl; by rewrite app_nil_r|].
  by rewrite H, <- app_assoc.
Qed.

Ltac added_simpl :=
  repeat first
    [ rewrite (added_same _ _) by reflexivity
    | rewrite (added_append1 _ _ _) by reflexivity
    | rewrite (added_append2 _ _ _ _) by reflexivity ].

Ltac flags :=
  repeat match goal with
         | H : normal _ = true |- _ => apply normal_flags in H as (? & ? & ? & ? & ?)
         end.

Lemma head_tag (tag : str) : is_tag tag -> exists t, tag = DOLLAR :: t.
Proof. intros (body & -> & _). by eexists. Qed.

(** After a buffered character that is not whitespace, the next character
    buffered in Normal mode is the next character of the text, or a stop
    character. *)
Lemma Seg_head (st : lexer) (rest B : str) (s2 : lexer) (k : str) (d : char) :
  Seg st rest B s2 k -> wf st -> normal st = true -> padded st ->
  head B = Some d -> stop d = true \/ head rest = Some d.
Proof.
  intros HSeg Hwf Hn Hp Hd.
  pose proof (normal_flags _ Hn) as (Hs & Hdb & Hl & Hbc & Hdl).
  inversion HSeg as [|? ? ?|? ch tl st1 r1 B1 ? ? Hnb HS HSeg1]; subst; try done.
  destruct HS; subst; try congruence; simpl in *.
  - rewrite (pad_padded _ Hp) in Hd. revert Hd. added_simpl. intros [= <-]. by left.
  - rewrite (pad_padded _ Hp) in Hd. revert Hd. added_simpl. intros [= <-]. by left.
  - match goal with
    | H : dollar_match _ = Some _ |- _ =>
        destruct (dollar_match_spec _ _ H) as [[t ->]%head_tag _]
    end.
    revert Hd. added_simpl. simpl. auto.
  - revert Hd. added_simpl. simpl. auto.
  - revert Hd. added_simpl. simpl. auto.
  - tauto.
  - revert Hd. added_simpl. simpl. auto.
Qed.

Lemma dollar_match_none (s : str) :
  dollar_match (DOLLAR :: s) = None <-> tag_follows s = false.
Proof.
  unfold dollar_match, tag_follows. destruct (span_tag s) as [run rest]. simpl.
  destruct rest as [|d rest]; [done|]. simpl.
  destruct (N.eq_dec d DOLLAR) as [->|Hne]; [done|].
  apply N.eqb_neq in Hne as Hne'. rewrite Hne'.
  destruct d as [|p]; [done|]. repeat (destruct p as [p|p|]; try done).
Qed.

Lemma tag_follows_cons (c : char) (s : str) :
  tag_follows (c :: s) = if is_tag_char c then tag_follows s else c =? DOLLAR.
Proof.
  unfold tag_follows. simpl. destruct (is_tag_char c); [|done].
  by destruct (span_tag s).
Qed.

Lemma tag_char_not_space (c : char) : is_tag_char c = true -> isspace c = false.
Proof.
  unfold isspace, is_tag_char.
  rewrite !orb_true_iff, !andb_true_iff, !N.leb_le, !N.eqb_eq. intros H.
  rewrite !orb_false_iff, !andb_false_iff, !N.leb_gt, !N.eqb_neq. lia.
Qed.

Lemma padded_append (st : lexer) (c : char) : isspace c = false -> padded (append [c] st).
Proof.
  intros Hc. exists [c]. simpl. rewrite last_snoc. split; [done|]. by rewrite Hc.
Qed.

Lemma Seg_tag_follows (st : lexer) (rest B : str) (s2 : lexer) (k : str) :
  Seg st rest B s2 k -> wf st -> normal st = true -> padded st ->
  tag_follows rest = false -> tag_follows B = false.
Proof.
  induction 1 as [st|st rem Hn|st ch tl st1 r1 B s2 k Hnb HS HSeg IH];
    intros Hwf Hn' Hp Hf; try done.
  assert (Seg st (ch :: tl) (added st st1 ++ B) s2 k) as Hall by (by econstructor).
  rewrite tag_follows_cons in Hf.
  destruct (is_tag_char ch) eqn:Htc.
  - pose proof (normal_flags _ Hn') as (Hs & Hdb & Hl & Hbc & Hdl).
    destruct HS; subst; try congruence; try discriminate Htc; try tauto.
    revert IH. added_simpl. simpl. intros IH.
    rewrite tag_follows_cons, Htc. apply IH; try done.
    + by eapply Step_wf; [|by apply Step_text].
    + apply padded_append. by apply tag_char_not_space.
  - apply N.eqb_neq in Hf.
    destruct (added st st1 ++ B) as [|d B'] eqn:E; [done|].
    rewrite tag_follows_cons.
    destruct (Seg_head _ _ _ _ _ d Hall Hwf Hn' Hp eq_refl) as [Hd|Hd].
    + apply stop_spec in Hd as (_ & _ & _ & _ & _ & Hd & ->). by apply N.eqb_neq.
    + injection Hd as <-. rewrite Htc. by apply N.eqb_neq.
Qed.

Lemma startswith_cons (a c : char) (p t : str) :
  startswith (a :: p) (c :: t) = (a =? c) && startswith p t.
Proof. done. Qed.

Lemma startswith_short (p t X : str) :
  (length p <= length t)%nat -> startswith p (t ++ X) = startswith p t.
Proof.
  revert t. induction p as [|a p IH]; intros t Hl; [done|].
  destruct t as [|c t]; [simpl in Hl; lia|].
  simpl. rewrite !startswith_cons. f_equal. apply IH. simpl in Hl. lia.
Qed.

(** Inside a dollar region the buffered text and the scanned text agree on
    every prefix no longer than the tag. *)
Lemma Seg_dollar_prefix (st : lexer) (rest B : str) (s2 : lexer) (k : str) (t : str) :
  Seg st rest B s2 k -> wf st -> in_dollar st = Some t ->
  forall p, (length p <= length t)%nat -> startswith p B = startswith p rest.
Proof.
  induction 1 as [st|st rem Hn|st ch tl st1 r1 B s2 k Hnb HS HSeg IH];
    intros Hwf Hd p Hp; try done.
  { apply normal_flags in Hn as (_ & _ & _ & _ & Hn). congruence. }
  pose proof (Step_wf _ _ _ _ _ Hwf HS) as Hwf1.
  destruct (dollar_only _ _ Hwf Hd) as (Hs & Hdb & Hl & Hbc & Htag).
  destruct HS; subst; flags; try congruence.
  - assert (tag = t) as -> by congruence.
    match goal with
    | H : startswith _ _ = true |- _ => apply startswith_true in H as [r Hr]
    end.
    added_simpl. rewrite Hr. by rewrite !startswith_short.
  - assert (tag = t) as -> by congruence.
    added_simpl. destruct p as [|a p]; [done|]. simpl.
    rewrite !startswith_cons. f_equal.
    apply IH; try done. simpl in Hp. lia.
Qed.

Lemma mirrors_normal (st s' : lexer) : mirrors st s' -> normal st = true -> normal s' = true.
Proof.
  intros (H1 & H2 & H3 & H4 & H5) (? & ? & ? & ? & ?)%normal_flags.
  unfold normal. rewrite H1, H2, H3, H4, H5. 
  repeat match goal with H : _ = _ |- _ => rewrite H end. done.
Qed.

Lemma rescan_via (s' s1' : lexer) (c0 : char) (a' B1 : str) (s2 : lexer) :
  wf s' -> Step s' c0 (a' ++ B1) s1' B1 ->
  join (buf s1') = join (buf s') ++ c0 :: a' -> statements s1' = statements s' ->
  (wf s1' -> rescanned s2 s1' B1) ->
  rescanned s2 s' ((c0 :: a') ++ B1).
Proof.
  intros Hwf HS Hj Hst IH. destruct (IH (Step_wf _ _ _ _ _ Hwf HS)) as (Hm & Hb & Hs).
  unfold rescanned. simpl. rewrite run_cons, (Step_step _ _ _ _ _ HS) by done. simpl.
  split_and!; [done| |congruence].
  rewrite Hb, Hj, <- app_assoc. done.
Qed.

Lemma join_append2 (x y : str) (st : lexer) :
  join (buf (append y (append x st))) = join (buf st) ++ x ++ y.
Proof. by rewrite !join_append, <- app_assoc. Qed.

(** A second scan over the text buffered in a segment retraces the first:
    it buffers the same text verbatim and ends in the same region. *)
Lemma Seg_rescan (st : lexer) (rest B : str) (s2 : lexer) (k : str) :
  Seg st rest B s2 k -> wf st ->
  forall s', wf s' -> mirrors st s' -> rescanned s2 s' B.
Proof.
  induction 1 as [st|st rem Hn|st ch tl st1 r1 B s2 k Hnb HS HSeg IH];
    intros Hwf s' Hwf' Hm.
  { unfold rescanned. rewrite run_nil, app_nil_r. done. }
  { unfold rescanned. rewrite run_nil, app_nil_r. done. }
  pose proof (Step_wf _ _ _ _ _ Hwf HS) as Hwf1.
  specialize (IH Hwf1).
  pose proof Hm as (Hm1 & Hm2 & Hm3 & Hm4 & Hm5).
  destruct HS; subst.
  - (* line comment ends *)
    added_simpl. apply IH; [done|]. unfold mirrors. simpl. done.
  - added_simpl. by apply IH.
  - added_simpl. apply IH; [done|]. unfold mirrors. simpl. done.
  - added_simpl. by apply IH.
  - (* dollar region ends *)
    added_simpl.
    destruct (dollar_only _ _ Hwf ltac:(eassumption)) as (_ & _ & _ & _ & Ht).
    destruct (head_tag _ Ht) as [t ->].
    apply rescan_via with (s1' := set_dollar None (append (DOLLAR :: t) s')); try done.
    + replace B with (drop (length (DOLLAR :: t)) (DOLLAR :: t ++ B)) at 2
        by apply (drop_app_length' (DOLLAR :: t) B).
      eapply (Step_dollar_end s'); try done; [by rewrite Hm3|].
      apply startswith_true. by exists B.
    + simpl. by rewrite join_app; simpl; rewrite app_nil_r.
    + intros Hw. apply IH; [done|]. unfold mirrors. simpl. by rewrite Hm1, Hm2.
  - (* dollar region body *)
    added_simpl.
    destruct (dollar_only _ _ Hwf ltac:(eassumption)) as (_ & _ & _ & _ & Ht).
    apply rescan_via with (a' := []) (s1' := append [ch] s'); try done.
    + eapply (Step_dollar_body s'); try done; [by rewrite Hm3|].
      destruct (head_tag _ Ht) as [t ->].
      match goal with
      | H : startswith _ (ch :: tl) = false |- _ => rewrite startswith_cons in H |- *; 
          rewrite <- H
      end.
      f_equal. eapply Seg_dollar_prefix; [exact HSeg|done|simpl; eassumption|simpl; lia].
    + by rewrite join_append.
    + intros Hw. apply IH; [done|]. unfold mirrors. simpl. done.
  - (* line comment opens *)
    pose proof (mirrors_normal _ _ Hm ltac:(done)) as Hn'.
    pose proof (pad_flags st) as (_ & Hp1 & Hp2 & Hp3 & Hp4 & Hp5).
    match goal with
    | |- context [added st ?x] => change (added st x) with (added st (pad_before_comment st))
    end.
    destruct (pad_buf_ext st) as (xs & Hxs & [->| ->]).
    + rewrite (added_ext _ _ [] Hxs). simpl. apply IH; [done|].
      unfold mirrors. simpl. by rewrite Hp1, Hp2, Hp5.
    + rewrite (added_ext _ _ _ Hxs). simpl.
      apply rescan_via with (a' := []) (s1' := append [SPACE] s'); try done.
      * apply Step_text; try done; try (intros [? ?]; done).
      * by rewrite join_append.
      * intros Hw. apply IH; [done|]. unfold mirrors. simpl. by rewrite Hp1, Hp2, Hp5.
  - (* block comment opens *)
    pose proof (mirrors_normal _ _ Hm ltac:(done)) as Hn'.
    pose proof (pad_flags st) as (_ & Hp1 & Hp2 & Hp3 & Hp4 & Hp5).
    match goal with
    | |- context [added st ?x] => change (added st x) with (added st (pad_before_comment st))
    end.
    destruct (pad_buf_ext st) as (xs & Hxs & [->| ->]).
    + rewrite (added_ext _ _ [] Hxs). simpl. apply IH; [done|].
      unfold mirrors. simpl. by rewrite Hp1, Hp2, Hp5.
    + rewrite (added_ext _ _ _ Hxs). simpl.
      apply rescan_via with (a' := []) (s1' := append [SPACE] s'); try done.
      * apply Step_text; try done; try (intros [? ?]; done).
      * by rewrite join_append.
      * intros Hw. apply IH; [done|]. unfold mirrors. simpl. by rewrite Hp1, Hp2, Hp5.
  - (* dollar region opens *)
    pose proof (mirrors_normal _ _ Hm ltac:(done)) as Hn'.
    added_simpl.
    match goal with
    | H : dollar_match _ = Some _ |- _ => destruct (dollar_match_spec _ _ H) as [Ht _]
    end.
    destruct (head_tag _ Ht) as [t ->].
    apply rescan_via with (s1' := set_dollar (Some (DOLLAR :: t)) (append (DOLLAR :: t) s'));
      try done.
    + replace B with (drop (length (DOLLAR :: t)) (DOLLAR :: t ++ B)) at 2
        by apply (drop_app_length' (DOLLAR :: t) B).
      eapply (Step_dollar_open s'); try done.
      by apply (dollar_match_tag (DOLLAR :: t) B).
    + simpl. by rewrite join_app; simpl; rewrite app_nil_r.
    + intros Hw. apply IH; [done|]. unfold mirrors. simpl. by rewrite Hm1, Hm2.
  - (* escaped single quote *)
    added_simpl.
    apply rescan_via with (s1' := append [SQUOTE] (append [SQUOTE] s')); try done.
    + eapply (Step_single_escape s'); try done; by rewrite ?Hm1, ?Hm2, ?Hm3.
    + by rewrite join_append2.
    + intros Hw. apply IH; [done|]. unfold mirrors. simpl. done.
  - (* single quote closes *)
    added_simpl.
    apply rescan_via with (a' := []) (s1' := append [SQUOTE] (set_single false s')); try done.
    + eapply (Step_single_end s'); try done; try (by rewrite ?Hm1, ?Hm2, ?Hm3).
      intros Hh.
      destruct (single_only st Hwf ltac:(done)) as (? & ? & ? & ?).
      destruct (Seg_head _ _ _ _ _ SQUOTE HSeg) as [Hd|Hd]; try done.
      * unfold normal. simpl. 
        repeat match goal with H : _ = _ |- _ => rewrite H end. done.
      * by apply padded_append.
    + by rewrite join_append.
    + intros Hw. apply IH; [done|]. unfold mirrors. simpl. done.
  - added_simpl.
    apply rescan_via with (a' := []) (s1' := append [ch] s'); try done.
    + eapply (Step_single_body s'); try done; by rewrite ?Hm1, ?Hm2, ?Hm3.
    + by rewrite join_append.
    + intros Hw. apply IH; [done|]. unfold mirrors. simpl. done.
  - (* escaped double quote *)
    added_simpl.
    apply rescan_via with (s1' := append [DQUOTE] (append [DQUOTE] s')); try done.
    + eapply (Step_double_escape s'); try done; by rewrite ?Hm1, ?Hm2, ?Hm3.
    + by rewrite join_append2.
    + intros Hw. apply IH; [done|]. unfold mirrors. simpl. done.
  - added_simpl.
    apply rescan_via with (a' := []) (s1' := append [DQUOTE] (set_double false s')); try done.
    + eapply (Step_double_end s'); try done; try (by rewrite ?Hm1, ?Hm2, ?Hm3).
      intros Hh.
      destruct (double_only st Hwf ltac:(done)) as (? & ? & ? & ?).
      destruct (Seg_head _ _ _ _ _ DQUOTE HSeg) as [Hd|Hd]; try done.
      * unfold normal. simpl. 
        repeat match goal with H : _ = _ |- _ => rewrite H end. done.
      * by apply padded_append.
    + by rewrite join_append.
    + intros Hw. apply IH; [done|]. unfold mirrors. simpl. done.
  - added_simpl.
    apply rescan_via with (a' := []) (s1' := append [ch] s'); try done.
    + eapply (Step_double_body s'); try done; by rewrite ?Hm1, ?Hm2, ?Hm3.
    + by rewrite join_append.
    + intros Hw. apply IH; [done|]. unfold mirrors. simpl. done.
  - (* single quote opens *)
    pose proof (mirrors_normal _ _ Hm ltac:(done)) as Hn'.
    added_simpl.
    apply rescan_via with (a' := []) (s1' := append [SQUOTE] (set_single true s')); try done.
    + by eapply (Step_single_open s').
    + by rewrite join_append.
    + intros Hw. apply IH; [done|]. unfold mirrors. simpl. done.
  - pose proof (mirrors_normal _ _ Hm ltac:(done)) as Hn'.
    added_simpl.
    apply rescan_via with (a' := []) (s1' := append [DQUOTE] (set_double true s')); try done.
    + by eapply (Step_double_open s').
    + by rewrite join_append.
    + intros Hw. apply IH; [done|]. unfold mirrors. simpl. done.
  - tauto.
  - (* ordinary text *)
    pose proof (mirrors_normal _ _ Hm ltac:(done)) as Hn'.
    added_simpl.
    assert (wf (append [ch] st)) as Hwa by done.
    assert (normal (append [ch] st) = true) as Hna by done.
    apply rescan_via with (a' := []) (s1' := append [ch] s'); try done.
    + apply Step_text; try done.
      * intros [-> Hh].
        destruct (Seg_head _ _ _ _ _ DASH HSeg Hwa Hna (padded_append st DASH eq_refl) Hh)
          as [Hd|Hd]; [done|auto].
      * intros [-> Hh].
        destruct (Seg_head _ _ _ _ _ STAR HSeg Hwa Hna (padded_append st SLASH eq_refl) Hh)
          as [Hd|Hd]; [done|auto].
      * intros ->. apply dollar_match_none.
        eapply Seg_tag_follows; [exact HSeg|done|done|by apply padded_append|].
        apply dollar_match_none. auto.
    + by rewrite join_append.
    + intros Hw. apply IH; [done|]. unfold mirrors. simpl. done.
Qed.

Lemma closed_mirrors (st s' : lexer) : closed st -> normal s' = true -> mirrors st s'.
Proof.
  intros (H1 & H2 & H3) (? & ? & ? & ? & ?)%normal_flags. unfold mirrors.
  rewrite H1, H2, H3. done.
Qed.

Lemma mirrors_closed_normal (st s' : lexer) : mirrors st s' -> closed st -> normal s' = true.
Proof.
  intros (H1 & H2 & H3 & H4 & H5) (? & ? & ?). unfold normal.
  rewrite H1, H2, H3, H4, H5.
  repeat match goal with H : _ = _ |- _ => rewrite H end. done.
Qed.

Lemma normal_closed (st : lexer) : normal st = true -> closed st.
Proof. intros (? & ? & ? & ? & ?)%normal_flags. by split_and!. Qed.

(** The second scan starts at the first character that is not whitespace. *)
Lemma Seg_rescan_lstrip (st : lexer) (rest B : str) (s2 : lexer) (k : str) :
  Seg st rest B s2 k -> wf st -> closed st ->
  forall s', wf s' -> normal s' = true -> rescanned s2 s' (lstrip B).
Proof.
  induction 1 as [st|st rem Hn|st ch tl st1 r1 B s2 k Hnb HS HSeg IH];
    intros Hwf Hc s' Hwf' Hn'.
  { unfold rescanned. simpl. rewrite run_nil, app_nil_r. split_and!; try done.
    by apply closed_mirrors. }
  { unfold rescanned. simpl. rewrite run_nil, app_nil_r. split_and!; try done.
    by apply closed_mirrors. }
  assert (Seg st (ch :: tl) (added st st1 ++ B) s2 k) as Hall by (by econstructor).
  pose proof (Step_wf _ _ _ _ _ Hwf HS) as Hwf1.
  specialize (IH Hwf1).
  pose proof Hc as (Hc1 & Hc2 & Hc3).
  assert (forall a, head (added st st1 ++ B) = Some a -> isspace a = false ->
            rescanned s2 s' (lstrip (added st st1 ++ B))) as Hfull.
  { intros a Ha Hsp. destruct (added st st1 ++ B) as [|a' B'] eqn:E; [done|].
    injection Ha as ->. rewrite lstrip_fixed by done.
    eapply Seg_rescan; [exact Hall|done|done|by apply closed_mirrors]. }
  destruct HS; subst; try congruence.
  - added_simpl. by apply IH.
  - added_simpl. by apply IH.
  - added_simpl. by apply IH.
  - added_simpl. by apply IH.
  - pose proof (pad_flags st) as (_ & Hp1 & Hp2 & Hp3 & Hp4 & Hp5).
    match goal with
    | |- context [added st ?x] => change (added st x) with (added st (pad_before_comment st))
    end.
    destruct (pad_buf_ext st) as (xs & Hxs & [->| ->]); rewrite (added_ext _ _ _ Hxs);
      simpl; apply IH; try done; unfold closed; simpl; by rewrite Hp1, Hp2, Hp5.
  - pose proof (pad_flags st) as (_ & Hp1 & Hp2 & Hp3 & Hp4 & Hp5).
    match goal with
    | |- context [added st ?x] => change (added st x) with (added st (pad_before_comment st))
    end.
    destruct (pad_buf_ext st) as (xs & Hxs & [->| ->]); rewrite (added_ext _ _ _ Hxs);
      simpl; apply IH; try done; unfold closed; simpl; by rewrite Hp1, Hp2, Hp5.
  - match goal with
    | H : dollar_match _ = Some _ |- _ =>
        destruct (dollar_match_spec _ _ H) as [[t ->]%head_tag _]
    end.
    apply (Hfull DOLLAR); [|done]. by added_simpl.
  - apply (Hfull SQUOTE); [|done]. by added_simpl.
  - apply (Hfull DQUOTE); [|done]. by added_simpl.
  - tauto.
  - destruct (isspace ch) eqn:Hsp.
    + added_simpl. simpl. rewrite Hsp. by apply IH.
    + apply (Hfull ch); [|done]. by added_simpl.
Qed.

Lemma drop_startswith (tag s : str) :
  startswith tag s = true -> (length (drop (length tag) s) + length tag = length s)%nat.
Proof. intros [r ->]%startswith_true. rewrite drop_app_length', length_app. lia. Qed.

Lemma join_length_append (x : str) (st : lexer) :
  length (join (buf (append x st))) = (length (join (buf st)) + length x)%nat.
Proof. by rewrite join_append, length_app. Qed.

(** An iteration buffers no more than it consumes. *)
Lemma Step_buf_length (st : lexer) (ch : char) (tl : str) (st' : lexer) (rest' : str) :
  wf st -> Step st ch tl st' rest' ->
  (length (join (buf st')) + length rest' <= length (join (buf st)) + S (length tl))%nat.
Proof.
  intros Hwf HS.
  assert (length (join (buf (pad_before_comment st))) <= S (length (join (buf st))))%nat
    as Hpad.
  { destruct (pad_buf_ext st) as (xs & -> & [->| ->]); rewrite join_app, length_app;
      simpl; lia. }
  destruct HS; subst; simpl; rewrite ?join_app, ?length_app; simpl; try lia.
  - match goal with H : startswith _ _ = true |- _ => apply drop_startswith in H end.
    rewrite app_nil_r. simpl in *. lia.
  - match goal with
    | H : dollar_match _ = Some _ |- _ =>
        destruct (dollar_match_spec _ _ H) as [_ [r Hr]]
    end.
    assert (startswith tag (DOLLAR :: tl) = true) as Hs
      by (apply startswith_true; eauto).
    apply drop_startswith in Hs.
    rewrite app_nil_r. simpl in *. lia.
Qed.

Lemma run_buf_length (X : str) (st : lexer) :
  wf st -> (length (join (buf (run st X))) <= length (join (buf st)) + length X)%nat.
Proof.
  remember (length X) as n eqn:Hn. revert X Hn st.
  induction (lt_wf n) as [n _ IH]. intros X Hn st Hwf.
  destruct X as [|ch tl]; [rewrite run_nil; lia|].
  rewrite run_cons by done.
  pose proof (Step_buf_length _ _ _ _ _ Hwf (step_Step st ch tl)) as Hb.
  pose proof (step_length st ch tl Hwf) as Hl.
  pose proof (IH (length (step st ch tl).2) ltac:(subst n; simpl; lia) _ eq_refl
                (step st ch tl).1 (step_wf st ch tl Hwf)) as IH'.
  subst n. simpl. lia.
Qed.

Lemma isspace_semi (c : char) : isspace c = true -> c <> SEMI.
Proof. intros H ->. done. Qed.

(** An iteration on a whitespace character consumes it alone; outside a
    comment it is buffered, inside one nothing is. *)
Lemma Step_ws (st : lexer) (ch : char) (tl : str) (st' : lexer) (rest' : str) :
  wf st -> isspace ch = true -> Step st ch tl st' rest' ->
  rest' = tl /\
  ((in_comment st = true /\ buf st' = buf st) \/
   (in_comment st = false /\ st' = append [ch] st)).
Proof.
  intros Hwf Hsp HS. unfold in_comment.
  pose proof (stop_spec _ (isspace_stop _ Hsp)) as (? & ? & ? & ? & ? & ? & ?).
  pose proof (isspace_semi _ Hsp).
  destruct HS; subst; flags; try done;
    repeat match goal with H : _ = _ |- _ => rewrite H end; simpl; auto.
  exfalso.
  destruct (dollar_only _ _ Hwf ltac:(eassumption)) as (_ & _ & _ & _ & [t ->]%head_tag).
  match goal with
  | H : startswith _ _ = true |- _ =>
      rewrite startswith_cons in H; apply andb_true_iff in H as [?%N.eqb_eq _]
  end.
  congruence.
Qed.

Lemma run_ws (ws : str) (st : lexer) :
  wf st -> Forall (fun c => isspace c = true) ws -> in_comment st = false ->
  run st ws = append_all (chars ws) st.
Proof.
  revert st. induction ws as [|w ws IH]; intros st Hwf Hws Hc.
  { by rewrite append_all_nil. }
  apply Forall_cons in Hws as [Hw Hws].
  rewrite run_cons by done.
  pose proof (step_wf st w ws Hwf) as Hwf1.
  destruct (Step_ws _ _ _ _ _ Hwf Hw (step_Step st w ws)) as [Hr [[? _]|[_ Hs]]];
    [congruence|].
  rewrite Hr, Hs in *. rewrite IH; [by rewrite append_all_append|done|done|done].
Qed.

Lemma lstrip_decomp (l : str) :
  exists ws, l = ws ++ lstrip l /\ Forall (fun c => isspace c = true) ws.
Proof.
  induction l as [|c l (ws & Hl & Hws)]; [by exists []|]. simpl.
  destruct (isspace c) eqn:Hc; [|by exists []].
  exists (c :: ws). split; [simpl; by f_equal|]. by constructor.
Qed.

Lemma rstrip_decomp (l : str) :
  exists ws, l = rstrip l ++ ws /\ Forall (fun c => isspace c = true) ws.
Proof.
  destruct (lstrip_decomp (rev l)) as (ws & Hl & Hws).
  exists (rev ws). split; [|by apply Forall_rev].
  unfold rstrip. rewrite <- rev_app_distr, <- Hl. by rewrite rev_involutive.
Qed.

Lemma emit_single (b : list str) (s : str) :
  join b = s -> strip s = s -> s <> [] -> emit [] b = [s].
Proof. intros Hb Hs Hne. unfold emit. rewrite Hb, Hs. by destruct s. Qed.

(** The statement emitted for a segment, scanned on its own, is one statement. *)
Lemma stable_of_seg (text B : str) (s2 : lexer) (k : str) :
  Seg init text B s2 k -> closed s2 -> strip B <> [] -> stable (strip B).
Proof.
  intros HSeg Hc Hne.
  destruct (Seg_run _ _ _ _ _ HSeg wf_init) as (_ & Hwf2 & _).
  destruct (Seg_rescan_lstrip _ _ _ _ _ HSeg wf_init (normal_closed _ normal_init)
              init wf_init normal_init) as (Hm & Hj & Hs).
  simpl in Hj, Hs.
  pose proof (mirrors_closed_normal _ _ Hm Hc) as Hn.
  destruct (rstrip_decomp (lstrip B)) as (ws & HL & Hws).
  fold (strip B) in HL. set (S := strip B) in *.
  assert (strip S = S) as HS by apply strip_idem.
  assert (wf (run init S)) as HwS by apply run_wf, wf_init.
  destruct ws as [|w ws].
  { rewrite app_nil_r in HL. rewrite HL in *. split; [|done].
    unfold _split_sql_statements. rewrite Hs. by apply emit_single. }
  pose proof Hws as [Hw Hws']%Forall_cons.
  assert (run (run init S) (w :: ws) = run init (lstrip B)) as Hrun.
  { rewrite HL. by rewrite run_stop_split by auto using wf_init, isspace_stop. }
  pose proof (run_buf_length S init wf_init) as Hlen. simpl in Hlen.
  assert (in_comment (run init S) = false) as HcS.
  { destruct (in_comment (run init S)) eqn:E; [exfalso|done].
    rewrite run_cons in Hrun by done.
    destruct (Step_ws _ _ _ _ _ HwS Hw (step_Step (run init S) w ws))
      as [Hr [[_ Hb]|[? _]]]; [|congruence].
    pose proof (run_buf_length (step (run init S) w ws).2 (step (run init S) w ws).1
                  (step_wf _ _ _ HwS)) as Hlen2.
    rewrite Hrun, Hj, Hb, Hr in Hlen2. rewrite HL in Hlen2 at 1.
    rewrite length_app in Hlen2. simpl in Hlen2. lia. }
  rewrite run_ws in Hrun by done.
  assert (join (buf (run init S)) = S) as HjS.
  { apply (f_equal (fun st => join (buf st))) in Hrun.
    change (join (buf (run init S) ++ chars (w :: ws)) = join (buf (run init (lstrip B))))
      in Hrun.
    rewrite join_app, join_chars, Hj, HL in Hrun.
    by apply app_inv_tail in Hrun. }
  split.
  - unfold _split_sql_statements.
    replace (statements (run init S)) with (@nil str)
      by (by rewrite <- Hs, <- Hrun).
    by apply emit_single.
  - by rewrite <- Hn, <- Hrun.
Qed.

Lemma Seg_suffix (st : lexer) (rest B : str) (s2 : lexer) (k : str) :
  Seg st rest B s2 k -> wf st -> (length k <= length rest)%nat.
Proof.
  induction 1 as [st|st rem Hn|st ch tl st1 r1 B s2 k Hnb HS HSeg IH]; intros Hwf; try done.
  specialize (IH (Step_wf _ _ _ _ _ Hwf HS)).
  destruct (Step_suffix _ _ _ _ _ Hwf HS) as [c2 ->].
  rewrite length_cons, length_app. lia.
Qed.

Lemma emit_stable (text B : str) (s2 : lexer) (k : str) :
  Seg init text B s2 k -> closed s2 -> Forall stable (emit [] (buf s2)).
Proof.
  intros HSeg Hc.
  destruct (Seg_run _ _ _ _ _ HSeg wf_init) as (_ & _ & _ & Hj & _). simpl in Hj.
  unfold emit. rewrite Hj. destruct (strip B) eqn:E; [done|].
  constructor; [|done]. rewrite <- E. eapply stable_of_seg; [done|done|]. by rewrite E.
Qed.

(** Every statement of a balanced text is stable. *)
Lemma split_stable (text : str) :
  balanced text -> Forall stable (_split_sql_statements text).
Proof.
  unfold balanced. remember (length text) as n eqn:Hn. revert text Hn.
  induction (lt_wf n) as [n _ IH]. intros text Hn Hbal.
  destruct (Seg_total text init wf_init) as (B & s2 & k & HSeg).
  destruct (Seg_run _ _ _ _ _ HSeg wf_init) as (Hrun & Hwf2 & Hst & Hj & Hk).
  pose proof (Seg_suffix _ _ _ _ _ HSeg wf_init) as Hlen.
  simpl in Hst, Hj. unfold _split_sql_statements. rewrite Hrun in Hbal |- *.
  destruct Hk as [->|(rem & -> & Hn2)].
  - rewrite run_nil in Hbal |- *. rewrite Hst. by eapply emit_stable.
  - rewrite run_cons in Hbal |- * by done.
    rewrite (Step_step _ _ _ _ _ (Step_boundary s2 SEMI rem Hn2 eq_refl)) in Hbal |- *.
    simpl in Hbal |- *.
    rewrite flush_normal, Hst in Hbal |- * by done.
    rewrite run_prepend in Hbal |- * by apply wf_init. simpl.
    rewrite emit_prepend. apply Forall_app. split.
    + eapply emit_stable; [done|by apply normal_closed].
    + apply (IH (length rem)); [simpl in Hlen; lia|done|exact Hbal].
Qed.

Lemma resplit_stable (l : list str) :
  Forall stable l -> _split_sql_statements (join_semi l) = l.
Proof.
  induction l as [|s l IH]; intros Hl; [done|].
  apply Forall_cons in Hl as [[Hs Hn] Hl].
  destruct l as [|s' l]; [done|].
  change (join_semi (s :: s' :: l)) with (s ++ SEMI :: join_semi (s' :: l)).
  rewrite split_at_boundary by done. rewrite Hs, (IH Hl). done.
Qed.

(** C3: splitting is idempotent through a join.  For a text that ends with
    no quote and no dollar-quoted region open, joining its statements with
    [;] and splitting again gives the same statements. *)
Theorem split_join_split (text : str) :
  balanced text ->
  _split_sql_statements (join_semi (_split_sql_statements text)) =
  _split_sql_statements text.
Proof. intros H. by apply resplit_stable, split_stable. Qed.

Lemma split_join_split_witness :
  let text :=
    text_of "SELECT 'a;b' -- c;d" ++ NL ::
    text_of " , $t$ x;y $t$ ; /* z */ SELECT 2 ;; SELECT " ++ DQUOTE :: text_of "q;" ++
    [DQUOTE; SPACE] in
  balanced text /\
  _split_sql_statements (join_semi (_split_sql_statements text)) =
  _split_sql_statements text.
Proof.
  intros text.
  assert (balanced text) as H by (by vm_compute).
  split; [exact H|]. by apply split_join_split.
Defined.

(** Scanning blank text in Normal mode stays in Normal mode, emits nothing
    and buffers only whitespace. *)
Lemma run_blank (text : str) (st : lexer) :
  wf st -> normal st = true -> forallb isspace (join (buf st)) = true ->
  forallb blank text = true ->
  statements (run st text) = statements st /\
  forallb isspace (join (buf (run st text))) = true.
Proof.
  revert st. induction text as [|ch tl IH]; intros st Hwf Hn Hb Ht.
  { by rewrite run_nil. }
  simpl in Ht. apply andb_true_iff in Ht as [Hch Ht].
  unfold blank in Hch. apply orb_true_iff in Hch as [Hs|Hs].
  - pose proof (step_Step st ch tl) as HS.
    destruct (Step_ws _ _ _ _ _ Hwf Hs HS) as [Hr [[Hc _]|[_ Hst]]].
    { destruct (normal_flags st Hn) as (_ & _ & Hl & Hk & _).
      unfold in_comment in Hc. by rewrite Hl, Hk in Hc. }
    rewrite run_cons by done. rewrite Hr, Hst.
    destruct (IH (append [ch] st)) as [IH1 IH2]; try done.
    + rewrite <- Hst. by apply step_wf.
    + rewrite join_append, forallb_snoc, Hb, Hs. done.
  - apply N.eqb_eq in Hs. subst ch.
    pose proof (Step_boundary st SEMI tl Hn eq_refl) as HS.
    rewrite run_cons, (Step_step _ _ _ _ _ HS) by done. simpl.
    assert (emit (statements st) (buf st) = statements st) as He.
    { unfold emit. by rewrite strip_blank. }
    assert (wf (flush st)) as Hwf' by (by eapply Step_wf).
    destruct (IH (flush st) Hwf' Hn eq_refl Ht) as [IH1 IH2].
    split; [|done]. rewrite IH1. simpl. exact He.
Qed.

Lemma split_blank (text : str) :
  forallb blank text = true -> _split_sql_statements text = [].
Proof.
  intros H. unfold _split_sql_statements.
  destruct (run_blank text init wf_init normal_init eq_refl H) as [Hs Hb].
  rewrite Hs. unfold emit. by rewrite strip_blank.
Qed.

(** X1: a text of whitespace and semicolons only, the empty text included,
    has no statements. *)
Theorem blank_text_has_no_statements (text : str) :
  forallb blank text = true -> _split_sql_statements text = [].
Proof. apply split_blank. Qed.

Lemma blank_text_has_no_statements_witness :
  let text := text_of " ; ;;  " ++ [NL; SEMI] in
  forallb blank text = true /\ _split_sql_statements text = [] /\
  _split_sql_statements [] = [].
Proof.
  intros text. assert (forallb blank text = true) as H by (by vm_compute).
  split; [exact H|]. split; [exact (blank_text_has_no_statements text H)|].
  by apply blank_text_has_no_statements.
Defined.

(** X2: splitting distributes over a Normal-mode semicolon.  When the scan
    of [pre] ends in Normal mode, the statements of [pre], [;] and [rem] are
    those of [pre] followed by those of [rem]. *)
Theorem split_distributes_over_boundary (pre rem : str) :
  normal (run init pre) = true ->
  _split_sql_statements (pre ++ SEMI :: rem) =
  _split_sql_statements pre ++ _split_sql_statements rem.
Proof. apply split_at_boundary. Qed.

Lemma split_distributes_over_boundary_witness :
  let pre := text_of "SELECT 'a;b'" in
  let rem := text_of " SELECT $$c;d$$; SELECT 3" in
  normal (run init pre) = true /\
  _split_sql_statements (pre ++ SEMI :: rem) =
  [text_of "SELECT 'a;b'"; text_of "SELECT $$c;d$$"; text_of "SELECT 3"].
Proof.
  intros pre rem. assert (normal (run init pre) = true) as H by (by vm_compute).
  split; [exact H|]. rewrite (split_distributes_over_boundary pre rem H). by vm_compute.
Defined.

(** X7: [dollar_match] implements the pattern [\$[A-Za-z0-9_]*\$] anchored
    at the start: it matches exactly when the text begins with [$], a run of
    tag characters and [$], and what it returns is that prefix. *)
Theorem dollar_match_is_the_tag_pattern (s t : str) :
  dollar_match s = Some t <->
  exists body rest,
    forallb is_tag_char body = true /\
    s = DOLLAR :: body ++ DOLLAR :: rest /\ t = DOLLAR :: body ++ [DOLLAR].
Proof.
  split.
  - intros H. unfold dollar_match in H.
    destruct s as [|c s]; [done|].
    destruct (N.eq_dec c DOLLAR) as [->|Hc].
    2:{ destruct c as [|p]; [done|].
        do 6 (destruct p as [p|p|]; try done). }
    destruct (span_tag s) as [run rest] eqn:E.
    destruct (span_tag_spec _ _ _ E) as (-> & Hrun & _).
    destruct rest as [|d rest]; [done|].
    destruct (N.eq_dec d DOLLAR) as [->|Hd].
    2:{ destruct d as [|p]; [done|].
        do 6 (destruct p as [p|p|]; try done). }
    injection H as <-. by exists run, rest.
  - intros (body & rest & Hb & -> & ->).
    replace (DOLLAR :: body ++ DOLLAR :: rest) with ((DOLLAR :: body ++ [DOLLAR]) ++ rest)
      by (simpl; by rewrite <- app_assoc).
    apply dollar_match_tag. by exists body.
Qed.

(** The invariant holds each time the loop body is entered. *)
Lemma configurations_wf (rest : str) (st : lexer) :
  wf st -> Forall (fun c => wf c.1) (configurations st rest).
Proof.
  remember (length rest) as n eqn:Hn. revert rest Hn st.
  induction (lt_wf n) as [n _ IH]. intros rest Hn st Hwf.
  destruct rest as [|ch tl]; [by constructor|].
  rewrite configurations_cons by done. constructor; [done|].
  pose proof (step_length st ch tl Hwf) as Hlen.
  eapply (IH (length (step st ch tl).2)); [subst n; simpl; lia|done|].
  by apply step_wf.
Qed.

(** X8: the five mode flags are never on together.  Each time the loop body
    is entered, and at the end of the scan, at most one of single quote,
    double quote, line comment, block comment and dollar region is open;
    Normal mode is the case that none is. *)
Theorem at_most_one_mode (text : str) :
  (forall st rest, In (st, rest) (configurations init text) -> (mode_count st <= 1)%nat) /\
  (mode_count (run init text) <= 1)%nat /\
  (forall st rest, In (st, rest) (configurations init text) ->
     normal st = true <-> mode_count st = 0%nat).
Proof.
  pose proof (configurations_wf text init wf_init) as H.
  rewrite List.Forall_forall in H. split; [|split].
  - intros st rest Hin. apply (wf_mode _ (H _ Hin)).
  - apply wf_mode, run_wf, wf_init.
  - intros st rest _. apply mode_count_normal.
Qed.

Lemma occurrences_app (c : char) (a b : str) :
  occurrences c (a ++ b) = (occurrences c a + occurrences c b)%nat.
Proof. unfold occurrences. by rewrite List.filter_app, length_app. Qed.

(** Each Normal-mode boundary stands at a semicolon of its own. *)
Lemma boundaries_bound (rest : str) (st : lexer) :
  wf st ->
  (length (List.filter at_boundary (configurations st rest)) <= occurrences SEMI rest)%nat.
Proof.
  remember (length rest) as n eqn:Hn. revert rest Hn st.
  induction (lt_wf n) as [n _ IH]. intros rest Hn st Hwf.
  destruct rest as [|ch tl]; [done|].
  rewrite configurations_cons by done.
  pose proof (step_length st ch tl Hwf) as Hlen.
  pose proof (step_Step st ch tl) as HS.
  destruct (Step_suffix _ _ _ _ _ Hwf HS) as [c2 Hc2].
  pose proof (IH (length (step st ch tl).2) ltac:(subst n; simpl; lia) _ eq_refl
                (step st ch tl).1 (step_wf st ch tl Hwf)) as Hrec.
  assert (occurrences SEMI (step st ch tl).2 <= occurrences SEMI tl)%nat as Hocc.
  { rewrite Hc2 at 2. rewrite occurrences_app. lia. }
  assert (at_boundary (st, ch :: tl) = normal st && (ch =? SEMI)) as Hat by reflexivity.
  assert (occurrences SEMI (ch :: tl) =
          if ch =? SEMI then S (occurrences SEMI tl) else occurrences SEMI tl) as Hcons.
  { unfold occurrences. simpl. by destruct (ch =? SEMI). }
  cbn [List.filter]. rewrite Hat, Hcons.
  destruct (normal st), (ch =? SEMI); simpl; lia.
Qed.

(** X9: a text gives at most one statement more than it has semicolons; a
    text without semicolon gives at most one. *)
Theorem statements_bounded_by_semicolons (text : str) :
  (length (_split_sql_statements text) <= S (occurrences SEMI text))%nat /\
  (occurrences SEMI text = 0%nat -> (length (_split_sql_statements text) <= 1)%nat).
Proof.
  assert (length (_split_sql_statements text) <= S (occurrences SEMI text))%nat as H.
  { unfold _split_sql_statements.
    pose proof (statements_bound text init wf_init) as H1.
    pose proof (emit_length (statements (run init text)) (buf (run init text))) as H2.
    pose proof (boundaries_bound text init wf_init) as H3.
    simpl in *. lia. }
  split; [done|]. intros H0. by rewrite H0 in H.
Qed.

Lemma chars_app (a b : str) : chars (a ++ b) = chars a ++ chars b.
Proof. unfold chars. apply map_app. Qed.

Lemma append_all_app (xs ys : list str) (st : lexer) :
  append_all ys (append_all xs st) = append_all (xs ++ ys) st.
Proof. unfold append_all. simpl. by rewrite app_assoc. Qed.

Lemma run_single_doubled (body rest : str) (st : lexer) :
  wf st -> in_single st = true ->
  run st (doubled SQUOTE body ++ rest) = run (append_all (chars (doubled SQUOTE body)) st) rest.
Proof.
  revert st. induction body as [|c body IH]; intros st Hwf Hs.
  { by rewrite append_all_nil. }
  destruct (single_only st Hwf Hs) as (? & ? & ? & ?).
  change (doubled SQUOTE (c :: body))
    with ((if c =? SQUOTE then [SQUOTE; SQUOTE] else [c]) ++ doubled SQUOTE body).
  destruct (c =? SQUOTE) eqn:Hc.
  - apply N.eqb_eq in Hc. subst c. cbn [app].
    assert (Step st SQUOTE (SQUOTE :: doubled SQUOTE body ++ rest)
              (append [SQUOTE] (append [SQUOTE] st)) (doubled SQUOTE body ++ rest)) as HS
      by (by apply Step_single_escape).
    rewrite run_cons, (Step_step _ _ _ _ _ HS) by done. simpl.
    rewrite IH; [|by eapply Step_wf|done]. by rewrite !append_all_append.
  - apply N.eqb_neq in Hc. cbn [app].
    assert (Step st c (doubled SQUOTE body ++ rest) (append [c] st)
              (doubled SQUOTE body ++ rest)) as HS
      by (by apply Step_single_body).
    rewrite run_cons, (Step_step _ _ _ _ _ HS) by done. simpl.
    rewrite IH; [|by eapply Step_wf|done]. by rewrite append_all_append.
Qed.

Lemma run_double_doubled (body rest : str) (st : lexer) :
  wf st -> in_double st = true ->
  run st (doubled DQUOTE body ++ rest) = run (append_all (chars (doubled DQUOTE body)) st) rest.
Proof.
  revert st. induction body as [|c body IH]; intros st Hwf Hs.
  { by rewrite append_all_nil. }
  destruct (double_only st Hwf Hs) as (? & ? & ? & ?).
  change (doubled DQUOTE (c :: body))
    with ((if c =? DQUOTE then [DQUOTE; DQUOTE] else [c]) ++ doubled DQUOTE body).
  destruct (c =? DQUOTE) eqn:Hc.
  - apply N.eqb_eq in Hc. subst c. cbn [app].
    assert (Step st DQUOTE (DQUOTE :: doubled DQUOTE body ++ rest)
              (append [DQUOTE] (append [DQUOTE] st)) (doubled DQUOTE body ++ rest)) as HS
      by (by apply Step_double_escape).
    rewrite run_cons, (Step_step _ _ _ _ _ HS) by done. simpl.
    rewrite IH; [|by eapply Step_wf|done]. by rewrite !append_all_append.
  - apply N.eqb_neq in Hc. cbn [app].
    assert (Step st c (doubled DQUOTE body ++ rest) (append [c] st)
              (doubled DQUOTE body ++ rest)) as HS
      by (by apply Step_double_body).
    rewrite run_cons, (Step_step _ _ _ _ _ HS) by done. simpl.
    rewrite IH; [|by eapply Step_wf|done]. by rewrite append_all_append.
Qed.

(** X3: a doubled quote does not end a literal.  A single-quoted literal in
    whose body every ['] is written twice, and likewise a double-quoted
    identifier, stays in one statement, verbatim, whatever else the body
    holds. *)
Theorem doubled_quote_stays_in_literal (body : str) :
  _split_sql_statements (text_of "SELECT '" ++ doubled SQUOTE body ++ text_of "';") =
  [text_of "SELECT '" ++ doubled SQUOTE body ++ text_of "'"] /\
  _split_sql_statements (text_of "SELECT " ++ [DQUOTE] ++ doubled DQUOTE body ++ [DQUOTE; SEMI]) =
  [text_of "SELECT " ++ [DQUOTE] ++ doubled DQUOTE body ++ [DQUOTE]].
Proof.
  split.
  - unfold _split_sql_statements.
    change (text_of "SELECT '") with [83; 69; 76; 69; 67; 84; 32; 39].
    change (text_of "';") with [39; 59]. change (text_of "'") with [39].
    pose proof wf_init as Hwf. simpl.
    do 8 run_step Hwf.
    rewrite run_single_doubled by done.
    apply (wf_append_chars (doubled SQUOTE body)) in Hwf.
    do 2 run_step Hwf. rewrite run_nil.
    cbn. unfold emit. rewrite !join_cons, join_app, join_chars. cbn [app join concat].
    rewrite (strip_fixed _ 83 39); [done|done|done| |done].
    by rewrite !app_comm_cons, last_snoc.
  - unfold _split_sql_statements.
    change (text_of "SELECT ") with [83; 69; 76; 69; 67; 84; 32].
    pose proof wf_init as Hwf. simpl.
    do 8 run_step Hwf.
    rewrite run_double_doubled by done.
    apply (wf_append_chars (doubled DQUOTE body)) in Hwf.
    do 2 run_step Hwf. rewrite run_nil.
    cbn. unfold emit. rewrite !join_cons, join_app, join_chars. cbn [app join concat].
    rewrite (strip_fixed _ 83 34); [done|done|done| |done].
    by rewrite !app_comm_cons, last_snoc.
Qed.

(** A whole dollar-quoted region, from its opening tag to the same tag
    again, goes into the buffer as it stands. *)
Lemma run_dollar_region (tag body rest : str) (st : lexer) :
  wf st -> normal st = true -> is_tag tag -> Forall (fun c => c <> DOLLAR) body ->
  run st (tag ++ body ++ tag ++ rest) = run (append_all (tag :: chars body ++ [tag]) st) rest.
Proof.
  intros Hwf Hn Htag Hb.
  pose proof Htag as (t & Ht & Htc).
  assert (exists tl, tag = DOLLAR :: tl) as [tl Htl] by (rewrite Ht; by eexists).
  assert (Step st DOLLAR (tl ++ body ++ tag ++ rest)
            (set_dollar (Some tag) (append tag st)) (body ++ tag ++ rest)) as HS.
  { replace (body ++ tag ++ rest)
      with (drop (length tag) (DOLLAR :: tl ++ body ++ tag ++ rest)) at 2.
    - apply Step_dollar_open; [done|done|].
      rewrite app_comm_cons, <- Htl. by apply dollar_match_tag.
    - rewrite app_comm_cons, <- Htl. apply drop_app_length'. }
  assert (forall X, tag ++ X = DOLLAR :: tl ++ X) as Hcons by (intros X; by rewrite Htl).
  rewrite (Hcons (body ++ tag ++ rest)).
  rewrite run_cons, (Step_step _ _ _ _ _ HS) by done. simpl.
  apply Step_wf in HS; [|done].
  rewrite (run_dollar_body body (tag ++ rest) _ tag) by done.
  apply (wf_append_chars body) in HS.
  destruct (normal_flags st Hn) as (H1 & H2 & H3 & H4 & H5).
  assert (Step (append_all (chars body) (set_dollar (Some tag) (append tag st)))
            DOLLAR (tl ++ rest)
            (set_dollar None
               (append tag (append_all (chars body) (set_dollar (Some tag) (append tag st)))))
            rest) as HS2.
  { replace rest with (drop (length tag) (DOLLAR :: tl ++ rest)) at 2.
    - apply (Step_dollar_end _ _ _ tag); try done.
      apply startswith_true. exists rest. by rewrite Htl.
    - rewrite app_comm_cons, <- Htl. apply drop_app_length'. }
  rewrite (Hcons rest).
  rewrite run_cons, (Step_step _ _ _ _ _ HS2) by done. simpl.
  f_equal. destruct st as [s b i1 i2 i3 i4 d]. simpl in *. subst.
  unfold set_dollar, append, append_all. simpl. by rewrite <- !app_assoc.
Qed.

(** X4: a dollar-quoted region with a tag.  Between [$t$] and the next
    [$t$], for any tag [t] of letters, digits and [_], a body free of [$]
    is kept verbatim, semicolons included, and the delimiters with it. *)
Theorem dollar_region_is_verbatim (t body : str) :
  forallb is_tag_char t = true -> Forall (fun c => c <> DOLLAR) body ->
  let tag := DOLLAR :: t ++ [DOLLAR] in
  _split_sql_statements (text_of "SELECT " ++ tag ++ body ++ tag ++ [SEMI]) =
  [text_of "SELECT " ++ tag ++ body ++ tag].
Proof.
  intros Ht Hb tag. unfold _split_sql_statements.
  assert (is_tag tag) as Htag by (by exists t).
  clearbody tag.
  change (text_of "SELECT ") with [83; 69; 76; 69; 67; 84; 32].
  pose proof wf_init as Hwf. cbn [app].
  do 7 run_step Hwf.
  rewrite run_dollar_region by done.
  match goal with
  | |- context [run ?s [SEMI]] => assert (wf s) as Hwf'
  end.
  { split; [done| |unfold mode_count; simpl; lia]. simpl.
    repeat first [apply List.Forall_cons | apply List.Forall_nil]; try (left; by eexists).
    - by right.
    - apply Forall_app. split; [apply (wf_buf _ (wf_append_chars body init wf_init))|].
      constructor; [by right|constructor]. }
  run_step Hwf'. rewrite run_nil.
  cbn. unfold emit. rewrite !join_cons, join_app, join_chars. cbn [app join concat].
  rewrite app_nil_r.
  rewrite (strip_fixed _ 83 DOLLAR); [done|done|done| |done].
  destruct Htag as (t' & -> & _). rewrite !app_comm_cons, !app_assoc. apply last_snoc.
Qed.

Lemma dollar_region_is_verbatim_witness :
  let t := text_of "body" in
  forallb is_tag_char t = true /\ Forall (fun c => c <> DOLLAR) (text_of " x; y ") /\
  _split_sql_statements (text_of "SELECT $body$ x; y $body$;") =
  [text_of "SELECT $body$ x; y $body$"].
Proof.
  intros t. assert (forallb is_tag_char t = true) as H1 by (by vm_compute).
  assert (Forall (fun c => c <> DOLLAR) (text_of " x; y ")) as H2.
  { apply Forall_forall. intros c Hc. vm_compute in Hc.
    repeat (apply elem_of_cons in Hc as [->|Hc]; [done|]). by apply elem_of_nil in Hc. }
  split; [exact H1|]. split; [exact H2|].
  exact (dollar_region_is_verbatim t (text_of " x; y ") H1 H2).
Defined.

(** X5: a quote that is never closed swallows the rest of the text.  After
    a Normal-mode semicolon, a ['] (or a double quote) with no closing
    partner takes everything up to the end of the text, semicolons included,
    into one final statement, trimmed on the right; no error is raised. *)
Theorem unterminated_quote_swallows_rest (pre body : str) :
  normal (run init pre) = true ->
  (Forall (fun c => c <> SQUOTE) body ->
   _split_sql_statements (pre ++ SEMI :: SQUOTE :: body) =
   _split_sql_statements pre ++ [SQUOTE :: rstrip body]) /\
  (Forall (fun c => c <> DQUOTE) body ->
   _split_sql_statements (pre ++ SEMI :: DQUOTE :: body) =
   _split_sql_statements pre ++ [DQUOTE :: rstrip body]).
Proof.
  intros Hn. split; intros Hb; rewrite split_at_boundary by done; f_equal;
    unfold _split_sql_statements; pose proof wf_init as Hwf; run_step Hwf.
  - assert (run (append [SQUOTE] (set_single true init)) body =
            append_all (chars body) (append [SQUOTE] (set_single true init))) as ->.
    { rewrite <- (app_nil_r body) at 1. by rewrite run_single_body, run_nil. }
    unfold emit. cbn [buf statements append_all append set_single init app].
    rewrite join_cons, join_chars. cbn [app]. unfold strip.
    rewrite lstrip_fixed by done. by rewrite rstrip_cons.
  - assert (run (append [DQUOTE] (set_double true init)) body =
            append_all (chars body) (append [DQUOTE] (set_double true init))) as ->.
    { rewrite <- (app_nil_r body) at 1. by rewrite run_double_body, run_nil. }
    unfold emit. cbn [buf statements append_all append set_double init app].
    rewrite join_cons, join_chars. cbn [app]. unfold strip.
    rewrite lstrip_fixed by done. by rewrite rstrip_cons.
Qed.

Lemma unterminated_quote_swallows_rest_witness :
  let pre := text_of "SELECT 1" in
  let body := text_of "a; SELECT 2; " in
  normal (run init pre) = true /\ Forall (fun c => c <> SQUOTE) body /\
  _split_sql_statements (pre ++ SEMI :: SQUOTE :: body) =
  [text_of "SELECT 1"; text_of "'a; SELECT 2;"].
Proof.
  intros pre body. assert (normal (run init pre) = true) as H1 by (by vm_compute).
  assert (Forall (fun c => c <> SQUOTE) body) as H2.
  { apply Forall_forall. intros c Hc. vm_compute in Hc.
    repeat (apply elem_of_cons in Hc as [->|Hc]; [done|]). by apply elem_of_nil in Hc. }
  split; [exact H1|]. split; [exact H2|].
  destruct (unterminated_quote_swallows_rest pre body H1) as [H _].
  rewrite (H H2). by vm_compute.
Defined.

Lemma emit_filter (stmts : list str) (b : list str) :
  emit stmts b = stmts ++ filter (fun s => s <> []) [strip (join b)].
Proof.
  unfold emit. destruct (strip (join b)) as [|c s].
  - rewrite filter_cons_False by (intros H; by apply H). by rewrite app_nil_r.
  - by rewrite filter_cons_True.
Qed.

Lemma split_on_nonempty (sep : char) (s : str) : split_on sep s <> [].
Proof.
  destruct s as [|c s]; [done|]. simpl.
  destruct (c =? sep); [done|]. by destruct (split_on sep s).
Qed.

Lemma plain_spec (c : char) :
  plain c = true ->
  c <> SQUOTE /\ c <> DQUOTE /\ c <> DOLLAR /\ c <> DASH /\ c <> SLASH.
Proof.
  unfold plain. rewrite negb_true_iff, !orb_false_iff, !N.eqb_neq. tauto.
Qed.

Lemma run_plain (text : str) (st : lexer) :
  wf st -> normal st = true -> forallb plain text = true ->
  emit (statements (run st text)) (buf (run st text)) =
  statements st ++
  filter (fun s => s <> []) (map strip (continue_piece (join (buf st)) (split_on SEMI text))).
Proof.
  revert st. induction text as [|c text IH]; intros st Hwf Hn Hp.
  { rewrite run_nil. simpl. rewrite app_nil_r. apply emit_filter. }
  simpl in Hp. apply andb_true_iff in Hp as [Hc Hp].
  destruct (plain_spec c Hc) as (H1 & H2 & H3 & H4 & H5).
  cbn [split_on]. destruct (c =? SEMI) eqn:Hsemi.
  - apply N.eqb_eq in Hsemi. subst c.
    pose proof (Step_boundary st SEMI text Hn eq_refl) as HS.
    rewrite run_cons, (Step_step _ _ _ _ _ HS) by done. cbn [fst snd].
    rewrite IH; [|by eapply Step_wf|exact Hn|done].
    cbn [flush statements buf join concat]. rewrite emit_filter, <- app_assoc. f_equal.
    cbn [continue_piece]. rewrite app_nil_r.
    destruct (split_on SEMI text) as [|p ps] eqn:E; [by apply split_on_nonempty in E|].
    cbn [continue_piece app map]. symmetry.
    apply (filter_app _ [strip (join (buf st))]).
  - apply N.eqb_neq in Hsemi.
    assert (Step st c text (append [c] st) text) as HS.
    { apply Step_text; try done; by intros []. }
    rewrite run_cons, (Step_step _ _ _ _ _ HS) by done. cbn [fst snd].
    rewrite IH; [|by eapply Step_wf|exact Hn|done].
    cbn [statements append]. f_equal. f_equal. f_equal.
    rewrite join_append.
    destruct (split_on SEMI text) as [|p ps] eqn:E; [by apply split_on_nonempty in E|].
    cbn [continue_piece]. by rewrite <- app_assoc.
Qed.

(** X6: on text without quotes, [$], [-] and [/] the splitter agrees with
    the naive split: cut at every [;], trim the pieces, drop the blank
    ones. *)
Theorem plain_text_splits_naively (text : str) :
  forallb plain text = true -> _split_sql_statements text = naive_split text.
Proof.
  intros Hp. unfold _split_sql_statements, naive_split.
  rewrite (run_plain text init wf_init normal_init Hp). simpl.
  by destruct (split_on SEMI text) as [|p ps] eqn:E; [apply split_on_nonempty in E|].
Qed.

Lemma plain_text_splits_naively_witness :
  let text := text_of " SELECT 1 ;; SELECT a, b FROM t ; " in
  forallb plain text = true /\
  _split_sql_statements text = naive_split text /\
  naive_split text = [text_of "SELECT 1"; text_of "SELECT a, b FROM t"].
Proof.
  intros text. assert (forallb plain text = true) as H by (by vm_compute).
  split; [exact H|]. split; [exact (plain_text_splits_naively text H)|]. by vm_compute.
Defined.

(** X10: joining and splitting is a round trip on statements that stand on
    their own.  If each statement of a list splits into itself and leaves
    the scanner in Normal mode, then joining the list with [;] and splitting
    gives the list back. *)
Theorem join_then_split_round_trip (l : list str) :
  Forall stable l -> _split_sql_statements (join_semi l) = l.
Proof. apply resplit_stable. Qed.

Lemma join_then_split_round_trip_witness :
  let l := [text_of "SELECT 'a;b'"; text_of "SELECT $$c;d$$"; text_of "SELECT 3"] in
  Forall stable l /\
  _split_sql_statements (text_of "SELECT 'a;b';SELECT $$c;d$$;SELECT 3") = l.
Proof.
  intros l.
  assert (Forall stable l) as H by (repeat constructor; by vm_compute).
  split; [exact H|]. exact (join_then_split_round_trip l H).
Defined.

(** X11: for a text that ends with no quote and no dollar region open,
    every statement the splitter produces splits into itself: fed to the
    splitter again it comes back as the one statement, and its scan ends in
    Normal mode. *)
Theorem statements_split_into_themselves (text s : str) :
  balanced text -> In s (_split_sql_statements text) ->
  _split_sql_statements s = [s] /\ normal (run init s) = true.
Proof.
  intros Hb Hin. pose proof (split_stable text Hb) as H.
  rewrite List.Forall_forall in H. exact (H s Hin).
Qed.

Lemma statements_split_into_themselves_witness :
  let text := text_of "SELECT 'a;b' /* c;d */ FROM t; SELECT 2" in
  let s := text_of "SELECT 'a;b'  FROM t" in
  balanced text /\ In s (_split_sql_statements text) /\ _split_sql_statements s = [s].
Proof.
  intros text s.
  assert (balanced text) as H1 by (by vm_compute).
  assert (In s (_split_sql_statements text)) as H2 by (vm_compute; auto).
  split; [exact H1|]. split; [exact H2|].
  exact (proj1 (statements_split_into_themselves text s H1 H2)).
Defined.

Local Close Scope N_scope.

(** ** The plan distiller and the runner *)

Arguments flatten : simpl never.

Arguments size : simpl never.

Arguments plan_item : simpl never.

Lemma list_max_le (l : list nat) (x : nat) : In x l -> (x <= list_max l)%nat.
Proof.
  induction l as [|a l IH]; [done|]. simpl. intros [->|H]; [lia|].
  specialize (IH H). lia.
Qed.

Lemma dict_lookup_height (key : string) (d : dict) (v : json) :
  dict_lookup key d = Some v -> (height v < height (JDict d))%nat.
Proof.
  intros H. simpl. apply Nat.lt_succ_r. apply list_max_le.
  induction d as [|[k w] d IH]; [done|]. simpl in *.
  destruct (String.eqb k key); [injection H as ->; by left|]. right. by apply IH.
Qed.

Lemma dicts_of_In (l : list json) (c : dict) : In c (dicts_of l) -> In (JDict c) l.
Proof.
  unfold dicts_of. induction l as [|v l IH]; [done|]. simpl.
  destruct v; simpl; auto. intros [->|H]; auto.
Qed.

Lemma children_height (node c : dict) :
  In c (children node) -> (height (JDict c) < height (JDict node))%nat.
Proof.
  unfold children, plans_of, dict_get_default.
  destruct (dict_lookup "Plans" node) as [v|] eqn:E; [|done].
  pose proof (dict_lookup_height _ _ _ E) as Hv.
  destruct (truthy v); [|done].
  destruct v as [| | | |s|l|kvs]; simpl; try done.
  - intros H%dicts_of_In. apply in_map_iff in H as (? & ? & _). done.
  - intros H%dicts_of_In.
    assert (height (JDict c) <= list_max (map height l))%nat
      by (apply list_max_le, in_map_iff; eauto).
    simpl in *. lia.
  - intros H%dicts_of_In. apply in_map_iff in H as (? & ? & _). done.
Qed.

Lemma flat_map_ext_In {A B} (f g : A -> list B) (l : list A) :
  (forall x, In x l -> f x = g x) -> flat_map f l = flat_map g l.
Proof.
  induction l as [|a l IH]; [done|]. intros H. simpl.
  rewrite (H a) by by left. f_equal. apply IH. intros x Hx. apply H. by right.
Qed.

(** With fuel for the whole subtree, more fuel changes nothing. *)
Lemma preorder_fuel (fuel : nat) (node : dict) (depth : nat) :
  (height (JDict node) <= fuel)%nat ->
  preorder fuel node depth = preorder (height (JDict node)) node depth.
Proof.
  revert node depth. induction (lt_wf fuel) as [fuel _ IH]. intros node depth Hf.
  destruct fuel as [|fuel]; [simpl in Hf; lia|].
  destruct (height (JDict node)) as [|h] eqn:Hh; [done|].
  simpl. f_equal. apply flat_map_ext_In. intros c Hc.
  pose proof (children_height _ _ Hc) as Hlt.
  rewrite (IH fuel) by lia. symmetry. rewrite (IH h) by lia. done.
Qed.

Lemma count_fuel (fuel : nat) (node : dict) :
  (height (JDict node) <= fuel)%nat ->
  count_nodes fuel node = count_nodes (height (JDict node)) node.
Proof.
  revert node. induction (lt_wf fuel) as [fuel _ IH]. intros node Hf.
  destruct fuel as [|fuel]; [simpl in Hf; lia|].
  destruct (height (JDict node)) as [|h] eqn:Hh; [done|].
  simpl. do 2 f_equal. apply map_ext_in. intros c Hc.
  pose proof (children_height _ _ Hc) as Hlt.
  rewrite (IH fuel) by lia. symmetry. rewrite (IH h) by lia. done.
Qed.

Lemma flatten_eq (node : dict) (depth : nat) :
  flatten node depth =
  plan_item node depth :: flat_map (fun c => flatten c (S depth)) (children node).
Proof.
  unfold flatten. destruct (height (JDict node)) as [|h] eqn:Hh; [done|].
  simpl. f_equal. apply flat_map_ext_In. intros c Hc.
  pose proof (children_height _ _ Hc) as Hlt. apply preorder_fuel. lia.
Qed.

Lemma size_eq (node : dict) : size node = S (list_sum (map size (children node))).
Proof.
  unfold size. destruct (height (JDict node)) as [|h] eqn:Hh; [done|].
  simpl. do 2 f_equal. apply map_ext_in. intros c Hc.
  pose proof (children_height _ _ Hc) as Hlt. apply count_fuel. lia.
Qed.

Lemma preorder_length (fuel : nat) (node : dict) (depth : nat) :
  length (preorder fuel node depth) = count_nodes fuel node.
Proof.
  revert node depth. induction fuel as [|fuel IH]; intros node depth; [done|].
  simpl. f_equal. induction (children node) as [|c cs IHc]; [done|].
  simpl. rewrite length_app, IH. by f_equal.
Qed.

Lemma extract_unfold (limit : nat) (node : dict) (depth : nat) (out : list dict) :
  _extract_plan_nodes (S limit) node depth out =
  match elements (plans_of node) with
  | Raise e => Raise e
  | Ok l => fold_left (visit limit depth) l (Ok (out ++ [plan_item node depth]))
  end.
Proof. done. Qed.

Lemma visit_children (limit depth : nat) (l : list json) (out : list dict) :
  (forall c, In c (dicts_of l) -> forall out,
     _extract_plan_nodes limit c (depth + 1) out = Ok (out ++ preorder limit c (S depth))) ->
  fold_left (visit limit depth) l (Ok out) =
  Ok (out ++ flat_map (fun c => preorder limit c (S depth)) (dicts_of l)).
Proof.
  revert out. induction l as [|v l IH]; intros out H.
  { simpl. by rewrite app_nil_r. }
  simpl. destruct v; try (by apply IH).
  unfold dicts_of in *. simpl in *. rewrite H by by left.
  rewrite IH by (intros; apply H; by right). by rewrite <- app_assoc.
Qed.

(** On a plan tree, within its recursion budget, the walk appends the
    preorder listing of the subtree. *)
Lemma extract_preorder (limit : nat) (node : dict) (depth : nat) (out : list dict) :
  (height (JDict node) <= limit)%nat -> well_formed node ->
  _extract_plan_nodes limit node depth out = Ok (out ++ preorder limit node depth).
Proof.
  revert node depth out. induction limit as [|limit IH]; intros node depth out Hh Hwf.
  { simpl in Hh. lia. }
  rewrite extract_unfold. destruct Hwf as [node l Hl Hch].
  unfold children in *. rewrite Hl in *.
  rewrite visit_children.
  - simpl. unfold children. rewrite Hl. by rewrite <- app_assoc.
  - intros c Hc out'. replace (S depth) with (depth + 1)%nat by lia. apply IH.
    + assert (In c (children node)) as Hc' by (unfold children; by rewrite Hl).
      pose proof (children_height _ _ Hc'). lia.
    + rewrite Forall_forall in Hch. apply Hch. by apply list_elem_of_In.
Qed.

Lemma distill_nodes (plan top : dict) :
  dict_get "Plan" plan = JDict top -> well_formed top ->
  _distill_plan plan =
  Ok [("planning_time_ms", dict_get "Planning Time" plan);
      ("execution_time_ms", dict_get "Execution Time" plan);
      ("top_actual_rows", dict_get "Actual Rows" top);
      ("plan_nodes", JList (map JDict (flatten top 0)))].
Proof.
  intros Hp Hwf. unfold _distill_plan, _summarize_plan. rewrite Hp.
  assert (height (JDict top) < height (JDict plan))%nat as Hlt.
  { unfold dict_get, dict_get_default in Hp.
    destruct (dict_lookup "Plan" plan) as [v|] eqn:E; [|done]. subst v.
    by eapply dict_lookup_height. }
  rewrite extract_preorder by (done || lia).
  rewrite preorder_fuel by lia. done.
Qed.

Lemma flat_map_app' {A B} (f : A -> list B) (l1 l2 : list A) :
  flat_map f (l1 ++ l2) = flat_map f l1 ++ flat_map f l2.
Proof. apply flat_map_app. Qed.

(** The subtree of a node reached by a path is a block of the listing. *)
Lemma flatten_at_path (path : list nat) (node n : dict) (depth : nat) :
  at_path node path = Some n ->
  exists l1 l2, flatten node depth = l1 ++ flatten n (depth + length path) ++ l2.
Proof.
  revert node depth. induction path as [|j path IH]; intros node depth H.
  { injection H as ->. exists [], []. simpl. by rewrite app_nil_r, Nat.add_0_r. }
  simpl in H. destruct (children node !! j) as [c|] eqn:Hj; [|done].
  destruct (IH c (S depth) H) as (l1 & l2 & Hc).
  apply list_elem_of_split_length in Hj as (cs1 & cs2 & Hcs & _).
  replace (depth + length (j :: path))%nat with (S depth + length path)%nat
    by (simpl; lia).
  rewrite flatten_eq, Hcs, flat_map_app'. cbn [flat_map]. rewrite Hc.
  exists (plan_item node depth :: flat_map (fun c => flatten c (S depth)) cs1 ++ l1),
         (l2 ++ flat_map (fun c => flatten c (S depth)) cs2).
  cbn [app]. by rewrite <- !app_assoc.
Qed.

Lemma lookup_middle {A} (l1 l2 : list A) (x : A) : (l1 ++ x :: l2) !! length l1 = Some x.
Proof. by rewrite list_lookup_middle. Qed.

(** Two children of a node: both come after it, in their source order. *)
Lemma flatten_siblings (node c1 c2 : dict) (depth j1 j2 : nat) :
  (j1 < j2)%nat -> children node !! j1 = Some c1 -> children node !! j2 = Some c2 ->
  exists i1 i2, (0 < i1 < i2)%nat /\
    flatten node depth !! i1 = Some (plan_item c1 (S depth)) /\
    flatten node depth !! i2 = Some (plan_item c2 (S depth)).
Proof.
  intros Hlt H1 H2.
  apply list_elem_of_split_length in H1 as (cs1 & cs2 & Hcs & Hl1).
  rewrite Hcs in H2. rewrite lookup_app_r in H2 by lia.
  destruct (j2 - length cs1)%nat as [|m] eqn:Hm; [lia|]. simpl in H2.
  apply list_elem_of_split_length in H2 as (cs3 & cs4 & Hcs2 & Hl2).
  rewrite (flatten_eq node), Hcs, Hcs2.
  rewrite !flat_map_app'. cbn [flat_map]. rewrite !flat_map_app'. cbn [flat_map].
  rewrite (flatten_eq c1), (flatten_eq c2).
  set (A := flat_map (fun c => flatten c (S depth)) cs1).
  set (C := flat_map (fun c => flatten c (S depth)) cs3).
  set (D := flat_map (fun c => flatten c (S depth)) cs4).
  set (r1 := flat_map (fun c => flatten c (S (S depth))) (children c1)).
  set (r2 := flat_map (fun c => flatten c (S (S depth))) (children c2)).
  set (p0 := plan_item node depth). set (p1 := plan_item c1 (S depth)).
  set (p2 := plan_item c2 (S depth)).
  exists (length (p0 :: A)), (length ((p0 :: A) ++ (p1 :: r1) ++ C)).
  split; [rewrite !length_app; simpl; lia|]. split.
  - apply (lookup_middle (p0 :: A)).
  - replace (p0 :: A ++ ((p1 :: r1) ++ C ++ (p2 :: r2) ++ D))
      with (((p0 :: A) ++ (p1 :: r1) ++ C) ++ p2 :: r2 ++ D)
      by (rewrite <- !app_assoc; reflexivity).
    apply lookup_middle.
Qed.

Lemma flatten_child (node c : dict) (depth j : nat) :
  children node !! j = Some c ->
  exists i, (0 < i)%nat /\ flatten node depth !! i = Some (plan_item c (S depth)).
Proof.
  intros H1.
  apply list_elem_of_split_length in H1 as (cs1 & cs2 & Hcs & Hl1).
  exists (S (length (flat_map (fun c => flatten c (S depth)) cs1))).
  rewrite flatten_eq, Hcs, flat_map_app'. cbn [flat_map]. rewrite (flatten_eq c). cbn [app].
  split; [lia|]. apply (lookup_middle (_ :: _)).
Qed.

Lemma lookup_block {A} (l1 l l2 : list A) (i : nat) (x : A) :
  l !! i = Some x -> (l1 ++ l ++ l2) !! (length l1 + i)%nat = Some x.
Proof.
  intros H. rewrite lookup_app_r by lia.
  replace (length l1 + i - length l1)%nat with i by lia.
  by apply lookup_app_l_Some.
Qed.

(** Everything listed is a node of the tree, at the depth of its path. *)
Lemma flatten_elem (fuel : nat) (node item : dict) (depth : nat) :
  In item (preorder fuel node depth) ->
  exists path n, at_path node path = Some n /\ item = plan_item n (depth + length path).
Proof.
  revert node depth. induction fuel as [|fuel IH]; intros node depth; [done|].
  simpl. intros [<-|H].
  { exists [], node. simpl. by rewrite Nat.add_0_r. }
  apply in_flat_map in H as (c & Hc & Hin).
  destruct (IH _ _ Hin) as (path & n & Hp & ->).
  apply list_elem_of_In, list_elem_of_lookup in Hc as [j Hj].
  exists (j :: path), n. simpl. rewrite Hj. split; [done|].
  by replace (depth + S (length path))%nat with (S depth + length path)%nat by lia.
Qed.

Lemma dict_lookup_set (k key : string) (value : json) (d : dict) :
  dict_lookup k (dict_set key value d) =
  if String.eqb key k then Some value else dict_lookup k d.
Proof.
  induction d as [|[k' v'] d IH]; simpl.
  - by destruct (String.eqb key k).
  - destruct (String.eqb k' key) eqn:E; simpl.
    + apply String.eqb_eq in E as ->. by destruct (String.eqb key k).
    + rewrite IH. destruct (String.eqb k' k) eqn:E2; [|done].
      apply String.eqb_eq in E2 as ->. by rewrite String.eqb_sym, E.
Qed.

Lemma lookup_add_if_present (k key out_key : string) (payload node : dict) :
  dict_lookup k (_add_if_present payload node key out_key) =
  if String.eqb out_key k
  then match present key node with Some v => Some v | None => dict_lookup k payload end
  else dict_lookup k payload.
Proof.
  unfold _add_if_present, present, dict_get, dict_get_default.
  destruct (dict_lookup key node) as [v|]; [|by destruct (String.eqb out_key k)].
  destruct v; rewrite ?dict_lookup_set; by destruct (String.eqb out_key k).
Qed.

(** The repeated calls of [_add_if_present], as one pass over the table. *)
Lemma plan_item_fold (node : dict) (depth : nat) :
  plan_item node depth =
  fold_left (fun item f => _add_if_present item node (fst f) (snd f)) optional_fields
    [("node_type", dict_get "Node Type" node); ("depth", JInt (Z.of_nat depth))].
Proof. reflexivity. Qed.

Lemma lookup_fold (node : dict) (k : string) (table : list (string * string))
    (payload : dict) :
  dict_lookup k (fold_left (fun item f => _add_if_present item node (fst f) (snd f))
                   table payload) =
  fold_left (override node k) table (dict_lookup k payload).
Proof.
  revert payload. induction table as [|f table IH]; intros payload; [done|].
  simpl. rewrite IH, lookup_add_if_present. done.
Qed.

Lemma override_some (node : dict) (k : string) (table : list (string * string))
    (acc : option json) (v : json) :
  fold_left (override node k) table acc = Some v ->
  acc = Some v \/ exists key, In (key, k) table /\ present key node = Some v.
Proof.
  revert acc. induction table as [|[key out] table IH]; intros acc H; [by left|].
  simpl in H. apply IH in H as [H|(key' & Hin & Hp)].
  - unfold override in H. simpl in H.
    destruct (String.eqb_spec out k) as [->|Hne]; [|by left].
    destruct (present key node) as [w|] eqn:E; [|by left].
    right. exists key. split; [by left|congruence].
  - right. exists key'. split; [by right|done].
Qed.

Lemma plan_item_base (node : dict) (depth : nat) :
  dict_get "node_type" (plan_item node depth) = dict_get "Node Type" node /\
  dict_get "depth" (plan_item node depth) = JInt (Z.of_nat depth).
Proof.
  unfold dict_get, dict_get_default. rewrite plan_item_fold, !lookup_fold. done.
Qed.

Lemma plan_item_optional (node : dict) (depth : nat) (key out_key : string) :
  In (key, out_key) optional_fields ->
  dict_lookup out_key (plan_item node depth) = present key node.
Proof.
  intros Hin. rewrite plan_item_fold, lookup_fold.
  unfold optional_fields in Hin. simpl in Hin.
  repeat (destruct Hin as [[= <- <-]|Hin];
          [cbn; unfold override; cbn;
           by destruct (present _ node)|]).
  destruct Hin.
Qed.

Lemma plan_item_keys (node : dict) (depth : nat) (k : string) (v : json) :
  dict_lookup k (plan_item node depth) = Some v ->
  (k = "node_type" /\ v = dict_get "Node Type" node) \/
  (k = "depth" /\ v = JInt (Z.of_nat depth)) \/
  exists key, In (key, k) optional_fields /\ present key node = Some v.
Proof.
  rewrite plan_item_fold, lookup_fold. intros [H|H]%override_some; [|auto].
  cbn [dict_lookup] in H.
  destruct (String.eqb_spec "node_type" k) as [<-|_]; [left; split; congruence|].
  destruct (String.eqb_spec "depth" k) as [<-|_]; [right; left; split; congruence|].
  done.
Qed.

Lemma flatten_head (node : dict) (depth : nat) :
  flatten node depth !! 0%nat = Some (plan_item node depth).
Proof. by rewrite flatten_eq. Qed.

(** C2: for a plan whose [Plan] child is a plan tree, distillation succeeds
    and its node list is the preorder flattening of the tree: a node, then
    the subtrees of its children in source order.  The list is as long as
    the tree has nodes, its first element is the root at depth 0, every node
    is recorded at the length of its path from the root, so a child is one
    deeper than its parent, comes after it, and siblings keep their order;
    and every element of the list stems from a node of the tree. *)
Theorem distill_walks_preorder (plan top : dict) :
  dict_get "Plan" plan = JDict top -> well_formed top ->
  exists nodes,
    _distill_plan plan =
      Ok [("planning_time_ms", dict_get "Planning Time" plan);
          ("execution_time_ms", dict_get "Execution Time" plan);
          ("top_actual_rows", dict_get "Actual Rows" top);
          ("plan_nodes", JList (map JDict nodes))] /\
    nodes = flatten top 0 /\
    (forall node depth,
       flatten node depth =
       plan_item node depth :: flat_map (fun c => flatten c (S depth)) (children node)) /\
    length nodes = size top /\
    (forall node, size node = S (list_sum (map size (children node)))) /\
    head nodes = Some (plan_item top 0) /\
    (forall node depth, dict_get "depth" (plan_item node depth) = JInt (Z.of_nat depth)) /\
    (forall path n,
       at_path top path = Some n ->
       exists i,
         nodes !! i = Some (plan_item n (length path)) /\
         (forall j c,
            children n !! j = Some c ->
            exists i', (i < i')%nat /\ nodes !! i' = Some (plan_item c (S (length path)))) /\
         (forall j1 j2 c1 c2,
            (j1 < j2)%nat -> children n !! j1 = Some c1 -> children n !! j2 = Some c2 ->
            exists i1 i2, (i < i1 < i2)%nat /\
              nodes !! i1 = Some (plan_item c1 (S (length path))) /\
              nodes !! i2 = Some (plan_item c2 (S (length path))))) /\
    (forall item,
       In item nodes ->
       exists path n, at_path top path = Some n /\ item = plan_item n (length path)).
Proof.
  intros Hp Hwf. exists (flatten top 0).
  split; [by apply distill_nodes|]. split; [done|].
  split; [apply flatten_eq|]. split; [apply preorder_length|].
  split; [apply size_eq|]. split; [by rewrite flatten_eq|].
  split; [intros; apply plan_item_base|]. split.
  - intros path n Hn.
    destruct (flatten_at_path path top n 0 Hn) as (l1 & l2 & Hf).
    change (0 + length path)%nat with (length path) in Hf.
    exists (length l1). rewrite Hf. split; [|split].
    + rewrite <- (Nat.add_0_r (length l1)). apply lookup_block, flatten_head.
    + intros j c Hc.
      destruct (flatten_child n c (length path) j Hc) as (i & Hi & Hl).
      exists (length l1 + i)%nat. split; [lia|]. by apply lookup_block.
    + intros j1 j2 c1 c2 Hlt H1 H2.
      destruct (flatten_siblings n c1 c2 (length path) j1 j2 Hlt H1 H2)
        as (i1 & i2 & Hi & Hl1 & Hl2).
      exists (length l1 + i1)%nat, (length l1 + i2)%nat.
      split; [lia|]. split; by apply lookup_block.
  - intros item Hin. by apply flatten_elem in Hin.
Qed.

Lemma well_formed_scan (name : string) : well_formed (scan_node name).
Proof. by apply (well_formed_node _ []); [|constructor]. Qed.

Lemma well_formed_sort : well_formed sort_node.
Proof.
  eapply well_formed_node; [reflexivity|].
  repeat constructor; try apply well_formed_scan.
  eapply well_formed_node; [reflexivity|].
  repeat constructor; apply well_formed_scan.
Qed.

Lemma distill_walks_preorder_witness :
  dict_get "Plan" sample_plan = JDict sort_node /\ well_formed sort_node /\
  exists nodes,
    _distill_plan sample_plan =
      Ok [("planning_time_ms", JFloat (1 # 2)); ("execution_time_ms", JNull);
          ("top_actual_rows", JNull); ("plan_nodes", JList (map JDict nodes))] /\
    length nodes = 5%nat /\
    map (dict_get "depth") nodes = [JInt 0; JInt 1; JInt 2; JInt 2; JInt 1].
Proof.
  split; [reflexivity|]. split; [apply well_formed_sort|].
  destruct (distill_walks_preorder sample_plan sort_node eq_refl well_formed_sort)
    as (nodes & Hd & -> & _).
  exists (flatten sort_node 0). split; [exact Hd|]. split; reflexivity.
Defined.

Lemma present_absent (key : string) (node : dict) :
  dict_lookup key node = None -> present key node = None.
Proof. unfold present. by intros ->. Qed.

Lemma present_not_null (key : string) (node : dict) : present key node <> Some JNull.
Proof. unfold present. destruct (dict_lookup key node) as [[]|]; congruence. Qed.

(** C4: an optional field of the allow-list is in the output node only if
    it is present in the source node.  The output field is the source value
    when that is present and not null, and is missing otherwise, never null;
    an output node has no key besides [node_type], [depth] and the copied
    fields; a node without [Filter] gives no [filter]; and every node that
    distillation emits is built in this way from a node of the tree. *)
Theorem optional_fields_only_if_present :
  (forall node depth key out_key,
     In (key, out_key) optional_fields ->
     dict_lookup out_key (plan_item node depth) = present key node /\
     (dict_lookup key node = None -> dict_lookup out_key (plan_item node depth) = None) /\
     dict_lookup out_key (plan_item node depth) <> Some JNull) /\
  (forall node depth k v,
     dict_lookup k (plan_item node depth) = Some v ->
     (k = "node_type" /\ v = dict_get "Node Type" node) \/
     (k = "depth" /\ v = JInt (Z.of_nat depth)) \/
     exists key, In (key, k) optional_fields /\ present key node = Some v) /\
  (forall node depth,
     dict_lookup "Filter" node = None -> dict_lookup "filter" (plan_item node depth) = None) /\
  (forall plan top,
     dict_get "Plan" plan = JDict top -> well_formed top ->
     exists nodes,
       _distill_plan plan =
         Ok [("planning_time_ms", dict_get "Planning Time" plan);
             ("execution_time_ms", dict_get "Execution Time" plan);
             ("top_actual_rows", dict_get "Actual Rows" top);
             ("plan_nodes", JList (map JDict nodes))] /\
       forall item, In item nodes ->
         exists path n, at_path top path = Some n /\ item = plan_item n (length path)).
Proof.
  split; [|split; [|split]].
  - intros node depth key out_key Hin.
    rewrite (plan_item_optional node depth key out_key Hin).
    split; [done|]. split; [apply present_absent|apply present_not_null].
  - apply plan_item_keys.
  - intros node depth H.
    rewrite (plan_item_optional node depth "Filter" "filter").
    + by apply present_absent.
    + unfold optional_fields. simpl. tauto.
  - intros plan top Hp Hwf. exists (flatten top 0).
    split; [by apply distill_nodes|].
    intros item Hin. by apply flatten_elem in Hin.
Qed.

Lemma optional_fields_only_if_present_witness :
  In ("Filter", "filter") optional_fields /\
  dict_lookup "Filter" join_node = None /\
  dict_lookup "filter" (plan_item join_node 1) = None /\
  dict_lookup "hash_cond" (plan_item join_node 1) = Some (JStr (text_of "a = b")).
Proof.
  assert (In ("Filter", "filter") optional_fields) as H1 by (simpl; tauto).
  assert (In ("Hash Cond", "hash_cond") optional_fields) as H2 by (simpl; tauto).
  destruct optional_fields_only_if_present as (H & _).
  destruct (H join_node 1%nat _ _ H1) as (_ & Ha & _).
  destruct (H join_node 1%nat _ _ H2) as (Hb & _).
  split; [exact H1|]. split; [reflexivity|]. split; [by apply Ha|].
  rewrite Hb. reflexivity.
Defined.

(** C10: a distilled plan has exactly the keys [planning_time_ms],
    [execution_time_ms], [top_actual_rows] and [plan_nodes], in this order.
    The first three hold the source's [Planning Time], [Execution Time] and
    the root's [Actual Rows], null when these are absent, and [plan_nodes]
    is the empty list when [Plan] is not a dict.  Distillation yields such
    a plan for every plan object whose [Plan] child is a plan tree. *)
Theorem distilled_plan_has_four_keys :
  (forall plan,
     well_formed_plan plan ->
     exists nodes,
       _distill_plan plan =
         Ok [("planning_time_ms", dict_get "Planning Time" plan);
             ("execution_time_ms", dict_get "Execution Time" plan);
             ("top_actual_rows", top_rows plan);
             ("plan_nodes", JList nodes)]) /\
  (forall plan d,
     _distill_plan plan = Ok d ->
     dict_keys d = ["planning_time_ms"; "execution_time_ms"; "top_actual_rows"; "plan_nodes"] /\
     dict_get "planning_time_ms" d = dict_get "Planning Time" plan /\
     dict_get "execution_time_ms" d = dict_get "Execution Time" plan /\
     dict_get "top_actual_rows" d = top_rows plan /\
     exists nodes, dict_get "plan_nodes" d = JList nodes) /\
  (forall plan,
     (forall top, dict_get "Plan" plan <> JDict top) ->
     _distill_plan plan =
       Ok [("planning_time_ms", dict_get "Planning Time" plan);
           ("execution_time_ms", dict_get "Execution Time" plan);
           ("top_actual_rows", JNull);
           ("plan_nodes", JList [])]) /\
  (forall plan,
     (dict_lookup "Planning Time" plan = None -> dict_get "Planning Time" plan = JNull) /\
     (dict_lookup "Execution Time" plan = None -> dict_get "Execution Time" plan = JNull) /\
     (forall top, dict_get "Plan" plan = JDict top ->
        dict_lookup "Actual Rows" top = None -> top_rows plan = JNull)).
Proof.
  split; [|split; [|split]].
  - intros plan Hwf. unfold top_rows.
    destruct (dict_get "Plan" plan) as [| | | | | |top] eqn:Hp;
      try (exists []; unfold _distill_plan, _summarize_plan; by rewrite Hp).
    exists (map JDict (flatten top 0)). apply distill_nodes; auto.
  - intros plan d. unfold _distill_plan, _summarize_plan, top_rows.
    destruct (dict_get "Plan" plan) as [| | | | | |top] eqn:Hp;
      try (intros [= <-]; split_and!; try done; by eexists).
    destruct (_extract_plan_nodes _ _ _ _); [|done].
    intros [= <-]. split_and!; try done. by eexists.
  - intros plan Hno. unfold _distill_plan, _summarize_plan.
    destruct (dict_get "Plan" plan) as [| | | | | |top] eqn:Hp; try done.
    by destruct (Hno top).
  - intros plan. unfold top_rows, dict_get, dict_get_default. split_and!.
    + by intros ->.
    + by intros ->.
    + intros top -> H. unfold dict_get, dict_get_default. by rewrite H.
Qed.

Lemma distilled_plan_has_four_keys_witness :
  well_formed_plan sample_plan /\
  exists d,
    _distill_plan sample_plan = Ok d /\
    dict_keys d = ["planning_time_ms"; "execution_time_ms"; "top_actual_rows"; "plan_nodes"] /\
    dict_get "execution_time_ms" d = JNull.
Proof.
  assert (well_formed_plan sample_plan) as H.
  { intros top [= <-]. apply well_formed_sort. }
  split; [exact H|].
  destruct distilled_plan_has_four_keys as (H1 & H2 & _).
  destruct (H1 sample_plan H) as (nodes & Hd).
  eexists. split; [exact Hd|]. split; reflexivity.
Defined.

Lemma parse_zeros (k : nat) (s : string) (n : nat) :
  parse_decimal s = Some n -> parse_decimal (zeros k +:+ s) = Some n.
Proof.
  intros H. induction k as [|k IH]; [done|].
  change (zeros (S k) +:+ s) with (String "0" (zeros k +:+ s)).
  unfold parse_decimal in *. cbn [NilEmpty.uint_of_string].
  destruct (NilEmpty.uint_of_string (zeros k +:+ s)) as [d|]; [|done].
  simpl in *. by injection IH as <-.
Qed.

Lemma parse_decimal_decimal (n : nat) : parse_decimal (decimal n) = Some n.
Proof.
  unfold parse_decimal, decimal. rewrite NilEmpty.usu. simpl.
  by rewrite DecimalNat.Unsigned.of_to.
Qed.

Lemma parse_format (n : nat) : parse_decimal (format_03d n) = Some n.
Proof. unfold format_03d, zfill. apply parse_zeros, parse_decimal_decimal. Qed.

Lemma format_03d_inj (n m : nat) : format_03d n = format_03d m -> n = m.
Proof.
  intros H. pose proof (parse_format n) as Hn. rewrite H, parse_format in Hn.
  by injection Hn.
Qed.

Lemma append_inj_l (p s1 s2 : string) : p +:+ s1 = p +:+ s2 -> s1 = s2.
Proof. induction p as [|a p IH]; [done|]. simpl. intros [= H]. by apply IH. Qed.

Lemma list_ascii_app (a b : string) :
  list_ascii_of_string (a +:+ b) = list_ascii_of_string a ++ list_ascii_of_string b.
Proof.
  induction a as [|c a IH]; [done|].
  change (c :: list_ascii_of_string (a +:+ b) =
          c :: list_ascii_of_string a ++ list_ascii_of_string b).
  by rewrite IH.
Qed.

Lemma append_inj_r (s1 s2 q : string) : s1 +:+ q = s2 +:+ q -> s1 = s2.
Proof.
  intros H.
  assert (list_ascii_of_string s1 = list_ascii_of_string s2) as Hl.
  { apply (f_equal list_ascii_of_string) in H.
    rewrite !list_ascii_app in H. by apply app_inv_tail in H. }
  rewrite <- (string_of_list_ascii_of_string s1), <- (string_of_list_ascii_of_string s2).
  by rewrite Hl.
Qed.

Lemma plan_filename_inj (n m : nat) : plan_filename n = plan_filename m -> n = m.
Proof.
  unfold plan_filename. intros H%append_inj_l.
  apply format_03d_inj. by apply (append_inj_r _ _ "_plan.json").
Qed.

Lemma format_03d_digits (n : nat) : (n < 1000)%nat -> format_03d n = three_digits n.
Proof.
  intros H.
  assert (forallb (fun n => String.eqb (format_03d n) (three_digits n)) (seq 0 1000) = true)
    as Hall by (by vm_compute).
  rewrite forallb_forall in Hall. apply String.eqb_eq, Hall, in_seq. lia.
Qed.

Lemma string_app_assoc (a b c : string) : (a +:+ b) +:+ c = a +:+ (b +:+ c).
Proof.
  induction a as [|x a IH]; [done|].
  change (String x ((a +:+ b) +:+ c) = String x (a +:+ (b +:+ c))). by rewrite IH.
Qed.

Lemma path_join_relative (a b : string) :
  String.prefix "/" b = false -> path_join a b = dir_prefix a +:+ b.
Proof.
  intros H. unfold path_join, dir_prefix. rewrite H.
  destruct (String.eqb a "" || ends_with_sep a); [done|]. by rewrite string_app_assoc.
Qed.

Lemma plan_path (out_dir : string) (idx : nat) :
  path_join out_dir (plan_filename idx) = dir_prefix out_dir +:+ plan_filename idx.
Proof. by apply path_join_relative. Qed.

Lemma plan_path_inj (out_dir : string) (n m : nat) :
  path_join out_dir (plan_filename n) = path_join out_dir (plan_filename m) -> n = m.
Proof. rewrite !plan_path. intros H%append_inj_l. by apply plan_filename_inj. Qed.

Lemma last_char_app (a b : string) (c : ascii) :
  last_char b = Some c -> last_char (a +:+ b) = Some c.
Proof.
  unfold last_char. rewrite list_ascii_app. intros H.
  destruct (last_Some (list_ascii_of_string b) c) as [[l' ->] _]; [done|].
  by rewrite app_assoc, last_snoc.
Qed.

Lemma last_char_path_join (a b : string) (c : ascii) :
  last_char b = Some c -> last_char (path_join a b) = Some c.
Proof.
  intros H. unfold path_join.
  destruct (String.prefix "/" b); [done|].
  destruct (String.eqb a "" || ends_with_sep a); repeat apply last_char_app; done.
Qed.

Lemma last_char_plan (out_dir : string) (idx : nat) :
  last_char (path_join out_dir (plan_filename idx)) = Some "n"%char.
Proof.
  apply last_char_path_join. unfold plan_filename. by do 2 apply last_char_app.
Qed.

Lemma last_char_summary (out_dir run_id : string) :
  last_char (summary_path out_dir run_id) = Some "l"%char.
Proof. apply last_char_path_join. by apply last_char_app. Qed.

(** The summary is never one of the plan artifacts. *)
Lemma summary_not_plan (out_dir run_id : string) (idx : nat) :
  summary_path out_dir run_id <> path_join out_dir (plan_filename idx).
Proof.
  intros H. pose proof (last_char_summary out_dir run_id) as Hs.
  rewrite H, last_char_plan in Hs. done.
Qed.

Opaque explain_prefix.

Section RunnerFacts.

Context {DB : Database} {FS : Filesystem}.

(** A statement is processed successfully exactly when the database
    answers with a plan object that distils and the artifact can be written. *)
Lemma run_query_ok (out_dir : string) (idx : nat) (q : str) (w w' : world)
    (r : QueryResult) :
  run_query out_dir idx q w = (w', Ok r) <->
  exists s dt plan d,
    execute (srv w) (explain_prefix ++ q) = (s, dt, Ok (Some (JDict plan))) /\
    _distill_plan plan = Ok d /\
    write_error (dirs w) (fs w) (path_join out_dir (plan_filename idx)) (JsonFile (JDict d))
      = None /\
    w' = after_query out_dir idx q s dt d w /\ r = result_of idx q dt d w.
Proof.
  unfold run_query, bind, perf_counter, _run_explain, bind, cursor_execute, ret, raise,
    _write_json, write_file. simpl.
  destruct (execute (srv w) (explain_prefix ++ q)) as [[s dt] [[row|]|e]] eqn:E; simpl.
  - destruct row as [| | | | | |plan]; simpl;
      try (split; [done|by intros (? & ? & ? & ? & [=] & _)]).
    destruct (_distill_plan plan) as [d|e] eqn:Ed; simpl.
    + destruct (write_error _ _ _ _) as [[e residue]|] eqn:Ew; simpl.
      * split; [done|]. intros (? & ? & ? & ? & [= <- <- <-] & Hd & Hw & _).
        rewrite Ed in Hd. injection Hd as <-. congruence.
      * split.
        -- intros [= <- <-]. by exists s, dt, plan, d.
        -- intros (? & ? & ? & ? & [= <- <- <-] & Hd & _ & -> & ->).
           rewrite Ed in Hd. by injection Hd as <-.
    + split; [done|]. intros (? & ? & ? & ? & [= <- <- <-] & Hd & _). congruence.
  - split; [done|by intros (? & ? & ? & ? & [=] & _)].
  - split; [done|by intros (? & ? & ? & ? & [=] & _)].
Qed.

(** When the database raises, the statement leaves no artifact and the
    error is handed on. *)
Lemma run_query_raises (out_dir : string) (idx : nat) (q : str) (w : world) (s : server)
    (dt : Q) (e : exn) :
  execute (srv w) (explain_prefix ++ q) = (s, dt, Raise e) ->
  exists w', run_query out_dir idx q w = (w', Raise e) /\
    fs w' = fs w /\ submitted w' = submitted w ++ [explain_prefix ++ q] /\
    stdout w' = stdout w /\ dirs w' = dirs w.
Proof.
  intros E. unfold run_query, bind, perf_counter, _run_explain, bind, cursor_execute. simpl.
  rewrite E. simpl. by eexists.
Qed.

Lemma run_loop_cons (out_dir : string) (q : str) (qs : list str) (idx : nat)
    (results : list QueryResult) (w : world) :
  run_loop out_dir idx (q :: qs) results w =
  match run_query out_dir idx q w with
  | (w1, Ok r) => run_loop out_dir (S idx) qs (results ++ [r]) w1
  | (w1, Raise e) => (w1, Raise e)
  end.
Proof. done. Qed.

Lemma run_loop_app (out_dir : string) (pre post : list str) (idx : nat)
    (results : list QueryResult) (w : world) :
  run_loop out_dir idx (pre ++ post) results w =
  match run_loop out_dir idx pre results w with
  | (w1, Ok rs) => run_loop out_dir (idx + length pre) post rs w1
  | (w1, Raise e) => (w1, Raise e)
  end.
Proof.
  revert idx results w. induction pre as [|q pre IH]; intros idx results w.
  { simpl. by rewrite Nat.add_0_r. }
  rewrite <- app_comm_cons, !run_loop_cons.
  destruct (run_query out_dir idx q w) as [w1 [r|e]]; [|done].
  rewrite IH. by replace (S idx + length pre)%nat with (idx + length (q :: pre))%nat
    by (simpl; lia).
Qed.

Lemma run_loop_ok (out_dir : string) (qs : list str) (idx : nat)
    (rs0 : list QueryResult) (w w' : world) (results : list QueryResult) :
  run_loop out_dir idx qs rs0 w = (w', Ok results) ->
  exists new,
    results = rs0 ++ new /\ length new = length qs /\
    map query new = qs /\ map query_index new = seq idx (length qs) /\
    map plan_file new = map plan_filename (seq idx (length qs)) /\
    (forall i q, qs !! i = Some q ->
       exists r, new !! i = Some r /\ processed out_dir (fs w') (idx + i) q r) /\
    (forall p, (forall i, (i < length qs)%nat ->
                  p <> path_join out_dir (plan_filename (idx + i))) ->
       fs w' !! p = fs w !! p) /\
    submitted w' = submitted w ++ map (app explain_prefix) qs /\
    stdout w' = stdout w /\ dirs w' = dirs w.
Proof.
  revert idx rs0 w. induction qs as [|q qs IH]; intros idx rs0 w H.
  { injection H as <- <-. exists []. rewrite !app_nil_r. split_and!; try done. }
  rewrite run_loop_cons in H.
  destruct (run_query out_dir idx q w) as [w1 [r|e]] eqn:Hq; [|done].
  apply run_query_ok in Hq as (s & dt & plan & d & He & Hd & _ & -> & ->).
  apply IH in H as (new & -> & Hlen & Hquery & Hidx & Hfile & Hproc & Hframe & Hsub
                    & Hout & Hdirs).
  exists (result_of idx q dt d w :: new). rewrite <- app_assoc. simpl.
  split_and!; try done; try (by f_equal).
  - intros [|i] q' Hi.
    + injection Hi as <-. exists (result_of idx q dt d w). split; [done|].
      rewrite Nat.add_0_r. split_and!; try done. exists plan, d. split_and!; try done.
      rewrite Hframe; [apply lookup_insert_eq|].
      intros i _ Heq. apply plan_path_inj in Heq. lia.
    + destruct (Hproc i q' Hi) as (r & Hr & Hp). exists r. split; [done|].
      by replace (idx + S i)%nat with (S idx + i)%nat by lia.
  - intros p Hp. rewrite Hframe.
    + simpl. apply lookup_insert_ne. specialize (Hp 0%nat ltac:(lia)).
      rewrite Nat.add_0_r in Hp. congruence.
    + intros i Hi. specialize (Hp (S i) ltac:(lia)).
      by replace (idx + S i)%nat with (S idx + i)%nat in Hp by lia.
  - rewrite Hsub. simpl. by rewrite <- app_assoc.
Qed.

(** The statements of a file, as the loop receives them: the filter of
    [_iter_queries] lets every statement of the splitter through. *)
Lemma iter_queries_all (contents : str) :
  filter (fun statement => strip statement <> []) (_split_sql_statements contents) =
  _split_sql_statements contents.
Proof.
  pose proof (split_trimmed contents) as H.
  induction H as [|s l [Hne Hs] Hl IH]; [done|].
  rewrite filter_cons. rewrite decide_True by (by rewrite Hs). by f_equal.
Qed.

Lemma run_queries_unfold (dsn sql_file out_dir : string) (timeout : option Z) (w : world) :
  _run_queries dsn sql_file out_dir timeout w =
  match entering dsn out_dir timeout w with
  | (w0, Ok _) =>
      match fs w0 !! sql_file with
      | Some (TextFile contents) =>
          run_loop out_dir 1 (_split_sql_statements contents) [] w0
      | _ => (w0, Raise OSError)
      end
  | (w0, Raise e) => (w0, Raise e)
  end.
Proof.
  unfold _run_queries, entering, bind, _iter_queries.
  destruct (_ensure_dir out_dir w) as [w1 [[]|e]]; [|done].
  destruct (db_connect dsn w1) as [w2 [[]|e]]; [|done].
  destruct timeout as [ms|].
  - destruct (cursor_execute (set_timeout_sql ms) w2) as [w3 [r|e]]; [|done]. simpl.
    destruct (fs w3 !! sql_file) as [[contents| |]|]; try done.
    by rewrite iter_queries_all.
  - simpl. destruct (fs w2 !! sql_file) as [[contents| |]|]; try done.
    by rewrite iter_queries_all.
Qed.

Lemma entering_frame (dsn out_dir : string) (timeout : option Z) (w w0 : world)
    (o : outcome unit) :
  entering dsn out_dir timeout w = (w0, o) -> fs w0 = fs w /\ stdout w0 = stdout w.
Proof.
  intros H. assert (w0 = (entering dsn out_dir timeout w).1) as -> by (by rewrite H).
  clear H. unfold entering, bind, _ensure_dir, db_connect, cursor_execute, ret.
  destruct (makedirs_error _ _ _) as [[e made]|]; simpl; [done|].
  destruct (connect (srv w) dsn) as [s [e|]]; simpl; [done|].
  destruct timeout as [ms|]; [|done].
  destruct (execute _ _) as [[s' dt] [r|e]]; simpl; done.
Qed.

End RunnerFacts.

Section RunnerTheorems.

Context {DB : Database} {FS : Filesystem}.

(** C6: a successful run leaves one result and one plan artifact per
    statement of the file, in order.  The results carry the statements and
    the indices 1 to n, result [i] names the file [plan_filename i], which
    is [query_NNN_plan.json] with [NNN] the three digits of [i] below 1000,
    distinct indices give distinct files, each of these files holds the
    distilled plan of its statement, and no other file is touched. *)
Theorem one_result_and_artifact_per_statement (dsn sql_file out_dir : string)
    (timeout : option Z) (w w' : world) (results : list QueryResult) :
  _run_queries dsn sql_file out_dir timeout w = (w', Ok results) ->
  exists contents,
    fs w !! sql_file = Some (TextFile contents) /\
    let qs := _split_sql_statements contents in
    let n := length qs in
    length results = n /\
    map query results = qs /\
    map query_index results = seq 1 n /\
    map plan_file results = map plan_filename (seq 1 n) /\
    NoDup (map (fun i => path_join out_dir (plan_filename i)) (seq 1 n)) /\
    (forall i q, qs !! i = Some q ->
       exists r, results !! i = Some r /\ processed out_dir (fs w') (S i) q r) /\
    (forall p, (forall i, (1 <= i <= n)%nat -> p <> path_join out_dir (plan_filename i)) ->
       fs w' !! p = fs w !! p) /\
    (forall i, (i < 1000)%nat ->
       plan_filename i = "query_" +:+ three_digits i +:+ "_plan.json") /\
    (forall i j, plan_filename i = plan_filename j -> i = j).
Proof.
  rewrite run_queries_unfold.
  destruct (entering dsn out_dir timeout w) as [w0 [[]|e]] eqn:He; [|done].
  destruct (entering_frame _ _ _ _ _ _ He) as [Hfs _]. rewrite Hfs.
  destruct (fs w !! sql_file) as [[contents| |]|]; try done.
  intros (new & -> & Hlen & Hq & Hidx & Hfile & Hproc & Hframe & _)%run_loop_ok.
  exists contents. split; [done|]. simpl. split_and!; try done.
  - apply NoDup_fmap_2; [|apply NoDup_seq]. intros i j. apply plan_path_inj.
  - intros p Hp. rewrite Hframe, Hfs; [done|]. intros i Hi. apply Hp. lia.
  - intros i Hi. unfold plan_filename. by rewrite format_03d_digits.
  - apply plan_filename_inj.
Qed.

(** C5: a statement that the database fails on aborts the run.  When the
    statements before it have been processed and the database raises on it,
    [main] ends in that error; the statements submitted are those up to and
    including the failing one and no later one; the files are as the
    earlier statements left them, their plan artifacts in place; the summary
    file is not written; and nothing is printed. *)
Theorem failed_statement_aborts_run (a : arguments) (w w0 w1 : world) (contents : str)
    (pre post : list str) (q : str) (rs : list QueryResult) (s : server) (dt : Q)
    (e : exn) :
  let run_id := choose_run_id a w in
  let out_dir := path_join (arg_out_dir a) run_id in
  setup a w = (w0, Ok tt) ->
  fs w0 !! arg_sql_file a = Some (TextFile contents) ->
  _split_sql_statements contents = pre ++ q :: post ->
  run_loop out_dir 1 pre [] w0 = (w1, Ok rs) ->
  execute (srv w1) (explain_prefix ++ q) = (s, dt, Raise e) ->
  exists w2,
    main a w = (w2, Raise e) /\
    submitted w2 = submitted w0 ++ map (app explain_prefix) (pre ++ [q]) /\
    fs w2 = fs w1 /\
    (forall i q', pre !! i = Some q' ->
       exists r, rs !! i = Some r /\ processed out_dir (fs w2) (S i) q' r) /\
    fs w2 !! summary_path out_dir run_id = fs w !! summary_path out_dir run_id /\
    stdout w2 = stdout w.
Proof.
  intros run_id out_dir Hsetup Hfile Hsplit Hpre Hfail.
  destruct (run_query_raises out_dir (1 + length pre) q w1 s dt e Hfail)
    as (w2 & Hq & Hfs & Hsub & Hout & _).
  pose proof Hpre as (new & Hnew & _ & _ & _ & _ & Hproc & Hframe & Hsub1 & Hout1 & _)%run_loop_ok.
  simpl in Hnew. subst new.
  assert (exists wa, _ensure_dir out_dir w = (wa, Ok tt) /\
            entering (arg_dsn a) out_dir (arg_statement_timeout_ms a) wa = (w0, Ok tt) /\
            fs wa = fs w /\ stdout wa = stdout w) as (wa & Hdir & Hent & Hfsa & Houta).
  { unfold setup, bind in Hsetup. fold run_id out_dir in Hsetup.
    destruct (_ensure_dir out_dir w) as [wa [[]|ea]] eqn:Hd; [|done].
    exists wa. split; [done|]. split; [done|].
    unfold _ensure_dir in Hd. destruct (makedirs_error _ _ _) as [[? ?]|]; [done|].
    by injection Hd as <-. }
  assert (fs w0 = fs w /\ stdout w0 = stdout w) as [Hfs0 Hout0].
  { apply entering_frame in Hent as [? ?]. split; congruence. }
  exists w2. split_and!.
  - unfold main. cbn zeta. fold run_id out_dir. unfold bind at 1. rewrite Hdir.
    unfold bind at 1.
    rewrite run_queries_unfold, Hent, Hfile, Hsplit, run_loop_app, Hpre, run_loop_cons, Hq.
    done.
  - rewrite Hsub, Hsub1, map_app, <- app_assoc. done.
  - done.
  - intros i q' Hi. rewrite Hfs. by apply Hproc.
  - rewrite Hfs, Hframe, Hfs0; [done|]. intros i _. apply summary_not_plan.
  - by rewrite Hout, Hout1.
Qed.

End RunnerTheorems.

#[export] Existing Instance toy_fs.

Lemma one_result_and_artifact_per_statement_witness :
  let out := _run_queries "dbname=test" "q.sql" "out/r1" None (toy_world "SELECT 1; SELECT 2") in
  exists results,
    out = (out.1, Ok results) /\
    map query_index results = [1; 2]%nat /\
    map plan_file results = ["query_001_plan.json"; "query_002_plan.json"] /\
    is_Some (fs out.1 !! "out/r1/query_002_plan.json").
Proof.
  intros out.
  assert (exists results, out = (out.1, Ok results)) as [results Hout]
    by (eexists; vm_compute; reflexivity).
  exists results. split; [exact Hout|]. unfold out in Hout |- *.
  destruct (one_result_and_artifact_per_statement _ _ _ _ _ _ _ Hout)
    as (contents & Hc & Hlen & Hq & Hidx & Hfile & _ & Hproc & _).
  injection Hc as <-. split; [exact Hidx|]. split; [exact Hfile|].
  destruct (Hproc 1%nat (text_of "SELECT 2") eq_refl)
    as (r & _ & _ & _ & _ & plan & d & _ & Hd & _).
  by eexists.
Defined.

Lemma failed_statement_aborts_run_witness :
  let w := toy_world "SELECT 1; BAD; SELECT 3" in
  let w0 := (setup toy_args w).1 in
  let w1 := (run_loop "out/r1" 1 [text_of "SELECT 1"] [] w0).1 in
  exists w2,
    main toy_args w = (w2, Raise DatabaseError) /\
    submitted w2 =
      submitted w0 ++ [explain_prefix ++ text_of "SELECT 1"; explain_prefix ++ text_of "BAD"] /\
    is_Some (fs w2 !! "out/r1/query_001_plan.json") /\
    fs w2 !! "out/r1/query_002_plan.json" = None /\
    fs w2 !! "out/r1/r1_summary.jsonl" = None.
Proof.
  intros w w0 w1.
  destruct (failed_statement_aborts_run toy_args w w0 w1
              (text_of "SELECT 1; BAD; SELECT 3") [text_of "SELECT 1"] [text_of "SELECT 3"]
              (text_of "BAD")
              (match (run_loop "out/r1" 1 [text_of "SELECT 1"] [] w0).2 with
               | Ok rs => rs
               | Raise _ => []
               end)
              (S (S (srv w0))) (1 # 1000) DatabaseError)
    as (w2 & Hmain & Hsub & Hfs & Hproc & Hsum & _);
    try (vm_compute; reflexivity).
  exists w2. split; [exact Hmain|]. split; [exact Hsub|].
  rewrite Hfs. split; [by vm_compute; eexists|]. split; by vm_compute.
Defined.

Lemma add_if_present_present (payload node : dict) (key out_key : string) :
  _add_if_present payload node key out_key =
  match present key node with
  | Some v => dict_set out_key v payload
  | None => payload
  end.
Proof.
  unfold _add_if_present, present, dict_get, dict_get_default.
  destruct (dict_lookup key node) as [[]|]; done.
Qed.

Lemma dict_set_fresh (k : string) (v : json) (d : dict) :
  dict_lookup k d = None -> dict_set k v d = d ++ [(k, v)].
Proof.
  induction d as [|[k' v'] d IH]; [done|]. simpl.
  destruct (String.eqb k' k); [done|]. intros H. by rewrite IH.
Qed.

Lemma dict_lookup_snoc (k k' : string) (v : json) (d : dict) :
  dict_lookup k (d ++ [(k', v)]) =
  match dict_lookup k d with
  | Some x => Some x
  | None => if String.eqb k' k then Some v else None
  end.
Proof.
  induction d as [|[k1 v1] d IH]; [done|]. simpl. by destruct (String.eqb k1 k).
Qed.

(** A pass of [_add_if_present] over a table whose output keys are new to
    the record and distinct adds the copied entries in table order. *)
Lemma fold_add_if_present (node : dict) (table : list (string * string)) (payload : dict) :
  NoDup (map snd table) ->
  (forall f, In f table -> dict_lookup (snd f) payload = None) ->
  fold_left (fun item f => _add_if_present item node (fst f) (snd f)) table payload =
  payload ++ omap (copied node) table.
Proof.
  revert payload. induction table as [|f table IH]; intros payload Hnd Hfresh.
  { simpl. by rewrite app_nil_r. }
  apply NoDup_cons in Hnd as [Hf Hnd]. cbn [fold_left omap list_omap].
  rewrite add_if_present_present. unfold copied at 1.
  destruct (present (fst f) node) as [v|].
  - rewrite dict_set_fresh by (apply Hfresh; by left).
    rewrite IH; [by rewrite <- app_assoc|done|].
    intros g Hg. rewrite dict_lookup_snoc, Hfresh by (by right).
    destruct (String.eqb_spec (snd f) (snd g)) as [Heq|]; [|done].
    exfalso. apply Hf. rewrite Heq. apply list_elem_of_In, in_map, Hg.
  - apply IH; [done|]. intros g Hg. apply Hfresh. by right.
Qed.

Lemma optional_fields_distinct :
  NoDup ("node_type" :: "depth" :: map snd optional_fields).
Proof. apply (bool_decide_unpack _). by vm_compute. Qed.

Lemma keys_omap_copied (node : dict) (table : list (string * string)) :
  sublist (map fst (omap (copied node) table)) (map snd table).
Proof.
  induction table as [|f table IH]; [done|]. cbn [omap list_omap map]. unfold copied at 1.
  destruct (present (fst f) node); [by apply sublist_skip|by apply sublist_cons].
Qed.

(** X12: the record of a node is the two fixed entries [node_type] and
    [depth] followed by the copied optional fields in the order of the
    allow-list.  Its keys are therefore a sublist of the allow-list's
    output names after [node_type] and [depth], and no key occurs twice. *)
Theorem plan_item_is_table_driven (node : dict) (depth : nat) :
  plan_item node depth =
  [("node_type", dict_get "Node Type" node); ("depth", JInt (Z.of_nat depth))]
  ++ omap (copied node) optional_fields /\
  sublist (dict_keys (plan_item node depth))
          ("node_type" :: "depth" :: map snd optional_fields) /\
  NoDup (dict_keys (plan_item node depth)).
Proof.
  assert (plan_item node depth =
          [("node_type", dict_get "Node Type" node); ("depth", JInt (Z.of_nat depth))]
          ++ omap (copied node) optional_fields) as H.
  { rewrite plan_item_fold. apply fold_add_if_present.
    - pose proof optional_fields_distinct as Hd.
      by apply NoDup_cons in Hd as [_ [_ Hd]%NoDup_cons].
    - intros f Hf. pose proof optional_fields_distinct as Hd.
      apply NoDup_cons in Hd as [H1 [H2 _]%NoDup_cons].
      assert (snd f ∈ map snd optional_fields) as Hin by (apply list_elem_of_In, in_map, Hf).
      cbn [dict_lookup]. destruct (String.eqb_spec "node_type" (snd f)) as [Heq|_].
      { exfalso. apply H1. right. by rewrite Heq. }
      destruct (String.eqb_spec "depth" (snd f)) as [Heq|_]; [|done].
      exfalso. apply H2. by rewrite Heq. }
  assert (sublist (dict_keys (plan_item node depth))
            ("node_type" :: "depth" :: map snd optional_fields)) as Hs.
  { rewrite H. unfold dict_keys. cbn [app map fst].
    do 2 apply sublist_skip. apply keys_omap_copied. }
  split; [done|]. split; [done|].
  exact (sublist_NoDup _ _ optional_fields_distinct Hs).
Qed.

Lemma fold_visit_raise (limit depth : nat) (l : list json) (e : exn) :
  fold_left (visit limit depth) l (Raise e) = Raise e.
Proof. induction l as [|v l IH]; [done|]. exact IH. Qed.

Lemma fold_visit_appends (limit depth : nat) (l : list json) :
  (forall c d out out',
     _extract_plan_nodes limit c d out = Ok out' ->
     exists new, out' = out ++ new /\
       forall out2, _extract_plan_nodes limit c d out2 = Ok (out2 ++ new)) ->
  forall acc out',
    fold_left (visit limit depth) l (Ok acc) = Ok out' ->
    exists new, out' = acc ++ new /\
      forall acc2, fold_left (visit limit depth) l (Ok acc2) = Ok (acc2 ++ new).
Proof.
  intros IH. induction l as [|v l IHl]; intros acc out' H.
  { injection H as <-. exists []. split; [by rewrite app_nil_r|].
    intros acc2. simpl. by rewrite app_nil_r. }
  cbn [fold_left] in H |- *.
  destruct v as [| | | | | |c]; try (by apply IHl).
  unfold visit at 2 in H.
  destruct (_extract_plan_nodes limit c (depth + 1) acc) as [acc1|e] eqn:E.
  2:{ by rewrite fold_visit_raise in H. }
  destruct (IH _ _ _ _ E) as (n1 & -> & Hn1).
  destruct (IHl _ _ H) as (n2 & -> & Hn2).
  exists (n1 ++ n2). split; [by rewrite app_assoc|].
  intros acc2. cbn [fold_left]. unfold visit at 2. rewrite Hn1, Hn2. by rewrite app_assoc.
Qed.

Lemma extract_appends (limit : nat) (node : dict) (depth : nat) (out out' : list dict) :
  _extract_plan_nodes limit node depth out = Ok out' ->
  exists new, out' = out ++ new /\
    forall out2, _extract_plan_nodes limit node depth out2 = Ok (out2 ++ new).
Proof.
  revert node depth out out'. induction limit as [|limit IH]; intros node depth out out' H.
  { done. }
  rewrite extract_unfold in H.
  destruct (elements (plans_of node)) as [l|e] eqn:El; [|done].
  destruct (fold_visit_appends limit depth l IH _ _ H) as (new & -> & Hnew).
  exists (plan_item node depth :: new). split; [by rewrite <- app_assoc|].
  intros out2. rewrite extract_unfold, El, Hnew. by rewrite <- app_assoc.
Qed.

(** X14: [_extract_plan_nodes] only appends to [out].  When it returns, the
    list is the one passed in followed by the record of the node and the
    records of its subtree, and these do not depend on what [out] held. *)
Theorem extract_only_appends (limit : nat) (node : dict) (depth : nat)
    (out out' : list dict) :
  _extract_plan_nodes limit node depth out = Ok out' ->
  exists rest,
    out' = out ++ plan_item node depth :: rest /\
    forall out2,
      _extract_plan_nodes limit node depth out2 = Ok (out2 ++ plan_item node depth :: rest).
Proof.
  intros H. destruct limit as [|limit]; [done|].
  pose proof H as H'. rewrite extract_unfold in H'.
  destruct (elements (plans_of node)) as [l|e] eqn:El; [|done].
  destruct (fold_visit_appends limit depth l (extract_appends limit) _ _ H')
    as (new & -> & Hnew).
  exists new. split; [by rewrite <- app_assoc|].
  intros out2. rewrite extract_unfold, El, Hnew. by rewrite <- app_assoc.
Qed.

Lemma extract_only_appends_witness :
  let earlier := [plan_item (scan_node "Seq Scan") 7] in
  exists rest,
    _extract_plan_nodes 3 sort_node 0 earlier = Ok (earlier ++ plan_item sort_node 0 :: rest) /\
    _extract_plan_nodes 3 sort_node 0 [] = Ok (plan_item sort_node 0 :: rest) /\
    length rest = 4%nat.
Proof.
  intros earlier.
  destruct (_extract_plan_nodes 3 sort_node 0 earlier) as [out'|e] eqn:E;
    [|by vm_compute in E].
  destruct (extract_only_appends 3 sort_node 0 earlier out' E) as (rest & -> & Hany).
  exists rest. split; [done|]. split; [exact (Hany [])|].
  assert (match _extract_plan_nodes 3 sort_node 0 earlier with
          | Ok l => length l
          | Raise _ => 0%nat
          end = 6%nat) as H6 by (by vm_compute).
  rewrite E, length_app in H6. simpl in H6. lia.
Defined.

Lemma elements_raises (v : json) (e : exn) : elements v = Raise e -> e = TypeError.
Proof. destruct v; simpl; congruence. Qed.

Lemma fold_visit_dichotomy (limit depth : nat) (l : list json) :
  (forall c, In c (dicts_of l) ->
     (well_formed c /\
      forall out, _extract_plan_nodes limit c (depth + 1) out =
                  Ok (out ++ preorder limit c (S depth))) \/
     (~ well_formed c /\
      forall out, _extract_plan_nodes limit c (depth + 1) out = Raise TypeError)) ->
  Forall well_formed (dicts_of l) \/
  (~ Forall well_formed (dicts_of l) /\
   forall acc, fold_left (visit limit depth) l (Ok acc) = Raise TypeError).
Proof.
  induction l as [|v l IH]; intros H; [left; constructor|].
  destruct v as [| | | | | |c]; try (apply IH; exact H).
  change (dicts_of (JDict c :: l)) with (c :: dicts_of l) in *.
  destruct (H c (or_introl eq_refl)) as [[Hc Hok]|[Hc Hbad]].
  - destruct IH as [IH|[IH1 IH2]]; [intros; apply H; by right| |].
    + left. by constructor.
    + right. split; [by intros [_ ?]%Forall_cons|].
      intros acc. cbn [fold_left]. unfold visit at 2. rewrite Hok. apply IH2.
  - right. split; [by intros [? _]%Forall_cons|].
    intros acc. cbn [fold_left]. unfold visit at 2. rewrite Hbad. apply fold_visit_raise.
Qed.

(** Within its budget the walk succeeds on plan trees and on nothing else. *)
Lemma extract_dichotomy (limit : nat) (node : dict) (depth : nat) :
  (height (JDict node) <= limit)%nat ->
  (well_formed node /\
   forall out, _extract_plan_nodes limit node depth out = Ok (out ++ preorder limit node depth))
  \/
  (~ well_formed node /\
   forall out, _extract_plan_nodes limit node depth out = Raise TypeError).
Proof.
  revert node depth. induction limit as [|limit IH]; intros node depth Hh.
  { simpl in Hh. lia. }
  destruct (elements (plans_of node)) as [l|e] eqn:El.
  2:{ right. split.
      - intros Hwf. destruct Hwf as [node l Hl _]. congruence.
      - intros out. rewrite extract_unfold, El. f_equal. by eapply elements_raises. }
  destruct (fold_visit_dichotomy limit depth l) as [Hall|[Hnot Hbad]].
  - intros c Hc. replace (S depth) with (depth + 1)%nat by lia. apply IH.
    assert (In c (children node)) as Hc' by (unfold children; by rewrite El).
    pose proof (children_height _ _ Hc'). lia.
  - assert (well_formed node) as Hwf.
    { apply (well_formed_node node l El). unfold children. by rewrite El. }
    left. split; [done|]. intros out. by apply extract_preorder.
  - right. split.
    + intros Hwf. destruct Hwf as [node l' Hl Hch]. apply Hnot.
      unfold children in Hch. by rewrite El in Hch.
    + intros out. rewrite extract_unfold, El. apply Hbad.
Qed.

(** X13: distillation succeeds exactly on plan objects whose [Plan] child,
    if a dict, is a plan tree, and every failure is a [TypeError] (the
    interpreter's recursion limit is not modelled).  A node whose [Plans]
    is a non-zero number or [True] is no plan tree; a node whose [Plans] is
    absent, falsy, a string or a dict is a leaf. *)
Theorem distill_fails_off_plan_trees :
  (forall plan, (exists d, _distill_plan plan = Ok d) <-> well_formed_plan plan) /\
  (forall plan e, _distill_plan plan = Raise e -> e = TypeError) /\
  (forall node v,
     dict_lookup "Plans" node = Some v -> truthy v = true -> iterable v = false ->
     ~ well_formed node) /\
  (forall node,
     truthy (dict_get "Plans" node) = false \/
     (exists s, dict_get "Plans" node = JStr s) \/
     (exists d, dict_get "Plans" node = JDict d) ->
     well_formed node /\ flatten node 0 = [plan_item node 0]).
Proof.
  assert (forall plan top, dict_get "Plan" plan = JDict top ->
            (height (JDict top) <= height (JDict plan))%nat) as Hheight.
  { intros plan top Hp. unfold dict_get, dict_get_default in Hp.
    destruct (dict_lookup "Plan" plan) as [v|] eqn:E; [|done]. subst v.
    pose proof (dict_lookup_height _ _ _ E). lia. }
  split; [|split; [|split]].
  - intros plan. split.
    + intros [d Hd] top Hp. unfold _distill_plan, _summarize_plan in Hd. rewrite Hp in Hd.
      destruct (extract_dichotomy (height (JDict plan)) top 0 (Hheight _ _ Hp))
        as [[Hwf _]|[_ Hbad]]; [done|]. by rewrite Hbad in Hd.
    + intros Hwf. unfold _distill_plan, _summarize_plan.
      destruct (dict_get "Plan" plan) as [| | | | | |top] eqn:Hp; try (by eexists).
      rewrite extract_preorder by (by auto). by eexists.
  - intros plan e. unfold _distill_plan, _summarize_plan.
    destruct (dict_get "Plan" plan) as [| | | | | |top] eqn:Hp; try done.
    destruct (extract_dichotomy (height (JDict plan)) top 0 (Hheight _ _ Hp))
      as [[_ Hok]|[_ Hbad]]; [by rewrite Hok|]. rewrite Hbad. congruence.
  - intros node v Hv Ht Hi Hwf. destruct Hwf as [node l Hl _].
    unfold plans_of, dict_get_default in Hl. rewrite Hv, Ht in Hl.
    by destruct v.
  - intros node H.
    assert (exists l, elements (plans_of node) = Ok l /\ dicts_of l = []) as (l & Hl & Hd).
    { unfold plans_of, dict_get, dict_get_default in *.
      destruct (dict_lookup "Plans" node) as [v|]; [|by exists []].
      destruct H as [H|[[s ->]|[d ->]]].
      - rewrite H. by exists [].
      - destruct (truthy (JStr s)); [|by exists []].
        eexists. split; [done|]. by induction s.
      - destruct (truthy (JDict d)); [|by exists []].
        eexists. split; [done|]. by induction d. }
    assert (children node = []) as Hc by (unfold children; by rewrite Hl).
    split.
    + apply (well_formed_node node l Hl). rewrite Hc. constructor.
    + rewrite flatten_eq, Hc. done.
Qed.

Lemma distill_fails_off_plan_trees_witness :
  let node := [("Node Type", JStr (text_of "Sort")); ("Plans", JInt 5)] in
  dict_lookup "Plans" node = Some (JInt 5) /\ ~ well_formed node /\
  _distill_plan [("Plan", JDict node)] = Raise TypeError.
Proof.
  intros node. destruct distill_fails_off_plan_trees as (_ & _ & H & _).
  split; [done|]. split; [by apply (H node (JInt 5))|]. by vm_compute.
Defined.

Section RunnerExtras.

Context {DB : Database} {FS : Filesystem}.

Lemma ensure_dir_ok (path : string) (w w' : world) :
  _ensure_dir path w = (w', Ok tt) ->
  makedirs_error (dirs w) (fs w) path = None /\
  fs w' = fs w /\ stdout w' = stdout w /\ submitted w' = submitted w /\ srv w' = srv w /\
  dirs w' = {[path]} ∪ dirs w.
Proof.
  unfold _ensure_dir. destruct (makedirs_error _ _ _) as [[e made]|]; [done|].
  by intros [= <-].
Qed.

Lemma ensure_dir_frame (path : string) (w w' : world) (o : outcome unit) :
  _ensure_dir path w = (w', o) ->
  fs w' = fs w /\ stdout w' = stdout w /\ submitted w' = submitted w /\ srv w' = srv w.
Proof.
  unfold _ensure_dir. destruct (makedirs_error _ _ _) as [[e made]|]; by intros [= <- <-].
Qed.

Lemma entering_ok (dsn out_dir : string) (timeout : option Z) (w w0 : world) :
  entering dsn out_dir timeout w = (w0, Ok tt) ->
  fs w0 = fs w /\ stdout w0 = stdout w /\ dirs w0 = {[out_dir]} ∪ dirs w /\
  submitted w0 = submitted w ++ timeout_statements timeout.
Proof.
  unfold entering, bind, _ensure_dir, db_connect, cursor_execute, ret.
  destruct (makedirs_error _ _ _) as [[e made]|]; simpl; [done|].
  destruct (connect (srv w) dsn) as [s [e|]]; simpl; [done|].
  destruct timeout as [ms|]; simpl.
  - destruct (execute _ _) as [[s' dt] [r|e]]; simpl; [|done].
    intros [= <-]. done.
  - intros [= <-]. simpl. by rewrite app_nil_r.
Qed.

(** Why [_run_queries] can fail before it reads the file. *)
Lemma entering_raises (dsn out_dir : string) (timeout : option Z) (w w0 : world) (e : exn) :
  entering dsn out_dir timeout w = (w0, Raise e) ->
  fs w0 = fs w /\ stdout w0 = stdout w /\
  ((exists made,
      makedirs_error (dirs w) (fs w) out_dir = Some (e, made) /\
      dirs w0 = made ∪ dirs w /\ submitted w0 = submitted w) \/
   (makedirs_error (dirs w) (fs w) out_dir = None /\ dirs w0 = {[out_dir]} ∪ dirs w /\
    ((exists s, connect (srv w) dsn = (s, Some e) /\ submitted w0 = submitted w) \/
     (exists s ms s' dt,
        connect (srv w) dsn = (s, None) /\ timeout = Some ms /\
        execute s (set_timeout_sql ms) = (s', dt, Raise e) /\
        submitted w0 = submitted w ++ [set_timeout_sql ms])))).
Proof.
  unfold entering, bind, _ensure_dir, db_connect, cursor_execute, ret.
  destruct (makedirs_error _ _ _) as [[e' made]|]; simpl.
  { intros [= <- <-]. split_and!; try done. left. by exists made. }
  destruct (connect (srv w) dsn) as [s [e'|]] eqn:Ec; simpl.
  - intros [= <- <-]. split_and!; try done. right. split_and!; try done. left. by exists s.
  - destruct timeout as [ms|]; simpl; [|done].
    destruct (execute _ _) as [[s' dt] [r|e']] eqn:Ee; simpl; [done|].
    intros [= <- <-]. split_and!; try done. right. split_and!; try done.
    right. by exists s, ms, s', dt.
Qed.

(** Why one statement can fail, and what it leaves. *)
Lemma run_query_fail (out_dir : string) (idx : nat) (q : str) (w w' : world) (e : exn) :
  run_query out_dir idx q w = (w', Raise e) ->
  stdout w' = stdout w /\ dirs w' = dirs w /\
  submitted w' = submitted w ++ [explain_prefix ++ q] /\
  (forall p, p <> path_join out_dir (plan_filename idx) -> fs w' !! p = fs w !! p) /\
  exists s dt r,
    execute (srv w) (explain_prefix ++ q) = (s, dt, r) /\
    ((r = Raise e /\ fs w' = fs w) \/
     (r = Ok None /\ e = RuntimeError /\ fs w' = fs w) \/
     (exists v, r = Ok (Some v) /\ (forall plan, v <> JDict plan) /\ e = AttributeError /\
                fs w' = fs w) \/
     (exists plan, r = Ok (Some (JDict plan)) /\ _distill_plan plan = Raise e /\
                   fs w' = fs w) \/
     (exists plan d residue,
        r = Ok (Some (JDict plan)) /\ _distill_plan plan = Ok d /\
        write_error (dirs w) (fs w) (path_join out_dir (plan_filename idx))
          (JsonFile (JDict d)) = Some (e, residue) /\
        fs w' = match residue with
                | Some partial => <[path_join out_dir (plan_filename idx) := partial]> (fs w)
                | None => fs w
                end)).
Proof.
  unfold run_query, bind, perf_counter, _run_explain, bind, cursor_execute, ret, raise,
    _write_json, write_file. simpl.
  destruct (execute (srv w) (explain_prefix ++ q)) as [[s dt] [[row|]|e']] eqn:E; simpl.
  - destruct row as [| | | | | |plan]; simpl;
      try (intros [= <- <-]; split_and!; try done; exists s, dt; eexists; split; [done|];
           right; right; left; eexists; by split_and!).
    destruct (_distill_plan plan) as [d|e'] eqn:Ed; simpl.
    + destruct (write_error _ _ _ _) as [[e' residue]|] eqn:Ew; simpl; [|done].
      intros [= <- <-]. simpl. split_and!; try done.
      * intros p Hp. destruct residue; [by apply lookup_insert_ne|done].
      * exists s, dt. eexists. split; [done|]. do 4 right. by exists plan, d, residue.
    + intros [= <- <-]. split_and!; try done. exists s, dt. eexists. split; [done|].
      right. right. right. left. by exists plan.
  - intros [= <- <-]. split_and!; try done. exists s, dt. eexists. split; [done|].
    right. by left.
  - intros [= <- <-]. split_and!; try done. exists s, dt. eexists. split; [done|]. by left.
Qed.

(** Whatever the outcome, the loop touches no file but plan artifacts,
    prints nothing and creates no directory. *)
Lemma run_loop_frame (out_dir : string) (qs : list str) (idx : nat)
    (rs : list QueryResult) (w w' : world) (o : outcome (list QueryResult)) :
  run_loop out_dir idx qs rs w = (w', o) ->
  stdout w' = stdout w /\ dirs w' = dirs w /\
  forall p, (forall i, p <> path_join out_dir (plan_filename i)) -> fs w' !! p = fs w !! p.
Proof.
  revert idx rs w. induction qs as [|q qs IH]; intros idx rs w H.
  { by injection H as <- <-. }
  rewrite run_loop_cons in H.
  destruct (run_query out_dir idx q w) as [w1 [r|e]] eqn:Hq.
  - apply run_query_ok in Hq as (s & dt & plan & d & _ & _ & _ & -> & _).
    apply IH in H as (Ho & Hd & Hf). split_and!; try done.
    intros p Hp. rewrite Hf by done. simpl. by apply lookup_insert_ne.
  - injection H as <- <-. apply run_query_fail in Hq as (Ho & Hd & _ & Hf & _).
    split_and!; try done. intros p Hp. by apply Hf.
Qed.

(** Whatever the outcome, [_run_queries] touches no file but plan artifacts
    and prints nothing. *)
Lemma run_queries_frame (dsn sql_file out_dir : string) (timeout : option Z)
    (w w' : world) (o : outcome (list QueryResult)) :
  _run_queries dsn sql_file out_dir timeout w = (w', o) ->
  stdout w' = stdout w /\
  forall p, (forall i, p <> path_join out_dir (plan_filename i)) -> fs w' !! p = fs w !! p.
Proof.
  rewrite run_queries_unfold.
  destruct (entering _ _ _ _) as [w0 o0] eqn:He.
  apply entering_frame in He as [Hfs Hout].
  destruct o0 as [[]|e0].
  - destruct (fs w0 !! sql_file) as [[contents| |]|];
      try (intros [= <- <-]; split; [done|]; intros p _; by rewrite Hfs).
    intros (Ho & _ & Hf)%run_loop_frame.
    split; [by rewrite Ho, Hout|]. intros p Hp. rewrite Hf by done. by rewrite Hfs.
  - intros [= <- <-]. split; [done|]. intros p _. by rewrite Hfs.
Qed.

Lemma main_unfold (a : arguments) (w : world) :
  main a w =
  let run_id := choose_run_id a w in
  let out_dir := path_join (arg_out_dir a) run_id in
  match _ensure_dir out_dir w with
  | (w0, Ok _) =>
      match _run_queries (arg_dsn a) (arg_sql_file a) out_dir (arg_statement_timeout_ms a)
              w0 with
      | (w1, Ok results) => closing out_dir run_id results w1
      | (w1, Raise e) => (w1, Raise e)
      end
  | (w0, Raise e) => (w0, Raise e)
  end.
Proof.
  unfold main. cbn zeta. unfold bind at 1.
  destruct (_ensure_dir _ w) as [w0 [[]|e]]; [|done].
  unfold bind at 1. by destruct (_run_queries _ _ _ _ _) as [w1 [results|e]].
Qed.

(** The last lines of [main] succeed exactly when nothing is refused. *)
Lemma closing_ok (out_dir run_id : string) (results : list QueryResult) (w w' : world)
    (z : Z) :
  closing out_dir run_id results w = (w', Ok z) <->
  closing_succeeds out_dir run_id results w /\
  w' = finished out_dir run_id results w /\ z = 0%Z.
Proof.
  unfold closing, closing_succeeds, closing_lines, _write_summary, print, write_file, bind,
    ret, finished.
  cbn [fst snd fs stdout srv dirs clock utc_now submitted].
  destruct (write_error _ _ _ _) as [[e residue]|]; cbn [fs stdout srv dirs clock utc_now
    submitted].
  { split; [done|]. by intros [[? _] _]. }
  destruct (print_error (stdout w) _) as [[e out]|]; cbn [fs stdout srv dirs clock utc_now
    submitted].
  { split; [done|]. by intros [(_ & ? & _) _]. }
  destruct (print_error (stdout w ++ _) _) as [[e out]|]; cbn [fs stdout srv dirs clock
    utc_now submitted].
  { split; [done|]. by intros [(_ & _ & ?) _]. }
  rewrite <- app_assoc. cbn [app]. split.
  - by intros [= <- <-].
  - by intros (_ & -> & ->).
Qed.

(** What a refused summary or line leaves. *)
Lemma closing_raises (out_dir run_id : string) (results : list QueryResult) (w w' : world)
    (e : exn) :
  closing out_dir run_id results w = (w', Raise e) ->
  (forall p, p <> summary_path out_dir run_id -> fs w' !! p = fs w !! p) /\
  submitted w' = submitted w /\
  ((exists residue,
      write_error (dirs w) (fs w) (summary_path out_dir run_id)
        (JsonLines (map summary_payload results)) = Some (e, residue) /\
      stdout w' = stdout w) \/
   (fs w' = <[summary_path out_dir run_id := JsonLines (map summary_payload results)]> (fs w) /\
    exists out, stdout w' = stdout w ++ out)).
Proof.
  unfold closing, _write_summary, print, write_file, bind, ret.
  cbn [fst snd fs stdout srv dirs clock utc_now submitted].
  destruct (write_error _ _ _ _) as [[e1 residue]|]; cbn [fs stdout srv dirs clock utc_now
    submitted].
  { intros [= <- <-]. cbn [fs stdout submitted]. split_and!; try done.
    - intros p Hp. destruct residue; [by apply lookup_insert_ne|done].
    - left. by exists residue. }
  destruct (print_error (stdout w) _) as [[e1 out]|]; cbn [fs stdout srv dirs clock utc_now
    submitted].
  { intros [= <- <-]. cbn [fs stdout submitted]. split_and!; try done.
    - intros p Hp. by apply lookup_insert_ne.
    - right. split; [done|]. by exists out. }
  destruct (print_error (stdout w ++ _) _) as [[e1 out]|]; cbn [fs stdout srv dirs clock
    utc_now submitted]; [|done].
  intros [= <- <-]. cbn [fs stdout submitted]. split_and!; try done.
  - intros p Hp. by apply lookup_insert_ne.
  - right. split; [done|]. eexists. by rewrite <- app_assoc.
Qed.

Lemma setup_prepared (a : arguments) (w w0 : world) :
  setup a w = (w0, Ok tt) ->
  _ensure_dir (path_join (arg_out_dir a) (choose_run_id a w)) w = (prepared a w, Ok tt) /\
  entering (arg_dsn a) (path_join (arg_out_dir a) (choose_run_id a w))
    (arg_statement_timeout_ms a) (prepared a w) = (w0, Ok tt).
Proof.
  unfold setup, prepared, bind.
  destruct (_ensure_dir _ w) as [wa [[]|e]]; [|done]. intros H. by split.
Qed.

(** X15: the guard [if statement.strip()] of [_iter_queries] never drops
    anything: the generator yields every statement of the splitter, in
    order; a missing file raises [OSError]. *)
Theorem iter_queries_keeps_every_statement (path : string) (w : world) :
  (forall contents,
     fs w !! path = Some (TextFile contents) ->
     _iter_queries path w = (w, Ok (_split_sql_statements contents))) /\
  (fs w !! path = None -> _iter_queries path w = (w, Raise OSError)).
Proof.
  unfold _iter_queries. split.
  - intros contents ->. by rewrite iter_queries_all.
  - by intros ->.
Qed.

(** X16: in a successful run the database receives the timeout setting, if
    one is configured, once and first, and then the statements of the file
    in order, each behind the explain directive; nothing is printed and the
    output directory is created. *)
Theorem statements_submitted_in_order (dsn sql_file out_dir : string) (timeout : option Z)
    (w w' : world) (results : list QueryResult) :
  _run_queries dsn sql_file out_dir timeout w = (w', Ok results) ->
  exists contents,
    fs w !! sql_file = Some (TextFile contents) /\
    submitted w' =
      submitted w ++ timeout_statements timeout
      ++ map (app explain_prefix) (_split_sql_statements contents) /\
    dirs w' = {[out_dir]} ∪ dirs w /\ stdout w' = stdout w.
Proof.
  rewrite run_queries_unfold.
  destruct (entering dsn out_dir timeout w) as [w0 [[]|e]] eqn:He; [|done].
  apply entering_ok in He as (Hfs & Hout & Hdirs & Hsub). rewrite Hfs.
  destruct (fs w !! sql_file) as [[contents| |]|]; try done.
  intros (new & _ & _ & _ & _ & _ & _ & _ & Hs & Ho & Hd)%run_loop_ok.
  exists contents. split; [done|]. rewrite Hs, Hsub, Ho, Hd, <- app_assoc. done.
Qed.

(** The ways in which [main] returns normally. *)
Lemma main_ok (a : arguments) (w w2 : world) (z : Z) :
  let run_id := choose_run_id a w in
  let out_dir := path_join (arg_out_dir a) run_id in
  main a w = (w2, Ok z) <->
  exists w1 results,
    _ensure_dir out_dir w = (prepared a w, Ok tt) /\
    _run_queries (arg_dsn a) (arg_sql_file a) out_dir (arg_statement_timeout_ms a)
      (prepared a w) = (w1, Ok results) /\
    closing_succeeds out_dir run_id results w1 /\
    w2 = finished out_dir run_id results w1 /\ z = 0%Z.
Proof.
  intros run_id out_dir. rewrite main_unfold. cbn zeta. fold run_id out_dir.
  unfold prepared. fold run_id out_dir.
  destruct (_ensure_dir out_dir w) as [w0 [[]|e]]; cbn [fst].
  2:{ split; [done|]. by intros (? & ? & [=] & _). }
  destruct (_run_queries _ _ _ _ _) as [w1 [results|e]].
  2:{ split; [done|]. by intros (? & ? & _ & [=] & _). }
  rewrite closing_ok. split.
  - intros (Hc & -> & ->). by exists w1, results.
  - by intros (? & ? & _ & [= <- <-] & Hc & -> & ->).
Qed.

(** X17: when both directories are made, [_run_queries] succeeds and
    neither the summary nor the two lines are refused, [main] returns 0,
    writes the summary with one row per result in order, row [i] carrying
    the index [i] and the name of plan file [i], changes no other file, the
    plan artifacts included, and prints the two closing lines. *)
Theorem main_writes_summary (a : arguments) (w w1 : world) (results : list QueryResult) :
  let run_id := choose_run_id a w in
  let out_dir := path_join (arg_out_dir a) run_id in
  _ensure_dir out_dir w = (prepared a w, Ok tt) ->
  _run_queries (arg_dsn a) (arg_sql_file a) out_dir (arg_statement_timeout_ms a)
    (prepared a w) = (w1, Ok results) ->
  closing_succeeds out_dir run_id results w1 ->
  let w2 := finished out_dir run_id results w1 in
  let rows := map summary_payload results in
  main a w = (w2, Ok 0%Z) /\
  fs w2 !! summary_path out_dir run_id = Some (JsonLines rows) /\
  length rows = length results /\
  map (dict_get "query_index") (map (fun r => match r with JDict d => d | _ => [] end) rows) =
    map (fun i => JInt (Z.of_nat i)) (seq 1 (length results)) /\
  map (dict_get "plan_file") (map (fun r => match r with JDict d => d | _ => [] end) rows) =
    map (fun i => JStr (text_of (plan_filename i))) (seq 1 (length results)) /\
  (forall p, p <> summary_path out_dir run_id -> fs w2 !! p = fs w1 !! p) /\
  (forall i, fs w2 !! path_join out_dir (plan_filename i) =
             fs w1 !! path_join out_dir (plan_filename i)) /\
  stdout w2 =
    stdout w ++ ["Wrote " +:+ decimal (length results) +:+ " query plans to " +:+ out_dir;
                 "Summary: " +:+ summary_path out_dir run_id].
Proof.
  intros run_id out_dir Hdir Hrun Hclose w2 rows.
  assert (main a w = (w2, Ok 0%Z)) as Hmain.
  { apply main_ok. by exists w1, results. }
  pose proof Hdir as (_ & _ & Hout0 & _)%ensure_dir_ok.
  pose proof Hrun as Hrun'. rewrite run_queries_unfold in Hrun'.
  destruct (entering _ _ _ _) as [w0 [[]|e]] eqn:He; [|done].
  apply entering_ok in He as (Hfs & Hout & _ & _).
  destruct (fs w0 !! arg_sql_file a) as [[contents| |]|]; try done.
  apply run_loop_ok in Hrun' as (new & Hnew & Hlen & _ & Hidx & Hfile & _ & _ & _ & Ho & _).
  simpl in Hnew. subst new.
  split_and!.
  - done.
  - apply lookup_insert_eq.
  - apply length_map.
  - unfold rows. rewrite !map_map. cbn beta iota.
    rewrite Hlen, <- Hidx, map_map. done.
  - unfold rows. rewrite !map_map. cbn beta iota.
    rewrite Hlen, <- (map_map plan_filename (fun s => JStr (text_of s))), <- Hfile, map_map.
    done.
  - intros p Hp. by apply lookup_insert_ne.
  - intros i. apply lookup_insert_ne, summary_not_plan.
  - unfold w2, finished. cbn [stdout]. by rewrite Ho, Hout, Hout0.
Qed.

(** X18: a missing SQL file is noticed only after the connection is made.
    When the set-up succeeds and the file does not exist, [main] ends in
    [OSError]; by then the run directory exists and the timeout
    setting has been submitted, but no file is written and nothing is
    printed. *)
Theorem missing_sql_file_fails_after_connecting (a : arguments) (w w0 : world) :
  let out_dir := path_join (arg_out_dir a) (choose_run_id a w) in
  setup a w = (w0, Ok tt) ->
  fs w !! arg_sql_file a = None ->
  main a w = (w0, Raise OSError) /\
  fs w0 = fs w /\ stdout w0 = stdout w /\
  out_dir ∈ dirs w0 /\
  submitted w0 = submitted w ++ timeout_statements (arg_statement_timeout_ms a).
Proof.
  intros out_dir Hsetup Hno.
  apply setup_prepared in Hsetup as [Hdir Hent]. fold out_dir in Hdir, Hent.
  pose proof Hdir as (_ & Hfs0 & Hout0 & Hsub0 & _ & Hdirs0)%ensure_dir_ok.
  pose proof Hent as (Hfs & Hout & Hdirs & Hsub)%entering_ok.
  split_and!.
  - rewrite main_unfold. cbn zeta. fold out_dir.
    rewrite Hdir, run_queries_unfold, Hent, Hfs, Hfs0. by rewrite Hno.
  - congruence.
  - congruence.
  - rewrite Hdirs. apply elem_of_union_l. by apply elem_of_singleton.
  - by rewrite Hsub, Hsub0.
Qed.

(** X19: a file of whitespace and semicolons only gives, when nothing is
    refused, a successful run with an empty summary: no statement is
    submitted besides the timeout setting, the summary file is written with
    no rows, and the first line printed reports 0 query plans. *)
Theorem blank_file_gives_empty_summary (a : arguments) (w w0 : world) (contents : str) :
  let run_id := choose_run_id a w in
  let out_dir := path_join (arg_out_dir a) run_id in
  setup a w = (w0, Ok tt) ->
  fs w !! arg_sql_file a = Some (TextFile contents) ->
  forallb blank contents = true ->
  closing_succeeds out_dir run_id [] w0 ->
  exists w2,
    main a w = (w2, Ok 0%Z) /\
    fs w2 = <[summary_path out_dir run_id := JsonLines []]> (fs w) /\
    submitted w2 = submitted w ++ timeout_statements (arg_statement_timeout_ms a) /\
    stdout w2 = stdout w ++ ["Wrote 0 query plans to " +:+ out_dir;
                             "Summary: " +:+ summary_path out_dir run_id].
Proof.
  intros run_id out_dir Hsetup Hfile Hblank Hclose.
  apply setup_prepared in Hsetup as [Hdir Hent]. fold run_id out_dir in Hdir, Hent.
  pose proof Hdir as (_ & Hfs0 & Hout0 & Hsub0 & _)%ensure_dir_ok.
  pose proof Hent as (Hfs & Hout & Hdirs & Hsub)%entering_ok.
  exists (finished out_dir run_id [] w0). split_and!.
  - apply main_ok. exists w0, []. fold run_id out_dir. split_and!; try done.
    rewrite run_queries_unfold, Hent, Hfs, Hfs0, Hfile, (split_blank contents Hblank). done.
  - unfold finished. cbn [fs map]. by rewrite Hfs, Hfs0.
  - unfold finished. cbn [submitted]. by rewrite Hsub, Hsub0.
  - unfold finished. cbn [stdout]. by rewrite Hout, Hout0.
Qed.

(** X20: a statement that fails touches no file but its own plan artifact.
    Whatever makes the loop body raise, the directories and the output are
    as before and the statement has been submitted once.  The cause is one
    of five: the database raised, it returned no row ([RuntimeError]), the
    plan it returned is not a dict ([AttributeError]), distillation raised,
    all of which leave the files untouched, or the artifact could not be
    written, which leaves at most a partial file in its place. *)
Theorem failed_statement_touches_only_its_artifact (out_dir : string) (idx : nat) (q : str)
    (w w' : world) (e : exn) :
  run_query out_dir idx q w = (w', Raise e) ->
  stdout w' = stdout w /\ dirs w' = dirs w /\
  submitted w' = submitted w ++ [explain_prefix ++ q] /\
  (forall p, p <> path_join out_dir (plan_filename idx) -> fs w' !! p = fs w !! p) /\
  exists s dt r,
    execute (srv w) (explain_prefix ++ q) = (s, dt, r) /\
    ((r = Raise e /\ fs w' = fs w) \/
     (r = Ok None /\ e = RuntimeError /\ fs w' = fs w) \/
     (exists v, r = Ok (Some v) /\ (forall plan, v <> JDict plan) /\ e = AttributeError /\
                fs w' = fs w) \/
     (exists plan, r = Ok (Some (JDict plan)) /\ _distill_plan plan = Raise e /\
                   fs w' = fs w) \/
     (exists plan d residue,
        r = Ok (Some (JDict plan)) /\ _distill_plan plan = Ok d /\
        write_error (dirs w) (fs w) (path_join out_dir (plan_filename idx))
          (JsonFile (JDict d)) = Some (e, residue) /\
        fs w' = match residue with
                | Some partial => <[path_join out_dir (plan_filename idx) := partial]> (fs w)
                | None => fs w
                end)).
Proof. apply run_query_fail. Qed.

(** X21: when [main] fails, the only files that may differ from before are
    plan artifacts of the run directory and the summary.  Either the
    failure comes before the summary is reached, from the directory or from
    [_run_queries], and then the summary file is untouched and nothing is
    printed; or [_run_queries] had succeeded and the summary was refused,
    with nothing printed, or it was written and a line was refused. *)
Theorem main_failure_cases (a : arguments) (w w2 : world) (e : exn) :
  let run_id := choose_run_id a w in
  let out_dir := path_join (arg_out_dir a) run_id in
  main a w = (w2, Raise e) ->
  (forall p, p <> summary_path out_dir run_id ->
     (forall i, p <> path_join out_dir (plan_filename i)) -> fs w2 !! p = fs w !! p) /\
  ((fs w2 !! summary_path out_dir run_id = fs w !! summary_path out_dir run_id /\
    stdout w2 = stdout w /\
    ((exists made, makedirs_error (dirs w) (fs w) out_dir = Some (e, made)) \/
     _run_queries (arg_dsn a) (arg_sql_file a) out_dir (arg_statement_timeout_ms a)
       (prepared a w) = (w2, Raise e))) \/
   (exists w1 results,
      _run_queries (arg_dsn a) (arg_sql_file a) out_dir (arg_statement_timeout_ms a)
        (prepared a w) = (w1, Ok results) /\
      ((exists residue,
          write_error (dirs w1) (fs w1) (summary_path out_dir run_id)
            (JsonLines (map summary_payload results)) = Some (e, residue) /\
          stdout w2 = stdout w) \/
       (fs w2 !! summary_path out_dir run_id =
          Some (JsonLines (map summary_payload results)) /\
        exists out, stdout w2 = stdout w ++ out)))).
Proof.
  intros run_id out_dir. rewrite main_unfold. cbn zeta. fold run_id out_dir.
  unfold prepared. fold run_id out_dir.
  destruct (_ensure_dir out_dir w) as [w0 [[]|e0]] eqn:Hdir; cbn [fst].
  2:{ intros [= <- <-]. pose proof Hdir as (Hfs & Hout & _)%ensure_dir_frame.
      split; [intros p _ _; by rewrite Hfs|]. left. rewrite Hfs. split_and!; try done.
      left. unfold _ensure_dir in Hdir.
      destruct (makedirs_error _ _ _) as [[e1 made]|]; [|done].
      injection Hdir as _ <-. by exists made. }
  pose proof Hdir as (Hfs0 & Hout0 & _)%ensure_dir_frame.
  destruct (_run_queries _ _ _ _ _) as [w1 [results|e1]] eqn:Hrun.
  - pose proof Hrun as [Hout1 Hf1]%run_queries_frame.
    intros (Hf & _ & Hcase)%closing_raises. split.
    + intros p Hs Hp. by rewrite Hf, Hf1, Hfs0.
    + right. exists w1, results. split; [done|].
      destruct Hcase as [(residue & Hw & Ho)|[Hfs2 [out Ho]]].
      * left. exists residue. split; [done|]. by rewrite Ho, Hout1, Hout0.
      * right. split; [rewrite Hfs2; apply lookup_insert_eq|].
        exists out. by rewrite Ho, Hout1, Hout0.
  - intros [= <- <-]. pose proof Hrun as [Hout1 Hf1]%run_queries_frame.
    split; [intros p _ Hp; by rewrite Hf1, Hfs0|].
    left. split_and!.
    + rewrite Hf1, Hfs0; [done|]. intros i. apply summary_not_plan.
    + by rewrite Hout1, Hout0.
    + by right.
Qed.

Lemma entering_connect_fails (dsn out_dir : string) (timeout : option Z) (w : world)
    (s : server) (e : exn) :
  makedirs_error (dirs w) (fs w) out_dir = None ->
  connect (srv w) dsn = (s, Some e) ->
  exists w0, entering dsn out_dir timeout w = (w0, Raise e).
Proof.
  intros Hm H. unfold entering, bind, _ensure_dir, db_connect. rewrite Hm. simpl.
  rewrite H. by eexists.
Qed.

Lemma entering_timeout_fails (dsn out_dir : string) (w : world) (s : server) (ms : Z)
    (s' : server) (dt : Q) (e : exn) :
  makedirs_error (dirs w) (fs w) out_dir = None ->
  connect (srv w) dsn = (s, None) ->
  execute s (set_timeout_sql ms) = (s', dt, Raise e) ->
  exists w0, entering dsn out_dir (Some ms) w = (w0, Raise e).
Proof.
  intros Hm H1 H2. unfold entering, bind, _ensure_dir, db_connect, cursor_execute.
  rewrite Hm. simpl. rewrite H1. simpl. rewrite H2. by eexists.
Qed.

(** X22: a failure before the loop reads nothing.  With both directories
    made, if the connection fails, or the timeout setting is rejected,
    [main] ends in that error with the run directory created and no file
    read or written; nothing has been submitted in the first case, only the
    timeout setting in the second. *)
Theorem failure_before_the_loop_reads_nothing (a : arguments) (w : world) (e : exn) :
  let out_dir := path_join (arg_out_dir a) (choose_run_id a w) in
  directories_made a w ->
  (forall s,
     connect (srv w) (arg_dsn a) = (s, Some e) ->
     exists w',
       main a w = (w', Raise e) /\ fs w' = fs w /\ submitted w' = submitted w /\
       stdout w' = stdout w /\ out_dir ∈ dirs w') /\
  (forall s ms s' dt,
     connect (srv w) (arg_dsn a) = (s, None) ->
     arg_statement_timeout_ms a = Some ms ->
     execute s (set_timeout_sql ms) = (s', dt, Raise e) ->
     exists w',
       main a w = (w', Raise e) /\ fs w' = fs w /\
       submitted w' = submitted w ++ [set_timeout_sql ms] /\
       stdout w' = stdout w /\ out_dir ∈ dirs w').
Proof.
  intros out_dir [Hm1 Hm2]. fold out_dir in Hm1, Hm2.
  assert (_ensure_dir out_dir w = (prepared a w, Ok tt)) as Hdir.
  { unfold prepared. fold out_dir. unfold _ensure_dir. by rewrite Hm1. }
  pose proof Hdir as (_ & Hfs0 & Hout0 & Hsub0 & Hsrv0 & Hdirs0)%ensure_dir_ok.
  rewrite <- Hdirs0, <- Hfs0 in Hm2.
  assert (forall w0 e0,
            entering (arg_dsn a) out_dir (arg_statement_timeout_ms a) (prepared a w)
              = (w0, Raise e0) ->
            main a w = (w0, Raise e0)) as Hmain.
  { intros w0 e0 He. rewrite main_unfold. cbn zeta. fold out_dir.
    by rewrite Hdir, run_queries_unfold, He. }
  assert (forall w0 e0,
            entering (arg_dsn a) out_dir (arg_statement_timeout_ms a) (prepared a w)
              = (w0, Raise e0) ->
            fs w0 = fs w /\ stdout w0 = stdout w /\ out_dir ∈ dirs w0 /\
            ((exists s, connect (srv w) (arg_dsn a) = (s, Some e0) /\
                        submitted w0 = submitted w) \/
             (exists s ms s' dt,
                connect (srv w) (arg_dsn a) = (s, None) /\
                arg_statement_timeout_ms a = Some ms /\
                execute s (set_timeout_sql ms) = (s', dt, Raise e0) /\
                submitted w0 = submitted w ++ [set_timeout_sql ms]))) as Hcases.
  { intros w0 e0 (Hfs & Hout & Hcause)%entering_raises.
    destruct Hcause as [(made & Hbad & _)|(_ & Hdirs & Hcause)]; [congruence|].
    rewrite Hsrv0, Hsub0 in Hcause.
    split_and!; try congruence.
    rewrite Hdirs. apply elem_of_union_l. by apply elem_of_singleton. }
  split.
  - intros s Hc. rewrite <- Hsrv0 in Hc.
    destruct (entering_connect_fails (arg_dsn a) out_dir (arg_statement_timeout_ms a)
                (prepared a w) s e Hm2 Hc) as [w0 He].
    exists w0. destruct (Hcases _ _ He) as (Hfs & Hout & Hdirs & Hcause).
    split_and!; try done; [by apply Hmain|].
    destruct Hcause as [(? & _ & ?)|(? & ? & ? & ? & Hc' & _)]; [done|].
    rewrite Hsrv0 in Hc. congruence.
  - intros s ms s' dt Hc Hms Hx. rewrite <- Hsrv0 in Hc.
    destruct (entering_timeout_fails (arg_dsn a) out_dir (prepared a w) s ms s' dt e
                Hm2 Hc Hx) as [w0 He].
    rewrite <- Hms in He.
    exists w0. destruct (Hcases _ _ He) as (Hfs & Hout & Hdirs & Hcause).
    split_and!; try done; [by apply Hmain|].
    destruct Hcause as [(? & Hc' & _)|(? & ? & ? & ? & _ & Hms' & _ & Hsub)].
    + rewrite Hsrv0 in Hc. congruence.
    + rewrite Hms in Hms'. injection Hms' as <-. done.
Qed.

End RunnerExtras.

Lemma string_length_app (a b : string) :
  String.length (a +:+ b) = (String.length a + String.length b)%nat.
Proof.
  induction a as [|c a IH]; [done|].
  change (String c a +:+ b) with (String c (a +:+ b)). simpl. by rewrite IH.
Qed.

Lemma string_length_zeros (k : nat) : String.length (zeros k) = k.
Proof. unfold zeros. induction k as [|k IH]; [done|]. simpl. by rewrite IH. Qed.

Lemma increasing_lookup (l : list string) (i j : nat) (x y : string) :
  increasing l = true -> (i < j)%nat -> l !! i = Some x -> l !! j = Some y ->
  String.ltb x y = true.
Proof.
  revert i j. induction l as [|a l IH]; intros i j H Hij Hi Hj; [done|].
  simpl in H. apply andb_true_iff in H as [Ha Hl].
  destruct j as [|j]; [lia|]. simpl in Hj. destruct i as [|i].
  - injection Hi as <-. rewrite forallb_forall in Ha. apply Ha.
    by eapply list_elem_of_In, list_elem_of_lookup_2.
  - simpl in Hi. apply (IH i j); [done|lia|done|done].
Qed.

(** X23: the formatted index reads back as the index, is at least three
    characters wide, and below 1000 the plan file names sort by character
    code as their indices do. *)
Theorem plan_filenames_sort_by_index :
  (forall i, parse_decimal (format_03d i) = Some i) /\
  (forall i, (3 <= String.length (format_03d i))%nat) /\
  (forall i j, (i < j < 1000)%nat ->
     String.ltb (plan_filename i) (plan_filename j) = true).
Proof.
  split; [apply parse_format|]. split.
  - intros i. unfold format_03d, zfill. fold (zeros (3 - String.length (decimal i))).
    rewrite string_length_app, string_length_zeros. lia.
  - intros i j Hij.
    assert (increasing (map plan_filename (seq 0 1000)) = true) as H by (by vm_compute).
    apply (increasing_lookup _ i j _ _ H); [lia| |].
    + rewrite list_lookup_fmap, lookup_seq_lt by lia. done.
    + rewrite list_lookup_fmap, lookup_seq_lt by lia. done.
Qed.

Lemma plan_filenames_sort_by_index_witness :
  String.ltb (plan_filename 9) (plan_filename 10) = true /\
  String.ltb "query_9_plan.json" "query_10_plan.json" = false.
Proof.
  destruct plan_filenames_sort_by_index as (_ & _ & H).
  split; [apply H; lia|]. by vm_compute.
Defined.

Lemma prefix_slash_app (s t : string) :
  String.prefix "/" s = true -> String.prefix "/" (s +:+ t) = true.
Proof.
  destruct s as [|c s]; [done|].
  change (String c s +:+ t) with (String c (s +:+ t)). cbn [String.prefix].
  destruct (ascii_dec "/" c); [|done]. intros _. by destruct (s +:+ t).
Qed.

Lemma prefix_app_cancel (a b c : string) :
  String.prefix (a +:+ b) (a +:+ c) = String.prefix b c.
Proof.
  induction a as [|x a IH]; [done|].
  change (String x a +:+ b) with (String x (a +:+ b)).
  change (String x a +:+ c) with (String x (a +:+ c)). cbn [String.prefix].
  by destruct (ascii_dec x x).
Qed.

Lemma prefix_app_self (a c : string) : String.prefix a (a +:+ c) = true.
Proof.
  induction a as [|x a IH]; [by destruct c|].
  change (String x a +:+ c) with (String x (a +:+ c)). cbn [String.prefix].
  by destruct (ascii_dec x x).
Qed.

Lemma dir_prefix_sep (a : string) : ends_with_sep a = true -> dir_prefix a = a.
Proof. intros H. unfold dir_prefix. by rewrite H, orb_true_r. Qed.

Section AbsoluteRunId.

Context {DB : Database} {FS : Filesystem}.

(** X24: with an absolute run id the output directory of the command line
    plays no part.  When [main] returns, the summary is the file named by
    the run id followed by [_summary.jsonl], the plan files are the run id,
    a separator unless it ends in one, and the file name, and no other file
    has changed.  For a run id that does not end in a separator the summary
    is thus not below the run directory; for one that does, it is. *)
Theorem absolute_run_id_ignores_out_dir (a : arguments) (w w2 : world) (z : Z) :
  let run_id := choose_run_id a w in
  String.prefix "/" run_id = true ->
  main a w = (w2, Ok z) ->
  exists results,
    fs w2 !! (run_id +:+ "_summary.jsonl") = Some (JsonLines (map summary_payload results)) /\
    (forall i, (1 <= i <= length results)%nat ->
       is_Some (fs w2 !! (dir_prefix run_id +:+ plan_filename i))) /\
    (forall p,
       p <> run_id +:+ "_summary.jsonl" ->
       (forall i, p <> dir_prefix run_id +:+ plan_filename i) ->
       fs w2 !! p = fs w !! p) /\
    (ends_with_sep run_id = false ->
     String.prefix (run_id +:+ "/") (run_id +:+ "_summary.jsonl") = false) /\
    (ends_with_sep run_id = true ->
     String.prefix (dir_prefix run_id) (run_id +:+ "_summary.jsonl") = true).
Proof.
  intros run_id Habs (w1 & results & Hdir & Hrun & _ & -> & _)%main_ok.
  fold run_id in Hdir, Hrun |- *.
  assert (path_join (arg_out_dir a) run_id = run_id) as Hj
    by (unfold path_join; by rewrite Habs).
  rewrite Hj in Hdir, Hrun |- *.
  assert (summary_path run_id run_id = run_id +:+ "_summary.jsonl") as Hs.
  { unfold summary_path, path_join. by rewrite prefix_slash_app. }
  pose proof Hdir as (Hfs0 & _)%ensure_dir_frame.
  pose proof Hrun as [_ Hf1]%run_queries_frame.
  exists results. unfold finished. cbn [fs]. rewrite Hs. split_and!.
  - apply lookup_insert_eq.
  - intros i Hi. rewrite <- plan_path.
    rewrite lookup_insert_ne by (rewrite <- Hs; apply summary_not_plan).
    rewrite run_queries_unfold in Hrun.
    destruct (entering _ _ _ _) as [w0 [[]|e0]]; [|done].
    destruct (fs w0 !! arg_sql_file a) as [[contents| |]|]; try done.
    apply run_loop_ok in Hrun as (new & Hnew & Hlen & _ & _ & _ & Hproc & _).
    simpl in Hnew. subst new.
    destruct (lookup_lt_is_Some_2 (_split_sql_statements contents) (i - 1)) as [q Hq];
      [lia|].
    destruct (Hproc _ _ Hq) as (r & _ & _ & _ & _ & plan & d & _ & Hd & _).
    replace (1 + (i - 1))%nat with i in Hd by lia. by eexists.
  - intros p Hp Hi. rewrite lookup_insert_ne by done.
    rewrite Hf1, Hfs0; [done|]. intros i. rewrite plan_path. apply Hi.
  - intros _. by rewrite prefix_app_cancel.
  - intros He. rewrite dir_prefix_sep by done. apply prefix_app_self.
Qed.

End AbsoluteRunId.

Lemma absolute_run_id_ignores_out_dir_witness :
  let a := {| arg_dsn := "dbname=test"; arg_sql_file := "q.sql"; arg_out_dir := "out";
              arg_statement_timeout_ms := None; arg_run_id := Some "/tmp/r1" |} in
  let w := toy_world "SELECT 1" in
  let w2 := (main a w).1 in
  String.prefix "/" (choose_run_id a w) = true /\
  main a w = (w2, Ok 0%Z) /\
  is_Some (fs w2 !! "/tmp/r1_summary.jsonl") /\
  is_Some (fs w2 !! "/tmp/r1/query_001_plan.json") /\
  fs w2 !! "out/tmp/r1/query_001_plan.json" = None.
Proof.
  intros a w w2.
  assert (String.prefix "/" (choose_run_id a w) = true) as H1 by reflexivity.
  assert (main a w = (w2, Ok 0%Z)) as H2 by (by vm_compute).
  destruct (absolute_run_id_ignores_out_dir a w w2 0 H1 H2)
    as (results & Hsum & Hplan & Hframe & _).
  split; [exact H1|]. split; [exact H2|]. split; [by eexists|]. split.
  - assert (length results = 1%nat) as Hlen.
    { assert (match fs w2 !! "/tmp/r1_summary.jsonl" with
              | Some (JsonLines rows) => length rows
              | _ => 0%nat
              end = 1%nat) as H by (by vm_compute).
      change (choose_run_id a w +:+ "_summary.jsonl") with "/tmp/r1_summary.jsonl" in Hsum.
      rewrite Hsum, length_map in H. exact H. }
    apply (Hplan 1%nat). lia.
  - etrans; [apply Hframe|]; [done| |by vm_compute].
    intros i Hi. vm_compute in Hi. discriminate Hi.
Defined.

Lemma main_writes_summary_witness :
  let w := toy_world "SELECT 1; SELECT 2" in
  exists w2,
    main toy_args w = (w2, Ok 0%Z) /\
    stdout w2 = ["Wrote 2 query plans to out/r1"; "Summary: out/r1/r1_summary.jsonl"] /\
    is_Some (fs w2 !! "out/r1/query_002_plan.json") /\
    is_Some (fs w2 !! "out/r1/r1_summary.jsonl").
Proof.
  intros w.
  pose (r := _run_queries "dbname=test" "q.sql" "out/r1" (Some 5000%Z) (prepared toy_args w)).
  assert (exists results, r = (r.1, Ok results)) as [results Hr]
    by (eexists; vm_compute; reflexivity).
  assert (_ensure_dir (path_join (arg_out_dir toy_args) (choose_run_id toy_args w)) w =
          (prepared toy_args w, Ok tt)) as Hd by (by vm_compute).
  destruct (main_writes_summary toy_args w r.1 results Hd Hr)
    as (Hmain & Hsum & _ & _ & _ & _ & Hplan & Hout); [by repeat split|].
  eexists. split; [exact Hmain|]. split; [|split].
  - etrans; [exact Hout|].
    assert (length results = 2%nat) as ->; [|by vm_compute].
    assert (match r.2 with Ok l => length l | Raise _ => 0%nat end = 2%nat) as H2
      by (by vm_compute).
    by rewrite Hr in H2.
  - change "out/r1/query_002_plan.json"
      with (path_join (path_join (arg_out_dir toy_args) (choose_run_id toy_args w))
              (plan_filename 2)).
    rewrite Hplan. by vm_compute; eexists.
  - eexists. exact Hsum.
Defined.

Lemma missing_sql_file_fails_after_connecting_witness :
  let a := {| arg_dsn := "dbname=test"; arg_sql_file := "missing.sql"; arg_out_dir := "out";
              arg_statement_timeout_ms := None; arg_run_id := None |} in
  let w := toy_world "SELECT 1" in
  exists w0,
    main a w = (w0, Raise OSError) /\ fs w0 = fs w /\
    "out/20260101T000000Z" ∈ dirs w0 /\ submitted w0 = [].
Proof.
  intros a w.
  assert (setup a w = ((setup a w).1, Ok tt)) as Hs by (by vm_compute).
  assert (fs w !! arg_sql_file a = None) as Hno by (by vm_compute).
  destruct (missing_sql_file_fails_after_connecting a w _ Hs Hno)
    as (Hmain & Hfs & _ & Hdir & Hsub).
  eexists. split; [exact Hmain|]. split; [exact Hfs|]. split; [exact Hdir|exact Hsub].
Defined.

Lemma blank_file_gives_empty_summary_witness :
  let w := toy_world " ; ;; " in
  exists w2,
    main toy_args w = (w2, Ok 0%Z) /\
    fs w2 !! "out/r1/r1_summary.jsonl" = Some (JsonLines []) /\
    submitted w2 = [set_timeout_sql 5000] /\
    stdout w2 = ["Wrote 0 query plans to out/r1"; "Summary: out/r1/r1_summary.jsonl"].
Proof.
  intros w.
  assert (setup toy_args w = ((setup toy_args w).1, Ok tt)) as Hs by (by vm_compute).
  assert (fs w !! arg_sql_file toy_args = Some (TextFile (text_of " ; ;; "))) as Hf
    by (by vm_compute).
  destruct (blank_file_gives_empty_summary toy_args w _ _ Hs Hf eq_refl)
    as (w2 & Hmain & Hfs & Hsub & Hout); [by repeat split|].
  exists w2. split; [exact Hmain|]. split; [|split; [exact Hsub|exact Hout]].
  rewrite Hfs. apply lookup_insert_eq.
Defined.

Lemma failed_statement_touches_only_its_artifact_witness :
  let w := toy_world "BAD" in
  let w' := (run_query "out" 1 (text_of "BAD") w).1 in
  run_query "out" 1 (text_of "BAD") w = (w', Raise DatabaseError) /\
  submitted w' = [explain_prefix ++ text_of "BAD"] /\
  fs w' !! "q.sql" = fs w !! "q.sql".
Proof.
  intros w w'.
  assert (run_query "out" 1 (text_of "BAD") w = (w', Raise DatabaseError)) as H
    by (by vm_compute).
  destruct (failed_statement_touches_only_its_artifact _ _ _ _ _ _ H)
    as (_ & _ & Hsub & Hframe & _).
  split; [exact H|]. split; [exact Hsub|]. by apply Hframe.
Defined.

Lemma main_failure_cases_witness :
  let w := toy_world "SELECT 1; BAD; SELECT 3" in
  let w2 := (main toy_args w).1 in
  main toy_args w = (w2, Raise DatabaseError) /\
  fs w2 !! "q.sql" = fs w !! "q.sql" /\
  fs w2 !! summary_path "out/r1" "r1" = None /\ stdout w2 = [].
Proof.
  intros w w2.
  assert (main toy_args w = (w2, Raise DatabaseError)) as H by (by vm_compute).
  destruct (main_failure_cases toy_args w w2 _ H) as (Hframe & Hcase).
  split; [exact H|]. split.
  - apply Hframe; [done|]. intros i Hi. vm_compute in Hi. discriminate Hi.
  - by vm_compute.
Defined.

Lemma statements_submitted_in_order_witness :
  let w := toy_world "SELECT 1; SELECT 2" in
  let r := _run_queries "dbname=test" "q.sql" "out" (Some 5000%Z) w in
  exists results,
    r = (r.1, Ok results) /\
    submitted r.1 =
      [set_timeout_sql 5000; explain_prefix ++ text_of "SELECT 1";
       explain_prefix ++ text_of "SELECT 2"].
Proof.
  intros w r.
  assert (exists results, r = (r.1, Ok results)) as [results Hr]
    by (eexists; vm_compute; reflexivity).
  exists results. split; [exact Hr|]. unfold r in Hr |- *.
  destruct (statements_submitted_in_order _ _ _ _ _ _ _ Hr) as (contents & Hc & Hsub & _).
  injection Hc as <-. etrans; [exact Hsub|]. by vm_compute.
Defined.

Lemma failure_before_the_loop_reads_nothing_witness :
  let w : @world down_db := World (DB := down_db) tt ∅ ∅ 0 "20260101T000000Z" [] [] in
  directories_made toy_args w /\
  exists w', main toy_args w = (w', Raise DatabaseError) /\ submitted w' = [] /\
             "out/r1" ∈ dirs w'.
Proof.
  intros w. assert (directories_made toy_args w) as H by (by split).
  split; [exact H|].
  destruct (failure_before_the_loop_reads_nothing toy_args w DatabaseError H) as [Hc _].
  destruct (Hc tt eq_refl) as (w' & Hmain & _ & Hsub & _ & Hdir).
  exists w'. split; [exact Hmain|]. split; [exact Hsub|exact Hdir].
Defined.
